(** * ssh-copy-id for Windows: a shallow embedding of [ssh-copy-id.c]

    The C program is embedded function by function.  A C string is modelled by
    its contents up to the terminating NUL, as a [string]; sizes, offsets and
    [int] values are [Z].  Fixed-size buffers appear through the truncations
    the code performs on them ([strncpy], [strncat], [snprintf], the bounded
    copy loop of [copy_key_to_server]).  Calls to the C runtime and to the
    operating system ([getenv], [fopen]/[fread], [stat], [system], [_popen])
    go through the interface [OS]; every call and its result is recorded in a
    trace of events next to what the program prints.  The Winsock start-up
    and clean-up calls of [main] take no part in what follows them and are
    left out. *)

From Stdlib Require Import ZArith String Ascii List Bool Lia.
From Stdlib Require Import DecimalString.
Import ListNotations.

Local Open Scope string_scope.
Local Open Scope Z_scope.

(** ** C strings *)

Module CStr.

(** [strlen]. *)
Definition strlen (s : string) : Z := Z.of_nat (String.length s).

(** The first [n] characters of [s]: what [strncpy (dst, s, n)] followed by
    [dst[n] = 0] leaves in [dst], and what [snprintf (dst, n + 1, ...)]
    keeps of its output. *)
Fixpoint take (n : Z) (s : string) : string :=
  match s with
  | EmptyString => EmptyString
  | String c s' => if n <=? 0 then EmptyString else String c (take (n - 1) s')
  end.

(** [s + n]. *)
Fixpoint drop (n : Z) (s : string) : string :=
  match s with
  | EmptyString => EmptyString
  | String c s' => if n <=? 0 then s else drop (n - 1) s'
  end.

(** The bytes of a buffer seen as a C string: everything before the first
    NUL. *)
Fixpoint cstr (s : string) : string :=
  match s with
  | EmptyString => EmptyString
  | String c s' => if Ascii.eqb c zero then EmptyString else String c (cstr s')
  end.

(** [strchr (s, c)]: offset of the first [c] in [s], [None] for NULL. *)
Fixpoint strchr (s : string) (c : ascii) : option Z :=
  match s with
  | EmptyString => None
  | String d s' => if Ascii.eqb d c then Some 0 else option_map Z.succ (strchr s' c)
  end.

(** [strstr (h, n)]: offset of the first occurrence of [n] in [h], [None]
    for NULL.  An empty needle is found at offset 0. *)
Fixpoint strstr (h n : string) {struct h} : option Z :=
  if String.prefix n h then Some 0
  else match h with
       | EmptyString => None
       | String _ h' => option_map Z.succ (strstr h' n)
       end.

(** [s[0] != '\0']. *)
Definition nonempty (s : string) : bool :=
  match s with EmptyString => false | String _ _ => true end.

(** [s[0] == c]. *)
Definition first_is (c : ascii) (s : string) : bool :=
  match s with EmptyString => false | String d _ => Ascii.eqb d c end.

(** [size_t] arithmetic is unsigned and wraps. *)
Definition size_max : Z := 2 ^ 64.
Definition usub (a b : Z) : Z := (a - b) mod size_max.

(** The range of [int]. *)
Definition INT_MAX : Z := 2147483647.
Definition INT_MIN : Z := -2147483648.

Definition isspace (c : ascii) : bool :=
  let n := N_of_ascii c in ((9 <=? n) && (n <=? 13) || (n =? 32))%N.

Definition isdigit (c : ascii) : bool :=
  let n := N_of_ascii c in ((48 <=? n) && (n <=? 57))%N.

Fixpoint atoi_digits (s : string) (acc : Z) : Z :=
  match s with
  | EmptyString => acc
  | String c s' =>
      if isdigit c then atoi_digits s' (10 * acc + (Z.of_N (N_of_ascii c) - 48))
      else acc
  end.

Fixpoint atoi_skip (s : string) : string :=
  match s with
  | EmptyString => EmptyString
  | String c s' => if isspace c then atoi_skip s' else s
  end.

(** [atoi]: leading white space, an optional sign, then digits.  A value
    out of the range of [int] is undefined behaviour in C; the Microsoft
    runtime the program is built against saturates, and so does the model. *)
Definition atoi (s : string) : Z :=
  let v := match atoi_skip s with
           | String "-" s' => - atoi_digits s' 0
           | String "+" s' => atoi_digits s' 0
           | s' => atoi_digits s' 0
           end in
  Z.max INT_MIN (Z.min INT_MAX v).

(** [%d]. *)
Definition dec (z : Z) : string := NilZero.string_of_int (Z.to_int z).

End CStr.
Import CStr.

(** ** Constants and the options structure *)

Definition MAX_PATH_LEN : Z := 4096.
Definition MAX_CMD_LEN : Z := 8192.
Definition MAX_KEY_SIZE : Z := 65536.

(** [sizeof] of the character arrays of [Options]. *)
Definition USER_SIZE : Z := 256.
Definition HOST_SIZE : Z := 256.
Definition SSH_OPTIONS_SIZE : Z := 1024.

Record Options := mkOptions {
  user : string;
  host : string;
  port : Z;
  identity_file : string;
  key_file : string;
  force : bool;
  dry_run : bool;
  quiet : bool;
  ssh_options : string;
  ssh_config : string
}.

(** [memset (opts, 0, sizeof (Options)); opts->port = 22;] *)
Definition opts_init : Options :=
  mkOptions EmptyString EmptyString 22 EmptyString EmptyString
            false false false EmptyString EmptyString.

Definition set_user (o : Options) (v : string) : Options :=
  mkOptions v (host o) (port o) (identity_file o) (key_file o) (force o)
            (dry_run o) (quiet o) (ssh_options o) (ssh_config o).
Definition set_host (o : Options) (v : string) : Options :=
  mkOptions (user o) v (port o) (identity_file o) (key_file o) (force o)
            (dry_run o) (quiet o) (ssh_options o) (ssh_config o).
Definition set_port (o : Options) (v : Z) : Options :=
  mkOptions (user o) (host o) v (identity_file o) (key_file o) (force o)
            (dry_run o) (quiet o) (ssh_options o) (ssh_config o).
Definition set_identity_file (o : Options) (v : string) : Options :=
  mkOptions (user o) (host o) (port o) v (key_file o) (force o)
            (dry_run o) (quiet o) (ssh_options o) (ssh_config o).
Definition set_force (o : Options) (v : bool) : Options :=
  mkOptions (user o) (host o) (port o) (identity_file o) (key_file o) v
            (dry_run o) (quiet o) (ssh_options o) (ssh_config o).
Definition set_dry_run (o : Options) (v : bool) : Options :=
  mkOptions (user o) (host o) (port o) (identity_file o) (key_file o) (force o)
            v (quiet o) (ssh_options o) (ssh_config o).
Definition set_quiet (o : Options) (v : bool) : Options :=
  mkOptions (user o) (host o) (port o) (identity_file o) (key_file o) (force o)
            (dry_run o) v (ssh_options o) (ssh_config o).
Definition set_ssh_options (o : Options) (v : string) : Options :=
  mkOptions (user o) (host o) (port o) (identity_file o) (key_file o) (force o)
            (dry_run o) (quiet o) v (ssh_config o).
Definition set_ssh_config (o : Options) (v : string) : Options :=
  mkOptions (user o) (host o) (port o) (identity_file o) (key_file o) (force o)
            (dry_run o) (quiet o) (ssh_options o) v.

(** ** Pure string routines of the program *)

Definition is_blank (c : ascii) : bool :=
  Ascii.eqb c " " || Ascii.eqb c "009" || Ascii.eqb c "010" || Ascii.eqb c "013".

(** The first loop of [trim_string]: advance [start] over blanks. *)
Fixpoint skip_blanks (s : string) : string :=
  match s with
  | EmptyString => EmptyString
  | String c s' => if is_blank c then skip_blanks s' else s
  end.

(** Removal of the blanks at the end of a string. *)
Fixpoint rstrip (s : string) : string :=
  match s with
  | EmptyString => EmptyString
  | String c s' =>
      match rstrip s' with
      | EmptyString => if is_blank c then EmptyString else String c EmptyString
      | t => String c t
      end
  end.

(** [trim_string].  After the first loop [*start] is not blank; the second
    loop walks [end] back over blanks while [end > start], so the character
    at [start] always stays. *)
Definition trim_string (s : string) : string :=
  match skip_blanks s with
  | EmptyString => EmptyString
  | String c s' => String c (rstrip s')
  end.

(** The escaping loop of [copy_key_to_server]: [src] is what is left of the
    key, [remaining] the room left in [escaped_key]; the result is what the
    loop writes from [dst] on.  A quote that no longer fits is skipped and
    the loop goes on with the next character. *)
Fixpoint escape_loop (src : string) (remaining : Z) : string :=
  match src with
  | EmptyString => EmptyString
  | String c src' =>
      if remaining >? 1 then
        if Ascii.eqb c "'" then
          if remaining >=? 5 then "'\''" ++ escape_loop src' (remaining - 4)
          else escape_loop src' remaining
        else String c (escape_loop src' (remaining - 1))
      else EmptyString
  end.

(** [escaped_key] after the loop: [remaining = sizeof (escaped_key) - 1]. *)
Definition escape_key (key_content : string) : string :=
  escape_loop key_content (MAX_KEY_SIZE - 1).

(** The text before the first [".pub"] of a path, the whole path when there
    is none: [pub_pos = strstr (p, ".pub"); if (pub_pos) *pub_pos = 0]. *)
Definition cut_at_pub (p : string) : string :=
  match strstr p ".pub" with
  | Some i => take i p
  | None => p
  end.

(** What [get_public_key_path] leaves in [key_path], given the value of
    [get_home_dir ()]. *)
Definition key_path_of (home_dir : option string) (opts : Options)
           (key_path_size : Z) : string :=
  let key_path :=
    if nonempty (key_file opts) then
      take (usub key_path_size 1) (key_file opts)
    else if nonempty (identity_file opts) then
      let key_path := take (usub key_path_size 1) (identity_file opts) in
      match strstr key_path ".pub" with
      | None =>  (* strncat *)
          key_path ++ take (usub (usub key_path_size (strlen key_path)) 1) ".pub"
      | Some _ => key_path
      end
    else
      take (key_path_size - 1)  (* snprintf *)
        (match home_dir with Some h => h | None => "." end ++ "\.ssh\id_rsa.pub") in
  if first_is "~" key_path then
    let full_path :=
      take (MAX_PATH_LEN - 1)   (* snprintf *)
        (match home_dir with Some h => h | None => EmptyString end ++ drop 1 key_path) in
    take (usub key_path_size 1) full_path
  else key_path.

(** ** Events, the operating system interface and the monad of the program *)

(** The call sites of [system] in the program. *)
Inductive site : Type :=
| AtWhere      (* check_ssh_installed *)
| AtTestConn   (* run_ssh_command *)
| AtMkdir      (* copy_key_to_server, directory set-up *)
| AtAppend     (* copy_key_to_server, the echo that appends the key *)
| AtTestKey.   (* test_connection *)

Inductive event : Type :=
| Out (s : string)                          (* printf *)
| Err (s : string)                          (* fprintf (stderr, ...) *)
| Call (c : site) (cmd : string) (r : Z)    (* system (cmd) returned r *)
| Pipe (cmd : string) (out : option string) (* _popen (cmd, "r") and its output *)
| Read (path : string) (bytes : option string)  (* fopen (path, "r") and the file *)
| Stat (path : string) (found : bool).      (* stat (path, &st) == 0 *)

(** What the program asks of its environment.  [W] is the state of the
    world; [system] and [_popen] run a command line and may change it.
    [os_read] gives the bytes of a file as [fread] delivers them, [None]
    when [fopen] fails; [os_popen] gives the output of the command, [None]
    when [_popen] fails. *)
Class OS (W : Type) : Type := {
  os_getenv : string -> W -> option string;
  os_read : string -> W -> option string;
  os_stat : string -> W -> bool;
  os_system : string -> W -> Z * W;
  os_popen : string -> W -> option string * W
}.

Definition M (W A : Type) : Type := W -> A * W * list event.

Definition ret {W A : Type} (a : A) : M W A := fun w => (a, w, []).

Definition bind {W A B : Type} (m : M W A) (k : A -> M W B) : M W B :=
  fun w =>
    let '(a, w1, t1) := m w in
    let '(b, w2, t2) := k a w1 in
    (b, w2, (t1 ++ t2)%list).

Notation "x <- m ;; k" := (bind m (fun x => k))
  (at level 61, m at next level, right associativity).
Notation "m ;; k" := (bind m (fun _ => k))
  (at level 61, right associativity).

(** The result, and the trace, of running a computation. *)
Definition result_of {W A : Type} (r : A * W * list event) : A := fst (fst r).
Definition world_of {W A : Type} (r : A * W * list event) : W := snd (fst r).
Definition trace_of {W A : Type} (r : A * W * list event) : list event := snd r.

Definition nl : string := String "010" EmptyString.
Definition dq : string := String "034" EmptyString.

(** [snprintf (buf, size, ...)] keeps [size - 1] characters of its output. *)
Definition snprintf (size : Z) (output : string) : string := take (size - 1) output.

(** How [parse_args] ends: by [exit (code)], or by returning [r] with the
    options filled so far. *)
Inductive parsed : Type :=
| PExit (code : Z)
| PRet (r : Z) (opts : Options).

Definition streq (a b : string) : bool := String.eqb a b.

(** What the [printf] calls of [print_help] write, one element for each. *)
Definition help_text (prog_name : string) : list string :=
  [ "Usage: " ++ prog_name ++ " [options] [user@]host" ++ nl ++ nl;
    "Copy your public SSH key to a remote server" ++ nl ++ nl;
    "Options:" ++ nl;
    "  -i, --identity_file <file>   Use this public key (default: ~/.ssh/id_rsa.pub)" ++ nl;
    "  -p, --port <port>            SSH port (default: 22)" ++ nl;
    "  -f, --force                  Don't check for existing keys" ++ nl;
    "  -n, --dry_run                Show what would be done, but don't execute" ++ nl;
    "  -q, --quiet                  Quiet mode" ++ nl;
    "  -o, --ssh_options <options>  Additional SSH options" ++ nl;
    "  -F, --ssh_config <file>      SSH configuration file" ++ nl;
    "  -h, --help                   Show this help message" ++ nl ++ nl;
    "Examples:" ++ nl;
    "  " ++ prog_name ++ " user@example.com" ++ nl;
    "  " ++ prog_name ++ " -i ~/.ssh/id_ed25519.pub user@192.168.1.100" ++ nl;
    "  " ++ prog_name ++ " -p 2222 -f root@server.local" ++ nl ].

Section Program.

Context {W : Type} `{OS W}.

Definition printf (s : string) : M W unit := fun w => (tt, w, [Out s]).
Definition eprintf (s : string) : M W unit := fun w => (tt, w, [Err s]).
Definition getenv (name : string) : M W (option string) :=
  fun w => (os_getenv name w, w, []).
Definition system (c : site) (cmd : string) : M W Z :=
  fun w => let '(r, w') := os_system cmd w in (r, w', [Call c cmd r]).
Definition popen_read (cmd : string) : M W (option string) :=
  fun w => let '(o, w') := os_popen cmd w in (o, w', [Pipe cmd o]).
Definition fopen_read (path : string) : M W (option string) :=
  fun w => (os_read path w, w, [Read path (os_read path w)]).

Definition get_home_dir : M W (option string) :=
  home_env <- getenv "USERPROFILE" ;;
  ret (option_map (take (MAX_PATH_LEN - 1)) home_env).

Definition file_exists (path : string) : M W bool :=
  fun w => (os_stat path w, w, [Stat path (os_stat path w)]).

(** One [printf] after the other. *)
Fixpoint print_all (lines : list string) : M W unit :=
  match lines with
  | [] => ret tt
  | s :: lines' => printf s ;; print_all lines'
  end.

(** [print_help]: the fifteen [printf] calls, in order. *)
Definition print_help (prog_name : string) : M W unit :=
  print_all (help_text prog_name).

Definition parse_target (target : string) (opts : Options) : M W (Z * Options) :=
  match strchr target "@" with
  | Some at_sign =>
      let user_len := if at_sign >=? USER_SIZE then USER_SIZE - 1 else at_sign in
      let opts := set_user opts (take user_len target) in
      let opts := set_host opts (take (HOST_SIZE - 1) (drop (at_sign + 1) target)) in
      ret (0, opts)
  | None =>
      username <- getenv "USERNAME" ;;
      let opts := match username with
                  | Some u => set_user opts (take (USER_SIZE - 1) u)
                  | None => set_user opts "user"
                  end in
      ret (0, set_host opts (take (HOST_SIZE - 1) target))
  end.

Definition get_public_key_path (opts : Options) (key_path_size : Z)
  : M W (Z * string) :=
  home_dir <- get_home_dir ;;
  ret (0, key_path_of home_dir opts key_path_size).

(** [key_content] is written only when 0 is returned. *)
Definition read_public_key (key_path : string) (key_size : Z)
  : M W (Z * string) :=
  fp <- fopen_read key_path ;;
  match fp with
  | None => ret (-1, EmptyString)
  | Some file =>
      let buf := take (usub key_size 1) file in
      let bytes_read := strlen buf in
      if bytes_read =? 0 then ret (-1, EmptyString)
      else ret (0, trim_string (cstr buf))
  end.

Definition check_ssh_installed : M W bool :=
  let cmd := snprintf MAX_CMD_LEN "where ssh >nul 2>&1" in
  r <- system AtWhere cmd ;;
  ret (r =? 0).

Definition port_str_of (opts : Options) : string :=
  if (port opts >? 0) && negb (port opts =? 22)   (* port > 0 && port != 22 *)
  then snprintf 32 ("-p " ++ dec (port opts) ++ " ")
  else EmptyString.

Definition config_str_of (opts : Options) : string :=
  if nonempty (ssh_config opts)
  then snprintf MAX_CMD_LEN ("-F " ++ dq ++ ssh_config opts ++ dq ++ " ")
  else EmptyString.

(** The command line that [run_ssh_command] builds in [cmd]. *)
Definition run_ssh_line (opts : Options) (remote_cmd : string) : string :=
  let port_str := port_str_of opts in
  let config_str := config_str_of opts in
  let opts_str :=
    if nonempty (ssh_options opts)
    then snprintf 256 ("-o " ++ ssh_options opts ++ " ")
    else EmptyString in
  snprintf MAX_CMD_LEN
    ("ssh " ++ config_str ++ port_str ++ opts_str
     ++ "-o StrictHostKeyChecking=accept-new " ++ user opts ++ "@" ++ host opts
     ++ " " ++ dq ++ remote_cmd ++ dq).

Definition run_ssh_command (opts : Options) (remote_cmd : string) : M W Z :=
  system AtTestConn (run_ssh_line opts remote_cmd).

Definition mkdir_remote : string := "mkdir -p ~/.ssh && chmod 700 ~/.ssh".
Definition cat_remote : string := "cat ~/.ssh/authorized_keys 2>/dev/null".
Definition echo_remote (escaped_key : string) : string :=
  "echo '" ++ escaped_key
  ++ "' >> ~/.ssh/authorized_keys && chmod 600 ~/.ssh/authorized_keys".

(** What the [snprintf] calls of [copy_key_to_server] print for a remote
    command: ssh, the configuration and port options, [user@host], and the
    remote command between double quotes; before it is cut to the size of
    [cmd]. *)
Definition ssh_line (opts : Options) (remote_cmd : string) : string :=
  "ssh " ++ config_str_of opts ++ port_str_of opts ++ user opts ++ "@" ++ host opts
  ++ " " ++ dq ++ remote_cmd ++ dq.

(** The three command lines of [copy_key_to_server], as left in [cmd] and
    [check_cmd]. *)
Definition mkdir_cmd (opts : Options) : string :=
  snprintf MAX_CMD_LEN (ssh_line opts mkdir_remote).
Definition check_cmd (opts : Options) : string :=
  snprintf MAX_CMD_LEN (ssh_line opts cat_remote).
Definition append_cmd (opts : Options) (key_content : string) : string :=
  snprintf MAX_CMD_LEN (ssh_line opts (echo_remote (escape_key key_content))).

(** [strstr (existing_keys, key_content)] on what [fread] takes of the
    output of the pipe: at most [sizeof (existing_keys) - 1] bytes, read as
    a C string. *)
Definition key_in (output key_content : string) : bool :=
  let existing_keys := cstr (take (MAX_KEY_SIZE - 1) output) in
  match strstr existing_keys key_content with
  | Some _ => true
  | None => false
  end.

Definition creating_msg : string := "Creating ~/.ssh directory..." ++ nl.
Definition adding_msg : string := "Adding key to authorized_keys..." ++ nl.
Definition present_msg : string := "Key already exists on server" ++ nl.

Definition copy_key_to_server (opts : Options) (key_content : string) : M W Z :=
  printf creating_msg ;;
  system AtMkdir (mkdir_cmd opts) ;;
  if force opts then
    printf adding_msg ;;
    system AtAppend (append_cmd opts key_content)
  else
    fp <- popen_read (check_cmd opts) ;;
    let found :=
      match fp with
      | Some output => key_in output key_content
      | None => false
      end in
    if found then
      printf present_msg ;;
      ret 0
    else
      printf adding_msg ;;
      system AtAppend (append_cmd opts key_content).

(** The command line that [test_connection] builds in [cmd]. *)
Definition test_key_line (opts : Options) (private_key : string) : string :=
  let port_str := port_str_of opts in
  let config_str := config_str_of opts in
  snprintf MAX_CMD_LEN
    ("ssh " ++ config_str ++ port_str ++ "-i " ++ dq ++ private_key ++ dq
     ++ " -o BatchMode=yes " ++ user opts ++ "@" ++ host opts
     ++ " " ++ dq ++ "exit 0" ++ dq).

Definition test_connection (opts : Options) : M W Z :=
  kp <- get_public_key_path opts MAX_PATH_LEN ;;
  let private_key := cut_at_pub (snd kp) in
  printf ("Testing connection with key..." ++ nl) ;;
  system AtTestKey (test_key_line opts private_key).

(** The loop of [parse_args] from [argv[i]] on, followed by the check
    after the loop.  [args] is [argv[i], ..., argv[argc - 1]]. *)
Fixpoint parse_args_from (prog : string) (args : list string)
         (opts : Options) (target_found : bool) {struct args} : M W parsed :=
  match args with
  | [] =>
      if negb target_found && negb (nonempty (host opts)) then
        eprintf ("No host specified. Usage: " ++ prog ++ " user@host" ++ nl) ;;
        print_help prog ;;
        ret (PRet (-1) opts)
      else ret (PRet 0 opts)
  | a :: rest =>
      if streq a "-h" || streq a "--help" then
        print_help prog ;;
        ret (PExit 0)
      else if streq a "-i" || streq a "--identity_file" then
        match rest with
        | v :: rest' =>
            parse_args_from prog rest'
              (set_identity_file opts (take (MAX_PATH_LEN - 1) v)) target_found
        | [] => parse_args_from prog rest opts target_found
        end
      else if streq a "-p" || streq a "--port" then
        match rest with
        | v :: rest' => parse_args_from prog rest' (set_port opts (atoi v)) target_found
        | [] => parse_args_from prog rest opts target_found
        end
      else if streq a "-f" || streq a "--force" then
        parse_args_from prog rest (set_force opts true) target_found
      else if streq a "-n" || streq a "--dry_run" then
        parse_args_from prog rest (set_dry_run opts true) target_found
      else if streq a "-q" || streq a "--quiet" then
        parse_args_from prog rest (set_quiet opts true) target_found
      else if streq a "-o" || streq a "--ssh_options" then
        match rest with
        | v :: rest' =>
            parse_args_from prog rest'
              (set_ssh_options opts (take (SSH_OPTIONS_SIZE - 1) v)) target_found
        | [] => parse_args_from prog rest opts target_found
        end
      else if streq a "-F" || streq a "--ssh_config" then
        match rest with
        | v :: rest' =>
            parse_args_from prog rest'
              (set_ssh_config opts (take (MAX_PATH_LEN - 1) v)) target_found
        | [] => parse_args_from prog rest opts target_found
        end
      else if negb (first_is "-" a) && negb target_found then
        t <- parse_target a opts ;;
        parse_args_from prog rest (snd t) true
      else
        eprintf ("Unknown option: " ++ a ++ nl) ;;
        print_help prog ;;
        ret (PRet (-1) opts)
  end.

(** [parse_args (argc, argv, &opts)] with [prog = argv[0]] and
    [args = argv[1], ..., argv[argc - 1]]. *)
Definition parse_args (prog : string) (args : list string) : M W parsed :=
  parse_args_from prog args opts_init false.

Definition dry_run_msg : string :=
  "[DRY RUN] Key would be added to ~/.ssh/authorized_keys" ++ nl.
Definition ssh_missing_msg : string :=
  "SSH client not found. Please install OpenSSH for Windows." ++ nl.
Definition not_found_msg (key_path : string) : string :=
  "Public key not found: " ++ key_path ++ nl.
Definition private_found_msg (private_key : string) : string :=
  "Private key found: " ++ private_key ++ nl.
Definition generate_msg (private_key key_path : string) : string :=
  "Generate public key: ssh-keygen -y -f " ++ private_key ++ " > " ++ key_path ++ nl.
Definition testing_msg : string := "Testing connection..." ++ nl.
Definition connect_failed_msg : string :=
  "Failed to connect to server. Check login credentials." ++ nl.
Definition copied_msg : string := "Key copied successfully!" ++ nl.
Definition key_works_msg : string := "Connection with key works!" ++ nl.
Definition key_failed_msg : string := "Connection with key failed." ++ nl.
Definition copy_failed_msg : string := "Error copying key" ++ nl.

(** The [port > 0 && port != 22] test. *)
Definition custom_port (opts : Options) : bool :=
  (port opts >? 0) && negb (port opts =? 22).

Definition main (prog : string) (args : list string) : M W Z :=
  p <- parse_args prog args ;;
  match p with
  | PExit code => ret code
  | PRet r opts =>
      if negb (r =? 0) then ret 1
      else
        installed <- check_ssh_installed ;;
        if negb installed then
          eprintf ssh_missing_msg ;;
          ret 1
        else
          kp <- get_public_key_path opts MAX_PATH_LEN ;;
          let key_path := snd kp in
          (if negb (quiet opts) then
             printf ("Copying key: " ++ key_path ++ nl) ;;
             printf ("To server: " ++ user opts ++ "@" ++ host opts) ;;
             (if custom_port opts then printf (":" ++ dec (port opts)) else ret tt) ;;
             printf nl
           else ret tt) ;;
          if dry_run opts then
            printf dry_run_msg ;;
            ret 0
          else
            rk <- read_public_key key_path MAX_KEY_SIZE ;;
            if negb (fst rk =? 0) then
              eprintf (not_found_msg key_path) ;;
              let private_key := cut_at_pub (take (MAX_PATH_LEN - 1) key_path) in
              found <- file_exists private_key ;;
              (if found then
                 eprintf (private_found_msg private_key) ;;
                 eprintf (generate_msg private_key key_path)
               else ret tt) ;;
              ret 1
            else
              let key_content := snd rk in
              (if negb (quiet opts) then printf testing_msg else ret tt) ;;
              result <- run_ssh_command opts "exit 0" ;;
              if negb (result =? 0) then
                eprintf connect_failed_msg ;;
                ret 1
              else
                result <- copy_key_to_server opts key_content ;;
                if result =? 0 then
                  (if negb (quiet opts) then
                     printf copied_msg ;;
                     r <- test_connection opts ;;
                     if r =? 0 then printf key_works_msg else printf key_failed_msg
                   else ret tt) ;;
                  ret 0
                else
                  eprintf copy_failed_msg ;;
                  ret 1
  end.

End Program.

(** ** The escaping rule, as the specification words it *)

(** Every single quote becomes the four characters that close the quoted
    string, insert an escaped quote and reopen quoting; every other character
    stays. *)
Fixpoint quote_escape (s : string) : string :=
  match s with
  | EmptyString => EmptyString
  | String c s' =>
      if Ascii.eqb c "'" then "'\''" ++ quote_escape s'
      else String c (quote_escape s')
  end.

(** ** The collaborators: command lines, the ssh client, the remote shell

    None of this is code of the program.  It is the environment the program
    talks to, kept as small as the commands the program issues allow, and
    used to run the program on concrete worlds and to state what two
    successive runs do to the remote file. *)

Module Sh.

Definition push (c : ascii) (r : option (string * string)) : option (string * string) :=
  match r with
  | Some (w, rest) => Some (String c w, rest)
  | None => None
  end.

(** Characters that end or change the reading of a word when they are left
    unquoted; the commands of the program quote them, and a word that has
    one in the open is not read. *)
Definition special (c : ascii) : bool :=
  existsb (Ascii.eqb c)
    ["034"; "$"; "`"; ";"; "&"; "|"; "<"; ">"; "("; ")"; "*"; "?"; "["; "#"; "~"]%char.

(** Quote removal on one word (POSIX shell, 2.2): inside single quotes
    every character stands for itself up to the closing quote; outside, a
    backslash keeps the next character, and a blank or the end of the
    input ends the word.  The result is the word and the rest of the
    input. *)
Fixpoint word (inq : bool) (s : string) {struct s} : option (string * string) :=
  match s with
  | EmptyString => if inq then None else Some (EmptyString, EmptyString)
  | String c s' =>
      if inq then
        if Ascii.eqb c "'" then word false s' else push c (word true s')
      else if Ascii.eqb c "'" then word true s'
      else if Ascii.eqb c "\" then
        match s' with
        | String d s'' => push d (word false s'')
        | EmptyString => None
        end
      else if is_blank c then Some (EmptyString, s)
      else if special c then None
      else push c (word false s')
  end.

(** [echo]: POSIX fixes what it writes (the operand and a newline) only
    for an operand without backslash when the first operand is not [-n];
    shells in use also take other words that start with ['-'] as options.
    The model knows [echo] only on an operand without backslash that does
    not start with ['-']. *)
Fixpoint no_backslash (s : string) : bool :=
  match s with
  | EmptyString => true
  | String c s' => negb (Ascii.eqb c "\") && no_backslash s'
  end.

Definition echo_portable (operand : string) : bool :=
  negb (first_is "-" operand) && no_backslash operand.

End Sh.

Module Win.

Definition token (cur : option string) : string :=
  match cur with Some t => t | None => EmptyString end.

(** The splitting of a command line into arguments by the C runtime of
    the started program: blanks separate arguments, a double quote opens
    or closes a run in which blanks are kept.  The backslash rules in
    front of a double quote are not modelled, nor is the command
    interpreter that [system] starts first, with its variables and
    operators: the statements on the modelled remote keep to strings on
    which neither plays a part ([session_ok], [key_ok]). *)
Fixpoint split_args (s : string) (inq : bool) (cur : option string) : list string :=
  match s with
  | EmptyString => match cur with Some t => [t] | None => [] end
  | String c s' =>
      if Ascii.eqb c "034" then split_args s' (negb inq) (Some (token cur))
      else if (Ascii.eqb c " " || Ascii.eqb c "009") && negb inq then
        match cur with
        | Some t => t :: split_args s' false None
        | None => split_args s' false None
        end
      else split_args s' inq (Some (token cur ++ String c EmptyString))
  end.

(** The arguments of the ssh client: options with their value, then the
    destination, then the words of the remote command, which the client
    joins with spaces. *)
Fixpoint ssh_args (args : list string) : option (string * string) :=
  match args with
  | [] => None
  | a :: rest =>
      if streq a "-F" || streq a "-p" || streq a "-o" || streq a "-i" then
        match rest with
        | _ :: rest' => ssh_args rest'
        | [] => None
        end
      else if first_is "-" a then None
      else Some (a, String.concat " " rest)
  end.

End Win.

Module Ideal.

(** A world with one remote account, reached under any destination. *)
Record World := mkWorld {
  env : list (string * string);       (* environment variables *)
  files : list (string * string);     (* local files and their bytes *)
  has_ssh : bool;                     (* an ssh client is on the search path *)
  remote_up : bool;                   (* the remote accepts the login *)
  remote_dir : option Z;              (* mode of ~/.ssh, when it exists *)
  remote_keys : option string;        (* ~/.ssh/authorized_keys, when it exists *)
  remote_keys_mode : Z
}.

Fixpoint assoc (k : string) (l : list (string * string)) : option string :=
  match l with
  | [] => None
  | (k', v) :: l' => if streq k k' then Some v else assoc k l'
  end.

Definition with_dir (w : World) (m : Z) : World :=
  mkWorld (env w) (files w) (has_ssh w) (remote_up w) (Some m)
          (remote_keys w) (remote_keys_mode w).

Definition with_keys (w : World) (k : string) (m : Z) : World :=
  mkWorld (env w) (files w) (has_ssh w) (remote_up w) (remote_dir w)
          (Some k) m.

Definition keys_text (w : World) : string :=
  match remote_keys w with Some k => k | None => EmptyString end.

Definition append_tail : string :=
  " >> ~/.ssh/authorized_keys && chmod 600 ~/.ssh/authorized_keys".

(** The remote shell on the four commands the program sends: exit status,
    standard output, world afterwards.  [echo] writes its operand and a
    newline when the operand is one on which every [echo] agrees
    ([Sh.echo_portable]); with another operand the command is, like every
    command the program does not send, outside the model (status 127, no
    effect). *)
Definition run_remote (c : string) (w : World) : Z * string * World :=
  if streq c "exit 0" then (0, EmptyString, w)
  else if streq c "mkdir -p ~/.ssh && chmod 700 ~/.ssh" then
    (0, EmptyString, with_dir w 448)
  else if streq c "cat ~/.ssh/authorized_keys 2>/dev/null" then
    match remote_keys w with
    | Some k => (0, k, w)
    | None => (1, EmptyString, w)
    end
  else if String.prefix "echo " c then
    match Sh.word false (drop 5 c) with
    | Some (line, rest) =>
        if streq rest append_tail && Sh.echo_portable line then
          match remote_dir w with
          | Some _ => (0, EmptyString, with_keys w (keys_text w ++ line ++ nl) 384)
          | None => (1, EmptyString, w)
          end
        else (127, EmptyString, w)
    | None => (2, EmptyString, w)
    end
  else (127, EmptyString, w).

(** An ssh command line: [None] when it is not one. *)
Definition ssh (cmd : string) (w : World) : option (Z * string * World) :=
  match Win.split_args cmd false None with
  | a :: args =>
      if streq a "ssh" then
        if has_ssh w && remote_up w then
          match Win.ssh_args args with
          | Some (_, rcmd) => Some (run_remote rcmd w)
          | None => Some (255, EmptyString, w)
          end
        else Some (255, EmptyString, w)
      else None
  | [] => None
  end.

Definition ideal_system (cmd : string) (w : World) : Z * World :=
  if streq cmd "where ssh >nul 2>&1" then ((if has_ssh w then 0 else 1), w)
  else match ssh cmd w with
       | Some (r, _, w') => (r, w')
       | None => (1, w)
       end.

Definition ideal_popen (cmd : string) (w : World) : option string * World :=
  match ssh cmd w with
  | Some (_, out, w') => (Some out, w')
  | None => (Some EmptyString, w)
  end.

#[global] Instance ideal_os : OS World := {|
  os_getenv := fun k w => assoc k (env w);
  os_read := fun p w => assoc p (files w);
  os_stat := fun p w => match assoc p (files w) with Some _ => true | None => false end;
  os_system := ideal_system;
  os_popen := ideal_popen
|}.

End Ideal.

(** A string of [n] copies of one character, for inputs that fill a buffer. *)
Fixpoint replicate (n : nat) (c : ascii) : string :=
  match n with
  | O => EmptyString
  | S n' => String c (replicate n' c)
  end.

(** ** Concrete worlds and inputs *)

Module Demo.
Import Ideal.

Definition pub_path : string := "C:\Users\me\.ssh\id_rsa.pub".
Definition priv_path : string := "C:\Users\me\.ssh\id_rsa".
Definition key_text : string := "ssh-rsa AAAA me@pc".

(** A user with a key pair, an ssh client and a fresh remote account. *)
Definition w_fresh : World :=
  mkWorld [("USERNAME", "me"); ("USERPROFILE", "C:\Users\me")]
          [(pub_path, key_text ++ nl); (priv_path, "PRIVATE")]
          true true None None 0.

(** The same user without an ssh client. *)
Definition w_no_ssh : World :=
  mkWorld (env w_fresh) (files w_fresh) false true None None 0.

(** Only the private key is there, and no ssh client. *)
Definition w_priv_only_no_ssh : World :=
  mkWorld (env w_fresh) [(priv_path, "PRIVATE")] false true None None 0.

(** Only the private key is there. *)
Definition w_priv_only : World :=
  mkWorld (env w_fresh) [(priv_path, "PRIVATE")] true true None None 0.

(** No [USERNAME] in the environment. *)
Definition w_no_username : World :=
  mkWorld [] (files w_fresh) true true None None 0.

(** The key is already on the remote, whose [~/.ssh] is open to all. *)
Definition w_present : World :=
  mkWorld (env w_fresh) (files w_fresh) true true (Some 493)
          (Some (key_text ++ nl)) 420.

(** A remote on which the key file holds [k]. *)
Definition remote_with (k : string) : World :=
  mkWorld (env w_fresh) (files w_fresh) true true (Some 448) (Some k) 384.

(** The remote file fills the 65535 bytes that one run reads of it. *)
Definition w_full : World := remote_with (replicate (Z.to_nat 65535) "x").

Definition alice_box : Options := set_host (set_user opts_init "alice") "box".
Definition alice_box_dry : Options := set_dry_run alice_box true.
Definition alice_box_quiet : Options := set_quiet alice_box true.

Definition prog : string := "ssh-copy-id".

End Demo.

(** ** Reading a trace *)

(** The events that reach the remote host: every [system] call but the
    local search for the client, and the pipe. *)
Definition is_remote (e : event) : bool :=
  match e with
  | Call AtWhere _ _ => false
  | Call _ _ _ => true
  | Pipe _ _ => true
  | _ => false
  end.

Definition is_out (e : event) : bool :=
  match e with Out _ => true | _ => false end.

(** A trace without a remote call. *)
Definition local (t : list event) : Prop := Forall (fun e => is_remote e = false) t.

Definition where_cmd : string := "where ssh >nul 2>&1".

Definition no_host_msg (prog : string) : string :=
  "No host specified. Usage: " ++ prog ++ " user@host" ++ nl.

Definition unknown_option_msg (a : string) : string :=
  "Unknown option: " ++ a ++ nl.

(** ** The runs of the program, path by path

    [copy_run] and [main_run] list the paths through [copy_key_to_server]
    and [main]: for each path, what the environment answered and the trace
    that the path leaves.  [copy_key_to_server_runs] and [main_runs] below
    show that every run of the functions is one of these. *)

Section Runs.

Context {W : Type} `{OS W}.

(** [get_public_key_path (&opts, key_path, sizeof (key_path))] in world [w]. *)
Definition key_path_in (opts : Options) (w : W) : string :=
  key_path_of (option_map (take (MAX_PATH_LEN - 1)) (os_getenv "USERPROFILE" w))
              opts MAX_PATH_LEN.

(** What [main] prints before the dry-run test. *)
Definition header (opts : Options) (key_path : string) : list event :=
  if quiet opts then []
  else [Out ("Copying key: " ++ key_path ++ nl);
        Out ("To server: " ++ user opts ++ "@" ++ host opts)]
       ++ (if custom_port opts then [Out (":" ++ dec (port opts))] else [])
       ++ [Out nl].

Definition testing (opts : Options) : list event :=
  if quiet opts then [] else [Out testing_msg].

Inductive copy_run (opts : Options) (key : string) (w : W)
  : Z -> W -> list event -> Prop :=
| CopyForced (rm : Z) (w1 : W) (r : Z) (w2 : W) :
    force opts = true ->
    os_system (mkdir_cmd opts) w = (rm, w1) ->
    os_system (append_cmd opts key) w1 = (r, w2) ->
    copy_run opts key w r w2
      [Out creating_msg; Call AtMkdir (mkdir_cmd opts) rm;
       Out adding_msg; Call AtAppend (append_cmd opts key) r]
| CopyPresent (rm : Z) (w1 : W) (output : string) (w2 : W) :
    force opts = false ->
    os_system (mkdir_cmd opts) w = (rm, w1) ->
    os_popen (check_cmd opts) w1 = (Some output, w2) ->
    key_in output key = true ->
    copy_run opts key w 0 w2
      [Out creating_msg; Call AtMkdir (mkdir_cmd opts) rm;
       Pipe (check_cmd opts) (Some output); Out present_msg]
| CopyAppended (rm : Z) (w1 : W) (fp : option string) (w2 : W) (r : Z) (w3 : W) :
    force opts = false ->
    os_system (mkdir_cmd opts) w = (rm, w1) ->
    os_popen (check_cmd opts) w1 = (fp, w2) ->
    (forall output, fp = Some output -> key_in output key = false) ->
    os_system (append_cmd opts key) w2 = (r, w3) ->
    copy_run opts key w r w3
      [Out creating_msg; Call AtMkdir (mkdir_cmd opts) rm;
       Pipe (check_cmd opts) fp;
       Out adding_msg; Call AtAppend (append_cmd opts key) r].

(** [read_public_key] succeeds on a file that yields at least one byte. *)
Definition key_of_file (file : string) : string :=
  trim_string (cstr (take (MAX_KEY_SIZE - 1) file)).

Definition unreadable (bytes : option string) : Prop :=
  bytes = None \/ bytes = Some EmptyString.

Inductive main_run (prog : string) (args : list string) (w : W)
  : Z -> W -> list event -> Prop :=
| RunHelp :
    parse_args prog args w = (PExit 0, w, map Out (help_text prog)) ->
    main_run prog args w 0 w (map Out (help_text prog))
| RunBadArgs (opts : Options) (msg : string) :
    parse_args prog args w = (PRet (-1) opts, w, Err msg :: map Out (help_text prog)) ->
    msg = no_host_msg prog \/ (exists a, msg = unknown_option_msg a) ->
    main_run prog args w 1 w (Err msg :: map Out (help_text prog))
| RunNoClient (opts : Options) (r0 : Z) (w1 : W) :
    parse_args prog args w = (PRet 0 opts, w, []) ->
    os_system where_cmd w = (r0, w1) ->
    r0 <> 0 ->
    main_run prog args w 1 w1 [Call AtWhere where_cmd r0; Err ssh_missing_msg]
| RunDry (opts : Options) (w1 : W) :
    parse_args prog args w = (PRet 0 opts, w, []) ->
    os_system where_cmd w = (0, w1) ->
    dry_run opts = true ->
    main_run prog args w 0 w1
      (Call AtWhere where_cmd 0 :: header opts (key_path_in opts w1)
       ++ [Out dry_run_msg])
| RunNoKey (opts : Options) (w1 : W) :
    parse_args prog args w = (PRet 0 opts, w, []) ->
    os_system where_cmd w = (0, w1) ->
    dry_run opts = false ->
    let key_path := key_path_in opts w1 in
    let private_key := cut_at_pub key_path in
    unreadable (os_read key_path w1) ->
    main_run prog args w 1 w1
      (Call AtWhere where_cmd 0 :: header opts key_path
       ++ [Read key_path (os_read key_path w1); Err (not_found_msg key_path);
           Stat private_key (os_stat private_key w1)]
       ++ (if os_stat private_key w1
           then [Err (private_found_msg private_key);
                 Err (generate_msg private_key key_path)]
           else []))
| RunNoConnection (opts : Options) (w1 : W) (file : string) (r : Z) (w2 : W) :
    parse_args prog args w = (PRet 0 opts, w, []) ->
    os_system where_cmd w = (0, w1) ->
    dry_run opts = false ->
    let key_path := key_path_in opts w1 in
    os_read key_path w1 = Some file ->
    file <> EmptyString ->
    os_system (run_ssh_line opts "exit 0") w1 = (r, w2) ->
    r <> 0 ->
    main_run prog args w 1 w2
      (Call AtWhere where_cmd 0 :: header opts key_path
       ++ [Read key_path (Some file)] ++ testing opts
       ++ [Call AtTestConn (run_ssh_line opts "exit 0") r; Err connect_failed_msg])
| RunCopyFailed (opts : Options) (w1 : W) (file : string) (w2 : W)
                (rc : Z) (w3 : W) (tc : list event) :
    parse_args prog args w = (PRet 0 opts, w, []) ->
    os_system where_cmd w = (0, w1) ->
    dry_run opts = false ->
    let key_path := key_path_in opts w1 in
    os_read key_path w1 = Some file ->
    file <> EmptyString ->
    os_system (run_ssh_line opts "exit 0") w1 = (0, w2) ->
    copy_run opts (key_of_file file) w2 rc w3 tc ->
    rc <> 0 ->
    main_run prog args w 1 w3
      (Call AtWhere where_cmd 0 :: header opts key_path
       ++ [Read key_path (Some file)] ++ testing opts
       ++ [Call AtTestConn (run_ssh_line opts "exit 0") 0]
       ++ tc ++ [Err copy_failed_msg])
| RunCopiedQuiet (opts : Options) (w1 : W) (file : string) (w2 w3 : W)
                 (tc : list event) :
    parse_args prog args w = (PRet 0 opts, w, []) ->
    os_system where_cmd w = (0, w1) ->
    dry_run opts = false ->
    let key_path := key_path_in opts w1 in
    os_read key_path w1 = Some file ->
    file <> EmptyString ->
    os_system (run_ssh_line opts "exit 0") w1 = (0, w2) ->
    copy_run opts (key_of_file file) w2 0 w3 tc ->
    quiet opts = true ->
    main_run prog args w 0 w3
      (Call AtWhere where_cmd 0 :: header opts key_path
       ++ [Read key_path (Some file)] ++ testing opts
       ++ [Call AtTestConn (run_ssh_line opts "exit 0") 0]
       ++ tc)
| RunCopied (opts : Options) (w1 : W) (file : string) (w2 w3 : W)
            (tc : list event) (rk : Z) (w4 : W) :
    parse_args prog args w = (PRet 0 opts, w, []) ->
    os_system where_cmd w = (0, w1) ->
    dry_run opts = false ->
    let key_path := key_path_in opts w1 in
    os_read key_path w1 = Some file ->
    file <> EmptyString ->
    os_system (run_ssh_line opts "exit 0") w1 = (0, w2) ->
    copy_run opts (key_of_file file) w2 0 w3 tc ->
    quiet opts = false ->
    let key_line := test_key_line opts (cut_at_pub (key_path_in opts w3)) in
    os_system key_line w3 = (rk, w4) ->
    main_run prog args w 0 w4
      (Call AtWhere where_cmd 0 :: header opts key_path
       ++ [Read key_path (Some file)] ++ testing opts
       ++ [Call AtTestConn (run_ssh_line opts "exit 0") 0]
       ++ tc
       ++ [Out copied_msg; Out ("Testing connection with key..." ++ nl);
           Call AtTestKey key_line rk;
           Out (if rk =? 0 then key_works_msg else key_failed_msg)]).

End Runs.

(** ** The ways [parse_args] ends *)

(** How a run of [parse_args] can end: it leaves the world as it is, and
    it has printed nothing when it returns 0, the help text when it exits,
    and an error followed by the help text when it returns -1. *)
Definition parse_shape {W : Type} (prog : string) (w : W)
           (r : parsed * W * list event) : Prop :=
  world_of r = w
  /\ match result_of r with
     | PExit code => code = 0 /\ trace_of r = map Out (help_text prog)
     | PRet rc _ =>
         (rc = 0 /\ trace_of r = [])
         \/ (rc = -1
             /\ exists msg,
                 trace_of r = Err msg :: map Out (help_text prog)
                 /\ (msg = no_host_msg prog \/ exists a, msg = unknown_option_msg a))
     end.

(** ** Outcomes *)

(** Two outcomes of a run, read off its trace. *)
Section Outcomes.

Variable t : list event.

(** The run printed that the key already exists. *)
Definition already_present : Prop := In (Out present_msg) t.
(** The append command was run and returned 0. *)
Definition key_appended : Prop := exists cmd, In (Call AtAppend cmd 0) t.

End Outcomes.

(** The events that come before the remote directory is set up must not be
    the check for the key or its appending. *)
Definition is_check_or_append (e : event) : bool :=
  match e with
  | Pipe _ _ => true
  | Call AtAppend _ _ => true
  | _ => false
  end.

(** An output that is neither of the two messages that name an outcome. *)
Definition plain_out (e : event) : Prop :=
  exists s, e = Out s /\ s <> dry_run_msg /\ s <> present_msg.

(** The fields that [parse_args] fills fit their arrays. *)
Definition fits (o : Options) : Prop :=
  strlen (user o) <= USER_SIZE - 1
  /\ strlen (host o) <= HOST_SIZE - 1
  /\ strlen (ssh_config o) <= MAX_PATH_LEN - 1.

(** ** Well-formed sessions on the modelled remote *)

(** No blank and no double quote: a string that stays one argument. *)
Fixpoint plain (s : string) : bool :=
  match s with
  | EmptyString => true
  | String c s' =>
      negb (Ascii.eqb c " " || Ascii.eqb c "009" || Ascii.eqb c "034") && plain s'
  end.

Fixpoint no_dq (s : string) : bool :=
  match s with
  | EmptyString => true
  | String c s' => negb (Ascii.eqb c "034") && no_dq s'
  end.

Fixpoint nul_free (s : string) : bool :=
  match s with
  | EmptyString => true
  | String c s' => negb (Ascii.eqb c zero) && nul_free s'
  end.

(** Between the program and the remote file stand the command
    interpreter that [system] starts, the splitting of the command line
    into the arguments of [ssh], and the remote shell with its [echo].  The
    model of these has no variable expansion, no control character and no
    backslash in front of a double quote, so the statements on the modelled
    remote are made for strings that all of them pass on as they are. *)
Definition printable (c : ascii) : bool :=
  (32 <=? N_of_ascii c)%N && (N_of_ascii c <=? 126)%N.

Fixpoint all_chars (p : ascii -> bool) (s : string) : bool :=
  match s with
  | EmptyString => true
  | String c s' => p c && all_chars p s'
  end.

Fixpoint ends_with (c : ascii) (s : string) : bool :=
  match s with
  | EmptyString => false
  | String d EmptyString => Ascii.eqb d c
  | String _ s' => ends_with c s'
  end.

(** In a key: printable ASCII but the double quote (it would end the
    argument), the percent sign (the command interpreter expands variables
    also between double quotes) and the backslash ([echo]). *)
Definition key_char (c : ascii) : bool :=
  printable c && negb (Ascii.eqb c "034" || Ascii.eqb c "%" || Ascii.eqb c "\").

(** In the destination, which stands outside double quotes: no blank
    either, and none of the characters the command interpreter reads as
    operators. *)
Definition dest_char (c : ascii) : bool :=
  printable c
  && negb (existsb (Ascii.eqb c)
             [" "; "034"; "%"; "&"; "|"; "<"; ">"; "^"; "("; ")"]%char).

(** In the configuration path, between double quotes. *)
Definition path_char (c : ascii) : bool :=
  printable c && negb (Ascii.eqb c "034" || Ascii.eqb c "%").

(** A key that reaches [echo] as it is and on which every [echo] agrees. *)
Definition key_ok (key : string) : bool :=
  all_chars key_char key && negb (first_is "-" key).

(** The destination [user@host] is one argument and not an option, the
    configuration path stays between its double quotes (it has none and
    does not end in a backslash), and the port prints in the 31 characters
    of [port_str] (as every [int] does). *)
Definition session_ok (opts : Options) : Prop :=
  all_chars dest_char (user opts ++ "@" ++ host opts) = true
  /\ first_is "-" (user opts ++ "@" ++ host opts) = false
  /\ all_chars path_char (ssh_config opts) = true
  /\ ends_with "\" (ssh_config opts) = false
  /\ strlen (dec (port opts)) <= 27.

(** What the statements on the modelled remote ask of a session, a key and
    a world: a client and a remote that answers, a well-formed session, a
    key of characters that pass unchanged and that does not start with
    ['-'], a remote file without NUL, and an append command that fits
    [cmd]. *)
Definition deployable (opts : Options) (key : string) (w : Ideal.World) : Prop :=
  Ideal.has_ssh w = true
  /\ Ideal.remote_up w = true
  /\ session_ok opts
  /\ key_ok key = true
  /\ nul_free (Ideal.keys_text w) = true
  /\ strlen (ssh_line opts (echo_remote (quote_escape key))) <= MAX_CMD_LEN - 1.

(** The traces of [copy_key_to_server] on the modelled remote. *)
Definition forced_trace (opts : Options) (key : string) : list event :=
  [Out creating_msg; Call AtMkdir (mkdir_cmd opts) 0;
   Out adding_msg; Call AtAppend (append_cmd opts key) 0].

Definition present_trace (opts : Options) (fetched : string) : list event :=
  [Out creating_msg; Call AtMkdir (mkdir_cmd opts) 0;
   Pipe (check_cmd opts) (Some fetched); Out present_msg].

Definition appended_trace (opts : Options) (key fetched : string) : list event :=
  [Out creating_msg; Call AtMkdir (mkdir_cmd opts) 0;
   Pipe (check_cmd opts) (Some fetched);
   Out adding_msg; Call AtAppend (append_cmd opts key) 0].

(** The arguments that the connection options contribute. *)
Definition session_args (opts : Options) : list string :=
  (if nonempty (ssh_config opts) then ["-F"; ssh_config opts] else [])
  ++ (if custom_port opts then ["-p"; dec (port opts)] else []).

(** ** Predicates on strings used in the further properties *)

(** Only characters that [trim_string] removes. *)
Fixpoint all_blank (s : string) : bool :=
  match s with
  | EmptyString => true
  | String c s' => is_blank c && all_blank s'
  end.

Fixpoint last_char (s : string) : option ascii :=
  match s with
  | EmptyString => None
  | String c EmptyString => Some c
  | String _ s' => last_char s'
  end.

(** A string that starts and ends with a character that is not blank. *)
Definition trimmed (s : string) : Prop :=
  (exists c s', s = String c s' /\ is_blank c = false)
  /\ (exists d, last_char s = Some d /\ is_blank d = false).

(** Every string field within its array, and [key_file] empty. *)
Definition fields_fit (o : Options) : Prop :=
  strlen (user o) <= USER_SIZE - 1
  /\ strlen (host o) <= HOST_SIZE - 1
  /\ strlen (identity_file o) <= MAX_PATH_LEN - 1
  /\ strlen (ssh_options o) <= SSH_OPTIONS_SIZE - 1
  /\ strlen (ssh_config o) <= MAX_PATH_LEN - 1
  /\ key_file o = EmptyString.

(** [k] is [s] with some characters left out. *)
Inductive thinned : string -> string -> Prop :=
| thinned_nil : thinned EmptyString EmptyString
| thinned_keep (c : ascii) (k s : string) :
    thinned k s -> thinned (String c k) (String c s)
| thinned_drop (c : ascii) (k s : string) :
    thinned k s -> thinned k (String c s).

(** The options of [parse_args] that take the next argument as value. *)
Definition takes_value (a : string) : bool :=
  streq a "-i" || streq a "--identity_file" || streq a "-p" || streq a "--port"
  || streq a "-o" || streq a "--ssh_options" || streq a "-F" || streq a "--ssh_config".

(** The arguments that are neither an option (a word that starts with
    ['-']) nor the value of an option that takes one. *)
Fixpoint positional (args : list string) : list string :=
  match args with
  | [] => []
  | a :: rest =>
      if takes_value a then
        match rest with
        | _ :: rest' => positional rest'
        | [] => []
        end
      else if first_is "-" a then positional rest
      else a :: positional rest
  end.

(** ** A world in which nothing answers *)

Module Scripted.

(** One state; no variable, no file; [system] returns 1 and [_popen]
    fails. *)
Inductive World : Type := Down.

#[global] Instance down_os : OS World := {|
  os_getenv := fun _ _ => None;
  os_read := fun _ _ => None;
  os_stat := fun _ _ => false;
  os_system := fun _ w => (1, w);
  os_popen := fun _ w => (None, w)
|}.

End Scripted.

(** A world of [Demo] whose key file holds one newline. *)
Definition w_blank_key : Ideal.World :=
  Ideal.mkWorld (Ideal.env Demo.w_fresh) [(Demo.pub_path, nl)] true true None None 0.

(** The remote of [Demo] refuses the login. *)
Definition w_remote_down : Ideal.World :=
  Ideal.mkWorld (Ideal.env Demo.w_fresh) (Ideal.files Demo.w_fresh) true false None None 0.

Definition is_pipe (e : event) : bool :=
  match e with Pipe _ _ => true | _ => false end.

Definition is_append (e : event) : bool :=
  match e with Call AtAppend _ _ => true | _ => false end.

Definition is_err (e : event) : bool :=
  match e with Err _ => true | _ => false end.

(** * Properties *)

(** ** C strings *)

Section CStrFacts.

Lemma strlen_nonneg (s : string) : 0 <= strlen s.
Proof. unfold strlen. lia. Qed.

Lemma strlen_cons (c : ascii) (s : string) : strlen (String c s) = 1 + strlen s.
Proof. unfold strlen. cbn [String.length]. lia. Qed.

Lemma strlen_nil : strlen EmptyString = 0.
Proof. reflexivity. Qed.

Lemma strlen_app (a b : string) : strlen (a ++ b) = strlen a + strlen b.
Proof.
  induction a as [|c a IH]; cbn [append].
  - rewrite strlen_nil. lia.
  - rewrite !strlen_cons, IH. lia.
Qed.

Lemma sapp_nil_r (s : string) : s ++ EmptyString = s.
Proof. induction s as [|c s IH]; cbn [append]; [reflexivity | now rewrite IH]. Qed.

Lemma sapp_assoc (a b c : string) : (a ++ b) ++ c = a ++ (b ++ c).
Proof. induction a as [|x a IH]; cbn [append]; [reflexivity | now rewrite IH]. Qed.

Lemma take_all (n : Z) (s : string) : strlen s <= n -> take n s = s.
Proof.
  revert n. induction s as [|c s IH]; intros n Hn; cbn [take]; [reflexivity|].
  rewrite strlen_cons in Hn. pose proof (strlen_nonneg s).
  destruct (Z.leb_spec n 0); [lia|].
  rewrite IH by lia. reflexivity.
Qed.

Lemma take_nonpos (n : Z) (s : string) : n <= 0 -> take n s = EmptyString.
Proof.
  intros Hn. destruct s as [|c s]; cbn [take]; [reflexivity|].
  destruct (Z.leb_spec n 0); [reflexivity | lia].
Qed.

Lemma strlen_take_le (n : Z) (s : string) : 0 <= n -> strlen (take n s) <= n.
Proof.
  revert n. induction s as [|c s IH]; intros n Hn; cbn [take].
  - rewrite strlen_nil. lia.
  - destruct (Z.leb_spec n 0).
    + rewrite strlen_nil. lia.
    + rewrite strlen_cons. specialize (IH (n - 1)). lia.
Qed.

Lemma strlen_take (n : Z) (s : string) : 0 <= n -> strlen (take n s) = Z.min n (strlen s).
Proof.
  revert n. induction s as [|c s IH]; intros n Hn; cbn [take].
  - rewrite strlen_nil. lia.
  - pose proof (strlen_nonneg s). rewrite strlen_cons.
    destruct (Z.leb_spec n 0).
    + rewrite strlen_nil. lia.
    + rewrite strlen_cons, IH by lia. lia.
Qed.

Lemma take_app_le (n : Z) (a b : string) : n <= strlen a -> take n (a ++ b) = take n a.
Proof.
  revert n. induction a as [|c a IH]; intros n Hn; cbn [append take].
  - rewrite strlen_nil in Hn. now rewrite take_nonpos.
  - rewrite strlen_cons in Hn.
    destruct (Z.leb_spec n 0); [reflexivity|].
    rewrite IH by lia. reflexivity.
Qed.

Lemma take_app_exact (a b : string) : take (strlen a) (a ++ b) = a.
Proof. rewrite take_app_le by lia. apply take_all. lia. Qed.

Lemma take_take (n : Z) (s : string) : take n (take n s) = take n s.
Proof.
  destruct (Z.le_gt_cases 0 n).
  - apply take_all. now apply strlen_take_le.
  - now rewrite !take_nonpos by lia.
Qed.

Lemma drop_app_exact (a b : string) (n : Z) : n = strlen a -> drop n (a ++ b) = b.
Proof.
  revert n. induction a as [|c a IH]; intros n ->; cbn [append].
  - destruct b; reflexivity.
  - cbn [drop]. rewrite strlen_cons. pose proof (strlen_nonneg a).
    destruct (Z.leb_spec (1 + strlen a) 0); [lia|].
    apply IH. lia.
Qed.

Lemma strchr_app (u rest : string) (c : ascii) :
  strchr u c = None -> strchr (u ++ String c rest) c = Some (strlen u).
Proof.
  induction u as [|d u IH]; cbn [append strchr].
  - intros _. now rewrite Ascii.eqb_refl.
  - destruct (Ascii.eqb d c); [discriminate|].
    destruct (strchr u c); [discriminate|]. intros _.
    rewrite IH by reflexivity. cbn [option_map]. rewrite strlen_cons. f_equal. lia.
Qed.

Lemma prefix_app (n rest : string) : String.prefix n (n ++ rest) = true.
Proof.
  induction n as [|c n IH]; cbn [append String.prefix].
  - destruct rest; reflexivity.
  - destruct (ascii_dec c c); [exact IH | congruence].
Qed.

(** A needle that occurs is found. *)
Lemma strstr_occurs (a n b : string) : exists i, strstr (a ++ n ++ b) n = Some i.
Proof.
  induction a as [|c a [i IH]].
  - exists 0. cbn [append]. destruct (n ++ b) eqn:E.
    + cbn [strstr]. destruct n; [reflexivity | discriminate].
    + cbn [strstr]. rewrite <- E, prefix_app. reflexivity.
  - cbn [append strstr]. destruct (String.prefix n (String c (a ++ n ++ b))).
    + now exists 0.
    + rewrite IH. now exists (Z.succ i).
Qed.

End CStrFacts.

(** ** [parse_target] *)

Section ParseTarget.

Context {W : Type} `{OS W}.

(** C8, as the code has it.  A token [u@h] whose [u] has no ['@'] is split
    at that first ['@'] into the user [u] and the host [h], each cut to
    the 255 characters its field holds; a token [t] without ['@'] becomes
    the host, cut to 255 characters, and the user is the value of
    [USERNAME], cut to 255 characters, or ["user"] when the variable is
    not set. *)
Theorem parse_target_split (u h t : string) (opts : Options) (w : W) :
  strchr u "@" = None ->
  strchr t "@" = None ->
  parse_target (u ++ "@" ++ h) opts w
    = ((0, set_host (set_user opts (take 255 u)) (take 255 h)), w, [])
  /\ parse_target t opts w
    = ((0, set_host
             (set_user opts match os_getenv "USERNAME" w with
                            | Some v => take 255 v
                            | None => "user"
                            end)
             (take 255 t)), w, []).
Proof.
  intros Hu Ht. split.
  - unfold parse_target. cbn [append].
    rewrite (strchr_app u h "@" Hu).
    assert (Hd : drop (strlen u + 1) (u ++ String "@" h) = h).
    { replace (u ++ String "@" h) with ((u ++ "@") ++ h)
        by (rewrite sapp_assoc; reflexivity).
      apply drop_app_exact. rewrite strlen_app. reflexivity. }
    rewrite Hd.
    assert (Hu' : take (if strlen u >=? USER_SIZE then USER_SIZE - 1 else strlen u)
                       (u ++ String "@" h) = take 255 u).
    { unfold USER_SIZE. destruct (Z.geb_spec (strlen u) 256) as [Hge|Hlt].
      - apply take_app_le. lia.
      - rewrite take_app_exact. symmetry. apply take_all. lia. }
    rewrite Hu'. reflexivity.
  - unfold parse_target. rewrite Ht. unfold bind, getenv, ret. cbn.
    destruct (os_getenv "USERNAME" w); reflexivity.
Qed.

(** C10.  A token without ['@'] and no [USERNAME] in the environment:
    [parse_target] returns 0 and the user is the literal ["user"]. *)
Theorem parse_target_default_user (t : string) (opts : Options) (w : W) :
  strchr t "@" = None ->
  os_getenv "USERNAME" w = None ->
  fst (result_of (parse_target t opts w)) = 0
  /\ user (snd (result_of (parse_target t opts w))) = "user".
Proof.
  intros Ht Henv. unfold parse_target. rewrite Ht.
  unfold bind, getenv, ret, result_of. rewrite Henv. cbn. split; reflexivity.
Qed.

End ParseTarget.

Lemma parse_target_split_witness :
  strchr "alice" "@" = None /\ strchr "box" "@" = None
  /\ parse_target "alice@box" opts_init Demo.w_fresh
       = ((0, Demo.alice_box), Demo.w_fresh, [])
  /\ parse_target "box" opts_init Demo.w_fresh
       = ((0, set_host (set_user opts_init "me") "box"), Demo.w_fresh, []).
Proof.
  split; [reflexivity|]. split; [reflexivity|].
  exact (parse_target_split "alice" "box" "box" opts_init Demo.w_fresh eq_refl eq_refl).
Defined.

Lemma parse_target_default_user_witness :
  strchr "box" "@" = None
  /\ os_getenv "USERNAME" Demo.w_no_username = None
  /\ fst (result_of (parse_target "box" opts_init Demo.w_no_username)) = 0
  /\ user (snd (result_of (parse_target "box" opts_init Demo.w_no_username))) = "user".
Proof.
  split; [reflexivity|]. split; [reflexivity|].
  exact (parse_target_default_user "box" opts_init Demo.w_no_username eq_refl eq_refl).
Defined.

Lemma strlen_replicate (n : nat) (c : ascii) : strlen (replicate n c) = Z.of_nat n.
Proof.
  induction n as [|n IH]; [reflexivity|].
  cbn [replicate]. rewrite strlen_cons, IH. lia.
Qed.

(** C8 as stated fails on a long user part: of 256 characters before the
    ['@'] only 255 reach the user field. *)
Lemma parse_target_long_user_counterexample :
  user (snd (result_of
               (parse_target (replicate 256 "a" ++ "@box") opts_init Demo.w_fresh)))
  <> replicate 256 "a".
Proof.
  intros E. apply (f_equal strlen) in E.
  vm_compute in E. discriminate E.
Qed.

(** ** The escaping loop of [copy_key_to_server] *)

Section Escape.

(** With room for the whole escaped text and the spare byte the loop keeps,
    the loop writes the escaped text. *)
Lemma escape_loop_exact (s : string) (remaining : Z) :
  strlen (quote_escape s) < remaining ->
  escape_loop s remaining = quote_escape s.
Proof.
  revert remaining. induction s as [|c s IH]; intros r Hr; [reflexivity|].
  cbn [escape_loop quote_escape] in *.
  pose proof (strlen_nonneg (quote_escape s)) as Hpos.
  destruct (Ascii.eqb c "'").
  - change ("'\''" ++ quote_escape s)
      with (String "'" (String "\" (String "'" (String "'" (quote_escape s))))) in Hr.
    rewrite !strlen_cons in Hr.
    destruct (Z.gtb_spec r 1); [|lia].
    destruct (Z.geb_spec r 5); [|lia].
    rewrite IH by lia. reflexivity.
  - rewrite strlen_cons in Hr.
    destruct (Z.gtb_spec r 1); [|lia].
    rewrite IH by lia. reflexivity.
Qed.

(** The loop never writes more than [remaining - 1] characters. *)
Lemma escape_loop_bound (s : string) (remaining : Z) :
  1 <= remaining -> strlen (escape_loop s remaining) <= remaining - 1.
Proof.
  revert remaining. induction s as [|c s IH]; intros r Hr; cbn [escape_loop].
  - rewrite strlen_nil. lia.
  - destruct (Z.gtb_spec r 1); [|rewrite strlen_nil; lia].
    destruct (Ascii.eqb c "'").
    + destruct (Z.geb_spec r 5).
      * change ("'\''" ++ escape_loop s (r - 4))
          with (String "'" (String "\" (String "'" (String "'" (escape_loop s (r - 4)))))).
        rewrite !strlen_cons. specialize (IH (r - 4)). lia.
      * apply IH. lia.
    + rewrite strlen_cons. specialize (IH (r - 1)). lia.
Qed.

(** The shell reads the quoted escaped text back as the text. *)
Lemma word_quote_escape (s rest : string) :
  rest = EmptyString \/ (exists c r, rest = String c r /\ is_blank c = true) ->
  Sh.word true (quote_escape s ++ String "'" rest) = Some (s, rest).
Proof.
  intros Hrest. induction s as [|c s IH].
  - cbn. destruct Hrest as [-> | (d & r & -> & Hd)]; [reflexivity|].
    cbn. destruct (Ascii.eqb d "'") eqn:E1.
    { apply Ascii.eqb_eq in E1. subst d. discriminate Hd. }
    destruct (Ascii.eqb d "\") eqn:E2.
    { apply Ascii.eqb_eq in E2. subst d. discriminate Hd. }
    rewrite Hd. reflexivity.
  - cbn [quote_escape]. destruct (Ascii.eqb c "'") eqn:E.
    + apply Ascii.eqb_eq in E. subst c.
      change (("'\''" ++ quote_escape s) ++ String "'" rest)
        with (String "'" (String "\" (String "'" (String "'"
                (quote_escape s ++ String "'" rest))))).
      cbn [Sh.word Ascii.eqb Bool.eqb]. cbn.
      cbn in IH. rewrite IH. reflexivity.
    + cbn [append Sh.word]. rewrite E. rewrite IH. reflexivity.
Qed.

(** The bound is the exact one: beyond it the loop does not write the
    escaped text. *)
Lemma escape_key_exact_iff (key : string) :
  escape_key key = quote_escape key <-> strlen (quote_escape key) <= MAX_KEY_SIZE - 2.
Proof.
  split.
  - intros E. rewrite <- E. unfold escape_key.
    pose proof (escape_loop_bound key (MAX_KEY_SIZE - 1)) as B.
    unfold MAX_KEY_SIZE in *. lia.
  - intros Hlen. unfold escape_key. apply escape_loop_exact.
    unfold MAX_KEY_SIZE in *. lia.
Qed.

Lemma quote_escape_replicate_a (n : nat) :
  quote_escape (replicate n "a") = replicate n "a".
Proof. induction n as [|n IH]; [reflexivity|]. cbn. cbn in IH. now rewrite IH. Qed.

End Escape.

(** C1 as stated fails on a key that fills [key_content]: of 65535
    characters the escaping loop keeps 65534. *)
Lemma escape_key_full_buffer_counterexample :
  escape_key (replicate (Z.to_nat 65535) "a")
  <> quote_escape (replicate (Z.to_nat 65535) "a").
Proof.
  intros E. apply (f_equal strlen) in E.
  rewrite quote_escape_replicate_a, strlen_replicate in E.
  pose proof (escape_loop_bound (replicate (Z.to_nat 65535) "a") (MAX_KEY_SIZE - 1)) as B.
  unfold escape_key in E. unfold MAX_KEY_SIZE in *. lia.
Qed.

(** ** [get_public_key_path] *)

Section KeyPath.

Context {W : Type} `{OS W}.

Lemma usub_small (a b : Z) : 0 <= a - b < size_max -> usub a b = a - b.
Proof. intros Hab. unfold usub. now apply Z.mod_small. Qed.

Lemma nonempty_true (s : string) : s <> EmptyString -> nonempty s = true.
Proof. destruct s; [congruence | reflexivity]. Qed.

Lemma get_public_key_path_eq (opts : Options) (size : Z) (w : W) :
  get_public_key_path opts size w
  = ((0, key_path_of (option_map (take 4095) (os_getenv "USERPROFILE" w)) opts size),
     w, []).
Proof. reflexivity. Qed.

(** C4, as the code has it.  With no explicit key file and an identity file
    of at most 4095 characters: a path of at most 4091 characters in which
    [".pub"] does not occur gets exactly one [".pub"] appended, and a path
    that ends in [".pub"] gets nothing appended; in both cases a leading
    ['~'] is then replaced by the home directory ([USERPROFILE], nothing
    when it is not set) and the result cut to 4095 characters, and a path
    that does not start with ['~'] is returned as it stands. *)
Theorem get_public_key_path_pub_suffix (opts : Options) (w : W) :
  key_file opts = EmptyString ->
  identity_file opts <> EmptyString ->
  strlen (identity_file opts) <= 4095 ->
  let home := match os_getenv "USERPROFILE" w with
              | Some h => take 4095 h
              | None => EmptyString
              end in
  let expand := fun q => if first_is "~" q then take 4095 (home ++ drop 1 q) else q in
  (strstr (identity_file opts) ".pub" = None ->
   strlen (identity_file opts) <= 4091 ->
   get_public_key_path opts MAX_PATH_LEN w
     = ((0, expand (identity_file opts ++ ".pub")), w, []))
  /\ ((exists q, identity_file opts = q ++ ".pub") ->
      get_public_key_path opts MAX_PATH_LEN w = ((0, expand (identity_file opts)), w, [])).
Proof.
  intros Hkf Hid Hlen home expand.
  assert (Hrun : forall kp,
             (if nonempty (identity_file opts) then
                match strstr (identity_file opts) ".pub" with
                | None => identity_file opts
                          ++ take (usub (usub MAX_PATH_LEN (strlen (identity_file opts))) 1)
                               ".pub"
                | Some _ => identity_file opts
                end
              else EmptyString) = kp ->
             get_public_key_path opts MAX_PATH_LEN w = ((0, expand kp), w, [])).
  { intros kp Hkp. rewrite get_public_key_path_eq. do 3 f_equal.
    unfold key_path_of. rewrite Hkf. cbn [nonempty].
    rewrite (nonempty_true _ Hid) in *. cbv zeta.
    change (usub MAX_PATH_LEN 1) with 4095. change (MAX_PATH_LEN - 1) with 4095.
    rewrite (take_all 4095 (identity_file opts) Hlen), Hkp.
    subst expand home. cbv beta.
    destruct (first_is "~" kp); [|reflexivity].
    rewrite take_take. destruct (os_getenv "USERPROFILE" w); reflexivity. }
  rewrite (nonempty_true _ Hid) in Hrun.
  split.
  - intros Hno Hshort. apply Hrun. rewrite Hno. f_equal.
    pose proof (strlen_nonneg (identity_file opts)).
    unfold MAX_PATH_LEN.
    rewrite (usub_small 4096) by (unfold size_max; lia).
    rewrite usub_small by (unfold size_max; lia).
    apply take_all. change (strlen ".pub") with 4. lia.
  - intros [q Hq]. apply Hrun.
    destruct (strstr_occurs q ".pub" EmptyString) as [i Hi].
    rewrite Hq. change (".pub" ++ EmptyString) with ".pub" in Hi. rewrite Hi.
    reflexivity.
Qed.

(** The path that [get_public_key_path] returns fits its buffer. *)
Lemma key_path_of_fits (home_dir : option string) (opts : Options) :
  strlen (key_path_of home_dir opts MAX_PATH_LEN) <= 4095.
Proof.
  unfold key_path_of.
  change (usub MAX_PATH_LEN 1) with 4095. change (MAX_PATH_LEN - 1) with 4095.
  match goal with
  | |- context [if first_is "~" ?kp then _ else _] =>
      set (key_path := kp);
      assert (Hkp : strlen key_path <= 4095)
  end.
  { subst key_path. destruct (nonempty (key_file opts)).
    - apply strlen_take_le. lia.
    - destruct (nonempty (identity_file opts)).
      + cbv zeta.
        pose proof (strlen_take_le 4095 (identity_file opts)) as Hle.
        pose proof (strlen_nonneg (take 4095 (identity_file opts))) as Hge.
        destruct (strstr (take 4095 (identity_file opts)) ".pub"); [lia|].
        rewrite strlen_app. unfold MAX_PATH_LEN.
        rewrite (usub_small 4096) by (unfold size_max; lia).
        rewrite usub_small by (unfold size_max; lia).
        pose proof (strlen_take_le (4096 - strlen (take 4095 (identity_file opts)) - 1)
                      ".pub"). lia.
      + apply strlen_take_le. lia. }
  destruct (first_is "~" key_path); cbv zeta.
  - apply strlen_take_le. lia.
  - exact Hkp.
Qed.

End KeyPath.

Lemma get_public_key_path_pub_suffix_witness :
  let opts := set_identity_file opts_init "C:\keys\id_ed25519" in
  key_file opts = EmptyString
  /\ identity_file opts <> EmptyString
  /\ strlen (identity_file opts) <= 4095
  /\ strstr (identity_file opts) ".pub" = None
  /\ strlen (identity_file opts) <= 4091
  /\ get_public_key_path opts MAX_PATH_LEN Demo.w_fresh
     = ((0, "C:\keys\id_ed25519.pub"), Demo.w_fresh, []).
Proof.
  intros opts.
  split; [reflexivity|]. split; [discriminate|]. split; [vm_compute; discriminate|].
  split; [reflexivity|]. split; [vm_compute; discriminate|].
  exact (proj1 (get_public_key_path_pub_suffix opts Demo.w_fresh eq_refl
                  ltac:(discriminate) ltac:(vm_compute; discriminate))
           eq_refl ltac:(vm_compute; discriminate)).
Defined.

(** C4 as stated fails on a path that fills the identity-file field: no
    room is left in [key_path] and nothing is appended. *)
Lemma get_public_key_path_full_buffer_counterexample :
  let p := replicate 4095 "a" in
  p <> EmptyString
  /\ strstr p ".pub" = None
  /\ snd (result_of (get_public_key_path (set_identity_file opts_init p)
                       MAX_PATH_LEN Demo.w_fresh)) <> p ++ ".pub".
Proof.
  split; [discriminate|]. split; [vm_compute; reflexivity|].
  intros E. apply (f_equal strlen) in E. vm_compute in E. discriminate E.
Qed.

(** The test for the suffix is [strstr], which also finds [".pub"] inside
    the path: such a path is returned without a suffix. *)
Lemma get_public_key_path_pub_inside :
  get_public_key_path (set_identity_file opts_init "C:\keys.pub\id_ed25519")
    MAX_PATH_LEN Demo.w_fresh
  = ((0, "C:\keys.pub\id_ed25519"), Demo.w_fresh, []).
Proof. reflexivity. Qed.

(** ** [parse_args] *)

Section ParseArgs.

Context {W : Type} `{OS W}.

Lemma print_help_eq (prog : string) (w : W) :
  print_help prog w = (tt, w, map Out (help_text prog)).
Proof. reflexivity. Qed.

Lemma parse_target_pure (a : string) (opts : Options) (w : W) :
  exists o, parse_target a opts w = ((0, o), w, []).
Proof.
  unfold parse_target. destruct (strchr a "@").
  - eexists. reflexivity.
  - unfold bind, getenv, ret. cbn. eexists. reflexivity.
Qed.

Lemma parse_args_from_shape (prog : string) (n : nat) :
  forall (args : list string) (opts : Options) (tf : bool) (w : W),
    (length args <= n)%nat ->
    parse_shape prog w (parse_args_from prog args opts tf w).
Proof.
  induction n as [|n IH]; intros args opts tf w Hlen.
  - destruct args; [|cbn in Hlen; lia].
    cbn [parse_args_from].
    destruct (negb tf && negb (nonempty (host opts))).
    + split; [reflexivity|]. right. split; [reflexivity|].
      eexists. split; [reflexivity|]. now left.
    + split; [reflexivity|]. left. split; reflexivity.
  - destruct args as [|a rest].
    { apply IH. cbn. lia. }
    cbn [length] in Hlen. cbn [parse_args_from].
    assert (Hrest : (length rest <= n)%nat) by lia.
    assert (Hopt : forall (f : string -> Options),
               parse_shape prog w
                 (match rest with
                  | v :: rest' => parse_args_from prog rest' (f v) tf
                  | [] => parse_args_from prog rest opts tf
                  end w)).
    { intros f. destruct rest as [|v rest'].
      - apply IH. exact Hrest.
      - apply IH. cbn in Hrest. lia. }
    destruct (streq a "-h" || streq a "--help").
    { split; [reflexivity|]. split; reflexivity. }
    destruct (streq a "-i" || streq a "--identity_file").
    { exact (Hopt (fun v => set_identity_file opts (take (MAX_PATH_LEN - 1) v))). }
    destruct (streq a "-p" || streq a "--port").
    { exact (Hopt (fun v => set_port opts (atoi v))). }
    destruct (streq a "-f" || streq a "--force"); [now apply IH|].
    destruct (streq a "-n" || streq a "--dry_run"); [now apply IH|].
    destruct (streq a "-q" || streq a "--quiet"); [now apply IH|].
    destruct (streq a "-o" || streq a "--ssh_options").
    { exact (Hopt (fun v => set_ssh_options opts (take (SSH_OPTIONS_SIZE - 1) v))). }
    destruct (streq a "-F" || streq a "--ssh_config").
    { exact (Hopt (fun v => set_ssh_config opts (take (MAX_PATH_LEN - 1) v))). }
    destruct (negb (first_is "-" a) && negb tf).
    + unfold bind. destruct (parse_target_pure a opts w) as [o ->].
      specialize (IH rest o true w Hrest). cbn [snd].
      destruct (parse_args_from prog rest o true w) as [[p w1] t1].
      exact IH.
    + split; [reflexivity|]. right. split; [reflexivity|].
      eexists. split; [reflexivity|]. right. now exists a.
Qed.

Lemma parse_args_shape (prog : string) (args : list string) (w : W) :
  parse_shape prog w (parse_args prog args w).
Proof. apply (parse_args_from_shape prog (length args)). lia. Qed.

End ParseArgs.

(** ** Every run is one of the listed paths *)

Section RunsFacts.

Context {W : Type} `{OS W}.

Lemma copy_key_to_server_runs (opts : Options) (key : string) (w : W) :
  copy_run opts key w
    (result_of (copy_key_to_server opts key w))
    (world_of (copy_key_to_server opts key w))
    (trace_of (copy_key_to_server opts key w)).
Proof.
  unfold copy_key_to_server, bind, printf, system, popen_read, ret.
  destruct (os_system (mkdir_cmd opts) w) as [rm w1] eqn:E1.
  destruct (force opts) eqn:F.
  - destruct (os_system (append_cmd opts key) w1) as [r w2] eqn:E2.
    cbn. eapply CopyForced; eassumption.
  - destruct (os_popen (check_cmd opts) w1) as [fp w2] eqn:E2.
    destruct fp as [output|].
    + destruct (key_in output key) eqn:K.
      * cbn. eapply CopyPresent; eassumption.
      * destruct (os_system (append_cmd opts key) w2) as [r w3] eqn:E3.
        cbn. eapply CopyAppended; try eassumption.
        intros o [= <-]. exact K.
    + destruct (os_system (append_cmd opts key) w2) as [r w3] eqn:E3.
      cbn. eapply CopyAppended; try eassumption.
      intros o [=].
Qed.

Lemma check_ssh_installed_eq (w : W) :
  check_ssh_installed w
  = (fst (os_system where_cmd w) =? 0, snd (os_system where_cmd w),
     [Call AtWhere where_cmd (fst (os_system where_cmd w))]).
Proof.
  unfold check_ssh_installed, bind, system, ret.
  change (snprintf MAX_CMD_LEN "where ssh >nul 2>&1") with where_cmd.
  destruct (os_system where_cmd w) as [r w1]. reflexivity.
Qed.

Lemma take_empty_iff (n : Z) (s : string) :
  0 < n -> (strlen (take n s) =? 0) = negb (nonempty s).
Proof.
  intros Hn. destruct s as [|c s]; [reflexivity|].
  cbn [take nonempty negb]. destruct (Z.leb_spec n 0); [lia|].
  rewrite strlen_cons. pose proof (strlen_nonneg (take (n - 1) s)).
  apply Z.eqb_neq. lia.
Qed.

Lemma read_public_key_eq (key_path : string) (w : W) :
  read_public_key key_path MAX_KEY_SIZE w
  = (match os_read key_path w with
     | Some (String c f) => (0, key_of_file (String c f))
     | _ => (-1, EmptyString)
     end, w, [Read key_path (os_read key_path w)]).
Proof.
  unfold read_public_key, bind, fopen_read, ret.
  change (usub MAX_KEY_SIZE 1) with 65535.
  destruct (os_read key_path w) as [file|]; [|reflexivity].
  rewrite take_empty_iff by lia.
  destruct file; reflexivity.
Qed.

Lemma header_eq (opts : Options) (key_path : string) (w : W) :
  (if negb (quiet opts) then
     printf ("Copying key: " ++ key_path ++ nl) ;;
     printf ("To server: " ++ user opts ++ "@" ++ host opts) ;;
     (if custom_port opts then printf (":" ++ dec (port opts)) else ret tt) ;;
     printf nl
   else ret tt) w = (tt, w, header opts key_path).
Proof.
  unfold header. destruct (quiet opts); [reflexivity|].
  destruct (custom_port opts); reflexivity.
Qed.

Lemma testing_eq (opts : Options) (w : W) :
  (if negb (quiet opts) then printf testing_msg else ret tt) w = (tt, w, testing opts).
Proof. unfold testing. destruct (quiet opts); reflexivity. Qed.

End RunsFacts.

Section MainRuns.
Context {W : Type} `{OS W}.

Lemma bind_inv {A B : Type} (m : M W A) (k : A -> M W B) (w : W)
      (b : B) (w2 : W) (t : list event) :
  bind m k w = (b, w2, t) ->
  exists a w1 t1 t2, m w = (a, w1, t1) /\ k a w1 = (b, w2, t2) /\ t = (t1 ++ t2)%list.
Proof.
  unfold bind. destruct (m w) as [[a w1] t1].
  destruct (k a w1) as [[b' w2'] t2] eqn:Ek.
  intros [= <- <- <-]. now exists a, w1, t1, t2.
Qed.

Lemma key_path_take (opts : Options) (w : W) :
  take (MAX_PATH_LEN - 1) (key_path_in opts w) = key_path_in opts w.
Proof. apply take_all. apply key_path_of_fits. Qed.

Ltac bind_step H Hm :=
  apply bind_inv in H; destruct H as (? & ? & ? & ? & Hm & H & ->).

Lemma main_runs_aux (prog : string) (args : list string) (w : W)
      (r : Z) (w' : W) (t : list event) :
  main prog args w = (r, w', t) -> main_run prog args w r w' t.
Proof.
  unfold main. intros Hmain. bind_step Hmain Hp.
  destruct (parse_args_shape prog args w) as [Hw Hs].
  rewrite Hp in Hw, Hs. cbn [result_of world_of trace_of fst snd] in Hw, Hs. subst.
  destruct x as [code | rc opts].
  - destruct Hs as [-> ->]. injection Hmain as <- <- <-.
    rewrite List.app_nil_r. apply RunHelp. exact Hp.
  - destruct Hs as [[-> ->] | [-> (msg & -> & Hmsg)]].
    2: { injection Hmain as <- <- <-. rewrite List.app_nil_r. eapply RunBadArgs; eauto. }
    change (negb (0 =? 0)) with false in Hmain. cbv iota in Hmain.
    bind_step Hmain Hc. rewrite check_ssh_installed_eq in Hc.
    destruct (os_system where_cmd w) as [r0 w1] eqn:E0.
    cbn [fst snd] in Hc. injection Hc as <- <- <-.
    destruct (Z.eqb_spec r0 0) as [->|Hr0].
    2: { injection Hmain as <- <- <-. eapply RunNoClient; eauto. }
    cbn [negb] in Hmain.
    bind_step Hmain Hk. rewrite get_public_key_path_eq in Hk.
    injection Hk as <- <- <-. cbn [snd] in Hmain.
    change (key_path_of _ opts MAX_PATH_LEN) with (key_path_in opts w1) in Hmain.
    bind_step Hmain Hh. rewrite header_eq in Hh. injection Hh as <- <- <-.
    destruct (dry_run opts) eqn:D.
    { injection Hmain as <- <- <-. eapply RunDry; eauto. }
    bind_step Hmain Hr. rewrite read_public_key_eq in Hr. injection Hr as <- <- <-.
    rewrite key_path_take in Hmain.
    cbn [app]. set (key_path := key_path_in opts w1) in *.
    destruct (os_read key_path w1) as [[|c f]|] eqn:R.
    1, 3: cbn [fst negb Z.eqb] in Hmain;
      cbv beta iota zeta delta [bind eprintf file_exists ret] in Hmain;
      destruct (os_stat (cut_at_pub key_path) w1) eqn:S;
      injection Hmain as <- <- <-;
      pose proof (RunNoKey prog args w opts w1 Hp E0 D) as Hrun;
      cbv zeta in Hrun; fold key_path in Hrun;
      rewrite R, S in Hrun; apply Hrun; unfold unreadable; auto.
    cbn [fst snd negb Z.eqb] in Hmain.
    bind_step Hmain Ht. rewrite testing_eq in Ht. injection Ht as <- <- <-.
    bind_step Hmain Hc. unfold run_ssh_command, system in Hc.
    destruct (os_system (run_ssh_line opts "exit 0") w1) as [rt w2] eqn:E1.
    injection Hc as <- <- <-.
    destruct (Z.eqb_spec rt 0) as [->|Hrt].
    2: { cbn [negb] in Hmain. cbv beta iota zeta delta [bind eprintf ret] in Hmain.
         injection Hmain as <- <- <-.
         eapply (RunNoConnection prog args w opts w1 (String c f) rt w2); eauto.
         discriminate. }
    cbn [negb] in Hmain.
    bind_step Hmain Hcopy.
    pose proof (copy_key_to_server_runs opts (key_of_file (String c f)) w2) as Hcr.
    rewrite Hcopy in Hcr. cbn [result_of world_of trace_of fst snd] in Hcr.
    rename x into rc, x0 into w3, x1 into tc.
    destruct (Z.eqb_spec rc 0) as [->|Hrc].
    2: { cbv beta iota zeta delta [bind eprintf ret] in Hmain.
         injection Hmain as <- <- <-.
         eapply (RunCopyFailed prog args w opts w1 (String c f) w2 rc w3 tc); eauto.
         discriminate. }
    destruct (quiet opts) eqn:Q.
    { cbn [negb] in Hmain. cbv beta iota zeta delta [bind ret] in Hmain.
      injection Hmain as <- <- <-. rewrite List.app_nil_r.
      eapply (RunCopiedQuiet prog args w opts w1 (String c f) w2 w3 tc); eauto.
      discriminate. }
    cbn [negb] in Hmain.
    unfold test_connection in Hmain.
    cbv beta iota zeta delta [bind printf ret system get_public_key_path get_home_dir getenv]
      in Hmain.
    cbn [snd app] in Hmain.
    change (key_path_of _ opts MAX_PATH_LEN) with (key_path_in opts w3) in Hmain.
    destruct (os_system (test_key_line opts (cut_at_pub (key_path_in opts w3))) w3)
      as [rk w4] eqn:E4.
    destruct (rk =? 0) eqn:K; injection Hmain as <- <- <-.
    all: pose proof (RunCopied prog args w opts w1 (String c f) w2 w3 tc rk w4
                       Hp E0 D R ltac:(discriminate) E1 Hcr Q E4) as Hrun;
      cbv zeta in Hrun; rewrite K in Hrun; exact Hrun.
Qed.

Lemma main_runs (prog : string) (args : list string) (w : W) :
  main_run prog args w
    (result_of (main prog args w)) (world_of (main prog args w))
    (trace_of (main prog args w)).
Proof.
  apply main_runs_aux. destruct (main prog args w) as [[r w'] t]. reflexivity.
Qed.

End MainRuns.

(** ** Runs that stop before any remote call *)

Section LocalRuns.

Context {W : Type} `{OS W}.

Lemma header_local (opts : Options) (key_path : string) : local (header opts key_path).
Proof.
  unfold header, local. destruct (quiet opts); [constructor|].
  destruct (custom_port opts); repeat constructor.
Qed.

Lemma local_app (t1 t2 : list event) : local t1 -> local t2 -> local (t1 ++ t2).
Proof. intros H1 H2. apply Forall_app. now split. Qed.

Lemma cut_at_pub_suffix (p : string) :
  strstr (p ++ ".pub") ".pub" = Some (strlen p) -> cut_at_pub (p ++ ".pub") = p.
Proof. intros E. unfold cut_at_pub. rewrite E. apply take_app_exact. Qed.

Ltac parse_clash Hparse :=
  match goal with
  | Hp : parse_args _ _ _ = _ |- _ =>
      rewrite Hp in Hparse; cbn [result_of fst] in Hparse;
      first [discriminate Hparse | injection Hparse as ->]
  end.

Lemma header_reads_nothing (opts : Options) (key_path p : string) (b : option string) :
  ~ In (Read p b) (header opts key_path).
Proof.
  unfold header. destruct (quiet opts); [intros []|].
  destruct (custom_port opts); cbn [app In];
    intros Hin; repeat destruct Hin as [E|Hin]; try discriminate E; destruct Hin.
Qed.

(** C3, as the code has it.  When the arguments parse (a target was given,
    no unknown option, no help flag), [dry_run] is set and the search for
    the ssh client succeeds, [main] returns 0, its trace has no remote
    call (no [system] call other than the search for the client, and no
    pipe), and the key file is not read.  Neither [force] nor the key file
    plays a part. *)
Theorem dry_run_is_local (prog : string) (args : list string) (w : W) (opts : Options) :
  result_of (parse_args prog args w) = PRet 0 opts ->
  dry_run opts = true ->
  fst (os_system where_cmd w) = 0 ->
  result_of (main prog args w) = 0
  /\ local (trace_of (main prog args w))
  /\ forall p b, ~ In (Read p b) (trace_of (main prog args w)).
Proof.
  intros Hparse Hdry Hwhere.
  destruct (main prog args w) as [[r w'] t] eqn:Hm.
  apply main_runs_aux in Hm. cbn [result_of trace_of fst snd].
  destruct Hm; try parse_clash Hparse; try congruence.
  - (* no client *)
    match goal with E : os_system where_cmd w = _ |- _ => rewrite E in Hwhere end.
    cbn in Hwhere. congruence.
  - (* dry run *)
    split; [reflexivity|]. split.
    + constructor; [reflexivity|].
      apply local_app; [apply header_local | repeat constructor].
    + intros p b [E|Hin]; [discriminate E|].
      apply in_app_or in Hin. destruct Hin as [Hin|[E|[]]]; [|discriminate E].
      exact (header_reads_nothing _ _ _ _ Hin).
Qed.

(** C6, as the code has it.  When the arguments parse, [dry_run] is not
    set, the search for the ssh client succeeds, the resolved path is
    [p ++ ".pub"] with no earlier [".pub"] in it, the file at that path
    cannot be opened or is empty, and [p] exists: [main] prints to the error
    stream that the private key [p] was found and the [ssh-keygen] command
    that would generate the public key from it, returns 1, and makes no
    remote call. *)
Theorem missing_key_names_private_key (prog : string) (args : list string) (w : W)
        (opts : Options) (p : string) :
  result_of (parse_args prog args w) = PRet 0 opts ->
  dry_run opts = false ->
  fst (os_system where_cmd w) = 0 ->
  let w1 := snd (os_system where_cmd w) in
  key_path_in opts w1 = p ++ ".pub" ->
  strstr (p ++ ".pub") ".pub" = Some (strlen p) ->
  unreadable (os_read (p ++ ".pub") w1) ->
  os_stat p w1 = true ->
  result_of (main prog args w) = 1
  /\ In (Err (private_found_msg p)) (trace_of (main prog args w))
  /\ In (Err (generate_msg p (p ++ ".pub"))) (trace_of (main prog args w))
  /\ local (trace_of (main prog args w)).
Proof.
  intros Hparse Hdry Hwhere w1 Hpath Hpub Hread Hstat.
  destruct (main prog args w) as [[r w'] t] eqn:Hm.
  apply main_runs_aux in Hm. cbn [result_of trace_of fst snd].
  destruct Hm; try parse_clash Hparse; try congruence;
    match goal with
    | E : os_system where_cmd w = _ |- _ => subst w1; rewrite E in *; cbn [fst snd] in *
    end;
    try congruence.
  2-5: subst key_path; rewrite Hpath in *; destruct Hread; congruence.
  (* the key cannot be read *)
  subst key_path private_key. rewrite Hpath.
  rewrite (cut_at_pub_suffix p Hpub), Hstat.
  split; [reflexivity|].
  split; [right; apply in_or_app; right; cbn [app In]; auto 10|].
  split; [right; apply in_or_app; right; cbn [app In]; auto 10|].
  constructor; [reflexivity|].
  apply local_app; [apply header_local | repeat constructor].
Qed.

End LocalRuns.

Lemma dry_run_is_local_witness :
  result_of (parse_args Demo.prog ["-n"; "alice@box"] Demo.w_fresh) = PRet 0 Demo.alice_box_dry
  /\ dry_run Demo.alice_box_dry = true
  /\ fst (os_system where_cmd Demo.w_fresh) = 0
  /\ result_of (main Demo.prog ["-n"; "alice@box"] Demo.w_fresh) = 0
  /\ local (trace_of (main Demo.prog ["-n"; "alice@box"] Demo.w_fresh))
  /\ forall p b, ~ In (Read p b) (trace_of (main Demo.prog ["-n"; "alice@box"] Demo.w_fresh)).
Proof.
  split; [reflexivity|]. split; [reflexivity|]. split; [reflexivity|].
  exact (dry_run_is_local Demo.prog ["-n"; "alice@box"] Demo.w_fresh Demo.alice_box_dry
           eq_refl eq_refl eq_refl).
Defined.

(** C3 as stated fails when no ssh client is installed: the host is given,
    the key file is readable and [dry_run] is set, and [main] returns 1. *)
Lemma dry_run_without_client_counterexample :
  result_of (parse_args Demo.prog ["-n"; "alice@box"] Demo.w_no_ssh)
    = PRet 0 Demo.alice_box_dry
  /\ dry_run Demo.alice_box_dry = true
  /\ host Demo.alice_box_dry = "box"
  /\ key_path_in Demo.alice_box_dry Demo.w_no_ssh = Demo.pub_path
  /\ os_read Demo.pub_path Demo.w_no_ssh = Some (Demo.key_text ++ nl)
  /\ result_of (main Demo.prog ["-n"; "alice@box"] Demo.w_no_ssh) = 1.
Proof. vm_compute. repeat split. Qed.

Lemma missing_key_names_private_key_witness :
  let w := Demo.w_priv_only in
  let args := ["alice@box"] in
  result_of (parse_args Demo.prog args w) = PRet 0 Demo.alice_box
  /\ dry_run Demo.alice_box = false
  /\ fst (os_system where_cmd w) = 0
  /\ key_path_in Demo.alice_box (snd (os_system where_cmd w)) = Demo.priv_path ++ ".pub"
  /\ strstr (Demo.priv_path ++ ".pub") ".pub" = Some (strlen Demo.priv_path)
  /\ unreadable (os_read (Demo.priv_path ++ ".pub") (snd (os_system where_cmd w)))
  /\ os_stat Demo.priv_path (snd (os_system where_cmd w)) = true
  /\ result_of (main Demo.prog args w) = 1
  /\ In (Err (private_found_msg Demo.priv_path)) (trace_of (main Demo.prog args w))
  /\ In (Err (generate_msg Demo.priv_path (Demo.priv_path ++ ".pub")))
        (trace_of (main Demo.prog args w))
  /\ local (trace_of (main Demo.prog args w)).
Proof.
  intros w args.
  split; [reflexivity|]. split; [reflexivity|]. split; [reflexivity|].
  split; [reflexivity|]. split; [reflexivity|]. split; [left; reflexivity|].
  split; [reflexivity|].
  exact (missing_key_names_private_key Demo.prog args w Demo.alice_box Demo.priv_path
           eq_refl eq_refl eq_refl eq_refl eq_refl (or_introl eq_refl) eq_refl).
Defined.

(** C6 as stated fails when no ssh client is installed: the public key is
    missing, the private key is there, the run is not a dry run, and the
    only error printed is that the client was not found. *)
Lemma missing_key_without_client_counterexample :
  let w := Demo.w_priv_only_no_ssh in
  let args := ["alice@box"] in
  result_of (parse_args Demo.prog args w) = PRet 0 Demo.alice_box
  /\ dry_run Demo.alice_box = false
  /\ key_path_in Demo.alice_box w = Demo.priv_path ++ ".pub"
  /\ os_read (Demo.priv_path ++ ".pub") w = None
  /\ os_stat Demo.priv_path w = true
  /\ trace_of (main Demo.prog args w) = [Call AtWhere where_cmd 1; Err ssh_missing_msg]
  /\ ~ In (Err (private_found_msg Demo.priv_path)) (trace_of (main Demo.prog args w)).
Proof.
  intros w args.
  assert (T : trace_of (main Demo.prog args w)
              = [Call AtWhere where_cmd 1; Err ssh_missing_msg]) by (vm_compute; reflexivity).
  repeat (split; [vm_compute; reflexivity|]).
  rewrite T. intros [E|[E|[]]]; discriminate E.
Qed.

(** ** Quiet mode *)

(** C5 fails on the code.  With [-q], a readable key and a remote that
    accepts every command, the run succeeds and still prints the two
    progress messages of [copy_key_to_server], whose [printf] calls are not
    guarded by [quiet]. *)
Lemma quiet_run_prints_progress :
  let r := main Demo.prog ["-q"; "alice@box"] Demo.w_fresh in
  result_of (parse_args Demo.prog ["-q"; "alice@box"] Demo.w_fresh)
    = PRet 0 Demo.alice_box_quiet
  /\ quiet Demo.alice_box_quiet = true
  /\ result_of r = 0
  /\ filter is_out (trace_of r) = [Out creating_msg; Out adding_msg].
Proof. vm_compute. repeat split. Qed.

(** ** Exit codes *)

Section TraceFacts.

Context {W : Type} `{OS W}.

Lemma header_in (e : event) (opts : Options) (kp : string) :
  In e (header opts kp) -> plain_out e.
Proof.
  unfold header. destruct (quiet opts); [intros []|].
  destruct (custom_port opts); cbn [app In];
    intros Hin; repeat destruct Hin as [<-|Hin]; try destruct Hin;
    eexists; (split; [reflexivity|]); split; discriminate.
Qed.

Lemma help_in (e : event) (prog : string) :
  In e (map Out (help_text prog)) -> plain_out e.
Proof.
  cbn [map help_text In].
  intros Hin; repeat destruct Hin as [<-|Hin]; try destruct Hin;
    eexists; (split; [reflexivity|]); split; discriminate.
Qed.

Lemma testing_in (e : event) (opts : Options) :
  In e (testing opts) -> e = Out testing_msg.
Proof. unfold testing. destruct (quiet opts); [intros []|]. intros [<-|[]]. reflexivity. Qed.

End TraceFacts.

Ltac in_cases :=
  repeat match goal with
    | Hin : In _ (header _ _) |- _ => apply header_in in Hin; destruct Hin as (? & ? & ? & ?)
    | Hin : In _ (map Out (help_text _)) |- _ =>
        apply help_in in Hin; destruct Hin as (? & ? & ? & ?)
    | Hin : In _ (testing _) |- _ => apply testing_in in Hin
    | Hin : In _ (_ ++ _) |- _ => apply in_app_or in Hin; destruct Hin as [Hin|Hin]
    | Hin : In _ (_ :: _) |- _ => destruct Hin as [Hin|Hin]
    | Hin : In _ [] |- _ => destruct Hin
    end.

Ltac clash :=
  match goal with
  | E : _ = _ |- _ => discriminate E
  | E : Out _ = Out _ |- _ => injection E as E; first [discriminate E | congruence]
  | E : Call _ _ _ = Call _ _ _ |- _ => injection E; intros; subst; congruence
  | E : Read _ _ = Read _ _ |- _ =>
      injection E; intros; subst;
      match goal with U : unreadable _ |- _ => destruct U; congruence end
  | _ => congruence
  end.

Ltac find_in :=
  cbn [app];
  lazymatch goal with
  | |- In _ (_ :: _) => first [left; reflexivity | right; find_in]
  | |- In _ (_ ++ _) => apply in_or_app; right; find_in
  end.

Ltac here := cbn [In app]; auto 12.
(** C7 fails on the code.  Two error outcomes of the claim end with exit
    code 0.  A key file that holds one newline is not refused as empty:
    [read_public_key] refuses a file only when [fread] returns no byte,
    before it trims, and does not look at what trimming leaves; the run
    goes on with the empty key, finds it in what the remote returns, prints
    that the key already exists and that it was copied, and returns 0 with
    nothing on the error stream.  A target that ends in ['@'] leaves the
    host empty and is accepted: [parse_args] tests the host only when no
    target was seen, and the dry run returns 0. *)
Lemma blank_key_file_exits_zero :
  let blank := main Demo.prog ["alice@box"] w_blank_key in
  let no_host := main Demo.prog ["-n"; "alice@"] Demo.w_fresh in
  os_read Demo.pub_path w_blank_key = Some nl
  /\ result_of (read_public_key Demo.pub_path MAX_KEY_SIZE w_blank_key) = (0, EmptyString)
  /\ result_of blank = 0
  /\ filter is_err (trace_of blank) = []
  /\ In (Out present_msg) (trace_of blank)
  /\ In (Out copied_msg) (trace_of blank)
  /\ (exists o, result_of (parse_args Demo.prog ["-n"; "alice@"] Demo.w_fresh) = PRet 0 o
                /\ host o = EmptyString)
  /\ result_of no_host = 0
  /\ filter is_err (trace_of no_host) = [].
Proof.
  intros blank no_host.
  split; [reflexivity|]. split; [reflexivity|]. split; [reflexivity|].
  split; [reflexivity|].
  split; [vm_compute; auto 20|]. split; [vm_compute; auto 20|].
  split; [eexists; split; reflexivity|].
  split; reflexivity.
Qed.

(** ** The directory is set up before the key is looked for *)

Section MkdirFirst.

Context {W : Type} `{OS W}.

Lemma strlen_take_le_len (n : Z) (s : string) : strlen (take n s) <= strlen s.
Proof.
  revert n. induction s as [|c s IH]; intros n; cbn [take]; [lia|].
  destruct (n <=? 0).
  - rewrite strlen_nil. apply strlen_nonneg.
  - rewrite !strlen_cons. specialize (IH (n - 1)). lia.
Qed.

Lemma parse_target_fits (a : string) (opts : Options) (w : W) :
  fits opts -> fits (snd (result_of (parse_target a opts w))).
Proof.
  intros (Hu & Hh & Hc). unfold parse_target, fits, USER_SIZE, HOST_SIZE in *.
  destruct (strchr a "@") as [i|].
  - cbn. repeat split; try assumption.
    + destruct (Z.geb_spec i 256).
      * apply strlen_take_le. lia.
      * destruct (Z.le_gt_cases 0 i).
        -- pose proof (strlen_take_le i a). lia.
        -- rewrite take_nonpos by lia. rewrite strlen_nil. lia.
    + apply strlen_take_le. lia.
  - unfold bind, getenv, ret. cbn. destruct (os_getenv "USERNAME" w); cbn.
    + repeat split; try assumption; apply strlen_take_le; lia.
    + repeat split; try assumption; [vm_compute; discriminate|].
      apply strlen_take_le. lia.
Qed.

Lemma parse_args_from_fits (prog : string) (n : nat) :
  forall (args : list string) (opts : Options) (tf : bool) (w : W) (r : Z) (o : Options),
    (length args <= n)%nat ->
    fits opts ->
    result_of (parse_args_from prog args opts tf w) = PRet r o ->
    fits o.
Proof.
  induction n as [|n IH]; intros args opts tf w r o Hlen Hfit.
  - destruct args; [|cbn in Hlen; lia].
    cbn [parse_args_from].
    destruct (negb tf && negb (nonempty (host opts))); intros [= _ <-]; exact Hfit.
  - destruct args as [|a rest].
    { apply IH; [cbn; lia | exact Hfit]. }
    cbn [length] in Hlen. cbn [parse_args_from].
    assert (Hrest : (length rest <= n)%nat) by lia.
    assert (Hopt : forall (f : string -> Options),
               (forall v, fits (f v)) ->
               result_of (match rest with
                          | v :: rest' => parse_args_from prog rest' (f v) tf
                          | [] => parse_args_from prog rest opts tf
                          end w) = PRet r o -> fits o).
    { intros f Hf. destruct rest as [|v rest'].
      - apply IH; [exact Hrest | exact Hfit].
      - apply IH; [cbn in Hrest; lia | apply Hf]. }
    destruct Hfit as (Hu & Hh & Hc).
    destruct (streq a "-h" || streq a "--help"); [discriminate|].
    destruct (streq a "-i" || streq a "--identity_file").
    { apply Hopt. intros v. repeat split; assumption. }
    destruct (streq a "-p" || streq a "--port").
    { apply Hopt. intros v. repeat split; assumption. }
    destruct (streq a "-f" || streq a "--force").
    { apply IH; [exact Hrest | repeat split; assumption]. }
    destruct (streq a "-n" || streq a "--dry_run").
    { apply IH; [exact Hrest | repeat split; assumption]. }
    destruct (streq a "-q" || streq a "--quiet").
    { apply IH; [exact Hrest | repeat split; assumption]. }
    destruct (streq a "-o" || streq a "--ssh_options").
    { apply Hopt. intros v. repeat split; assumption. }
    destruct (streq a "-F" || streq a "--ssh_config").
    { apply Hopt. intros v. repeat split; try assumption.
      cbn. apply strlen_take_le. unfold MAX_PATH_LEN. lia. }
    destruct (negb (first_is "-" a) && negb tf).
    + unfold bind.
      pose proof (parse_target_fits a opts w (conj Hu (conj Hh Hc))) as Hfit'.
      destruct (parse_target_pure a opts w) as [o' E]. rewrite E in *.
      cbn [snd result_of fst] in *.
      intros Hres. apply (IH rest o' true w r o Hrest Hfit').
      destruct (parse_args_from prog rest o' true w) as [[p w1] t1].
      exact Hres.
    + intros [= _ <-]. repeat split; assumption.
Qed.

Lemma parse_args_fits (prog : string) (args : list string) (w : W) (r : Z) (o : Options) :
  result_of (parse_args prog args w) = PRet r o -> fits o.
Proof.
  apply (parse_args_from_fits prog (length args)); [lia|].
  unfold fits, opts_init. cbn. repeat split; discriminate.
Qed.

(** The directory set-up command of a parsed invocation is never cut. *)
Lemma mkdir_cmd_whole (opts : Options) :
  fits opts -> mkdir_cmd opts = ssh_line opts mkdir_remote.
Proof.
  intros (Hu & Hh & Hc). unfold mkdir_cmd, snprintf. apply take_all.
  unfold ssh_line. rewrite !strlen_app.
  assert (Hcfg : strlen (config_str_of opts) <= 4101).
  { unfold config_str_of. destruct (nonempty (ssh_config opts)); [|rewrite strlen_nil; lia].
    unfold snprintf.
    pose proof (strlen_take_le_len (MAX_CMD_LEN - 1)
                  ("-F " ++ dq ++ ssh_config opts ++ dq ++ " ")) as L.
    rewrite !strlen_app in L. unfold MAX_PATH_LEN in Hc.
    change (strlen "-F ") with 3 in L. change (strlen dq) with 1 in L.
    change (strlen " ") with 1 in L. lia. }
  assert (Hport : strlen (port_str_of opts) <= 31).
  { unfold port_str_of.
    destruct ((port opts >? 0) && negb (port opts =? 22)); [|rewrite strlen_nil; lia].
    unfold snprintf. apply strlen_take_le. lia. }
  unfold USER_SIZE, HOST_SIZE, MAX_CMD_LEN in *.
  change (strlen "ssh ") with 4. change (strlen "@") with 1.
  change (strlen " ") with 1. change (strlen dq) with 1.
  change (strlen mkdir_remote) with 35. lia.
Qed.

Lemma header_unchecked (opts : Options) (kp : string) :
  Forall (fun e => is_check_or_append e = false) (header opts kp).
Proof.
  apply Forall_forall. intros e Hin. apply header_in in Hin.
  destruct Hin as (s & -> & _). reflexivity.
Qed.

Lemma testing_unchecked (opts : Options) :
  Forall (fun e => is_check_or_append e = false) (testing opts).
Proof. unfold testing. destruct (quiet opts); repeat constructor. Qed.

(** What the key-copy step adds to the trace starts with the directory
    set-up, and nothing before it in the run is the check or the append. *)
Lemma copy_step_split (opts : Options) (kp file : string) (rm : Z)
      (tc tail rest : list event) :
  fits opts ->
  tc = Out creating_msg :: Call AtMkdir (mkdir_cmd opts) rm :: tail ->
  exists pre post,
    (Call AtWhere where_cmd 0
     :: header opts kp ++ [Read kp (Some file)] ++ testing opts
        ++ [Call AtTestConn (run_ssh_line opts "exit 0") 0] ++ tc ++ rest)%list
    = (pre ++ Call AtMkdir (ssh_line opts mkdir_remote) rm :: post)%list
    /\ Forall (fun e => is_check_or_append e = false) pre.
Proof.
  intros Hfits ->.
  exists (Call AtWhere where_cmd 0
          :: header opts kp ++ [Read kp (Some file)] ++ testing opts
             ++ [Call AtTestConn (run_ssh_line opts "exit 0") 0; Out creating_msg])%list,
         (tail ++ rest)%list.
  split.
  - rewrite <- (mkdir_cmd_whole opts Hfits).
    cbn [app]. f_equal. rewrite <- !List.app_assoc. cbn [app].
    rewrite <- !List.app_assoc. reflexivity.
  - constructor; [reflexivity|].
    apply Forall_app. split; [apply header_unchecked|].
    constructor; [reflexivity|].
    apply Forall_app. split; [apply testing_unchecked|].
    repeat constructor.
Qed.

(** For every environment: in every run in which the connection test
    succeeded (the runs that reach the key-copy step), and so in every run
    that reports the key as already present, the trace has the call of the
    directory set-up command, which is the uncut command line ending in
    ["mkdir -p ~/.ssh && chmod 700 ~/.ssh"], and neither the check for the
    key nor its appending comes before that call. *)
Lemma mkdir_call_precedes_check (prog : string) (args : list string) (w : W) :
  let t := trace_of (main prog args w) in
  (exists cmd, In (Call AtTestConn cmd 0) t) \/ already_present t ->
  exists opts pre rm post,
    result_of (parse_args prog args w) = PRet 0 opts
    /\ t = (pre ++ Call AtMkdir (ssh_line opts mkdir_remote) rm :: post)%list
    /\ Forall (fun e => is_check_or_append e = false) pre.
Proof.
  intros t. subst t. unfold already_present.
  destruct (main prog args w) as [[r w'] t] eqn:Hm.
  apply main_runs_aux in Hm. cbn [result_of trace_of fst snd].
  intros Hreach.
  assert (Hstart : forall opts w1 file tc rm tail,
             parse_args prog args w = (PRet 0 opts, w, []) ->
             tc = Out creating_msg :: Call AtMkdir (mkdir_cmd opts) rm :: tail ->
             forall rest,
             exists opts' pre rm' post,
               result_of (parse_args prog args w) = PRet 0 opts'
               /\ (Call AtWhere where_cmd 0
                   :: header opts (key_path_in opts w1)
                      ++ [Read (key_path_in opts w1) (Some file)] ++ testing opts
                      ++ [Call AtTestConn (run_ssh_line opts "exit 0") 0]
                      ++ tc ++ rest)%list
                  = (pre ++ Call AtMkdir (ssh_line opts' mkdir_remote) rm' :: post)%list
               /\ Forall (fun e => is_check_or_append e = false) pre).
  { intros opts w1 file tc rm tail Hp -> rest.
    exists opts,
      (Call AtWhere where_cmd 0
       :: header opts (key_path_in opts w1)
          ++ [Read (key_path_in opts w1) (Some file)] ++ testing opts
          ++ [Call AtTestConn (run_ssh_line opts "exit 0") 0; Out creating_msg])%list,
      rm, (tail ++ rest)%list.
    split; [rewrite Hp; reflexivity|]. split.
    - rewrite <- (mkdir_cmd_whole opts)
        by (apply (parse_args_fits prog args w 0); rewrite Hp; reflexivity).
      cbn [app]. f_equal. rewrite <- !List.app_assoc. cbn [app].
      rewrite <- !List.app_assoc. reflexivity.
    - constructor; [reflexivity|].
      apply Forall_app. split; [apply header_unchecked|].
      constructor; [reflexivity|].
      apply Forall_app. split; [apply testing_unchecked|].
      repeat constructor. }
  destruct Hm.
  1-6: exfalso; destruct Hreach as [(c & Hin)|Hin];
    try match goal with Hi : context [if ?b then _ else _] |- _ => destruct b end;
    in_cases; clash.
  - match goal with C : copy_run _ _ _ _ _ _ |- _ => destruct C end;
      eapply Hstart; eauto.
  - rewrite <- (List.app_nil_r tc).
    match goal with C : copy_run _ _ _ _ _ _ |- _ => destruct C end;
      eapply Hstart; eauto.
  - match goal with C : copy_run _ _ _ _ _ _ |- _ => destruct C end;
      eapply Hstart; eauto.
Qed.

End MkdirFirst.

(** On the modelled remote, a run that finds the key already present
    leaves the key file as it was and has still changed the mode of
    [~/.ssh], here from 755 to 700. *)
Lemma already_present_run_tightens_directory :
  let r := main Demo.prog ["alice@box"] Demo.w_present in
  Ideal.remote_dir Demo.w_present = Some 493
  /\ result_of r = 0
  /\ already_present (trace_of r)
  /\ ~ key_appended (trace_of r)
  /\ Ideal.remote_keys (world_of r) = Ideal.remote_keys Demo.w_present
  /\ Ideal.remote_dir (world_of r) = Some 448.
Proof.
  intros r. split; [reflexivity|]. split; [reflexivity|].
  split; [unfold already_present; vm_compute; auto 20|].
  split; [|split; reflexivity].
  intros [cmd Hin]. vm_compute in Hin.
  repeat destruct Hin as [Hin|Hin]; try discriminate Hin. exact Hin.
Qed.

(** ** Two runs against the modelled remote *)

Section Tokens.

Import Win.

Lemma split_plain_some (s t rest : string) :
  plain s = true ->
  split_args (s ++ rest) false (Some t) = split_args rest false (Some (t ++ s)).
Proof.
  revert t. induction s as [|c s IH]; intros t Hs.
  - cbn [append]. now rewrite sapp_nil_r.
  - cbn [plain] in Hs. apply andb_prop in Hs. destruct Hs as [Hc Hs].
    apply negb_true_iff in Hc. apply orb_false_elim in Hc. destruct Hc as [Hc Hq].
    cbn [append split_args]. rewrite Hq, Hc. cbn [andb token].
    rewrite IH by exact Hs. rewrite sapp_assoc. reflexivity.
Qed.

Lemma split_plain_none (s rest : string) :
  plain s = true -> s <> EmptyString ->
  split_args (s ++ rest) false None = split_args rest false (Some s).
Proof.
  destruct s as [|c s]; [congruence|]. intros Hs _.
  cbn [plain] in Hs. apply andb_prop in Hs. destruct Hs as [Hc Hs].
  apply negb_true_iff in Hc. apply orb_false_elim in Hc. destruct Hc as [Hc Hq].
  cbn [append split_args]. rewrite Hq, Hc. cbn [andb token append].
  now rewrite split_plain_some.
Qed.

Lemma split_quoted (s t rest : string) :
  no_dq s = true ->
  split_args (s ++ String "034" rest) true (Some t) = split_args rest false (Some (t ++ s)).
Proof.
  revert t. induction s as [|c s IH]; intros t Hs.
  - cbn. now rewrite sapp_nil_r.
  - cbn [no_dq] in Hs. apply andb_prop in Hs. destruct Hs as [Hq Hs].
    apply negb_true_iff in Hq.
    cbn [append split_args]. rewrite Hq. cbn [negb andb token].
    rewrite Bool.andb_false_r.
    rewrite IH by exact Hs. rewrite sapp_assoc. reflexivity.
Qed.

Lemma plain_uint (d : Decimal.uint) : plain (NilEmpty.string_of_uint d) = true.
Proof. induction d; cbn; auto. Qed.

Lemma dec_plain (z : Z) : plain (dec z) = true /\ dec z <> EmptyString.
Proof.
  unfold dec, NilZero.string_of_int, NilZero.string_of_uint.
  destruct (Z.to_int z) as [d|d]; destruct d; cbn [plain];
    try (split; [reflexivity | discriminate]);
    split; try discriminate; cbn; try apply plain_uint.
Qed.

Lemma config_str_whole (opts : Options) :
  strlen (ssh_config opts) <= 8185 ->
  config_str_of opts
  = if nonempty (ssh_config opts)
    then "-F " ++ dq ++ ssh_config opts ++ dq ++ " " else EmptyString.
Proof.
  intros Hc. unfold config_str_of. destruct (nonempty (ssh_config opts)); [|reflexivity].
  unfold snprintf. apply take_all. rewrite !strlen_app.
  change (strlen "-F ") with 3. change (strlen dq) with 1. change (strlen " ") with 1.
  unfold MAX_CMD_LEN. lia.
Qed.

Lemma port_str_whole (opts : Options) :
  strlen (dec (port opts)) <= 27 ->
  port_str_of opts
  = if custom_port opts then "-p " ++ dec (port opts) ++ " " else EmptyString.
Proof.
  intros Hp. unfold port_str_of, custom_port.
  destruct ((port opts >? 0) && negb (port opts =? 22)); [|reflexivity].
  unfold snprintf. apply take_all. rewrite !strlen_app.
  change (strlen "-p ") with 3. change (strlen " ") with 1. lia.
Qed.

Lemma all_chars_weaken (p q : ascii -> bool) (s : string) :
  (forall c, p c = true -> q c = true) -> all_chars p s = true -> all_chars q s = true.
Proof.
  intros Hpq. induction s as [|c s IH]; [reflexivity|].
  cbn [all_chars]. intros Hs. apply andb_prop in Hs. destruct Hs as [Hc Hs].
  rewrite (Hpq c Hc), IH by exact Hs. reflexivity.
Qed.

Lemma all_chars_plain (s : string) : all_chars dest_char s = true -> plain s = true.
Proof.
  induction s as [|c s IH]; [reflexivity|].
  cbn [all_chars plain]. intros Hs. apply andb_prop in Hs. destruct Hs as [Hc Hs].
  rewrite IH by exact Hs. rewrite Bool.andb_true_r.
  unfold dest_char in Hc. apply andb_prop in Hc. destruct Hc as [Hp Hc].
  apply negb_true_iff in Hc. cbn [existsb] in Hc.
  apply orb_false_elim in Hc. destruct Hc as [Hsp Hc].
  apply orb_false_elim in Hc. destruct Hc as [Hq _].
  rewrite Hsp, Hq. cbn [orb].
  destruct (Ascii.eqb c "009") eqn:E; [|reflexivity].
  apply Ascii.eqb_eq in E. subst c. discriminate Hp.
Qed.

Lemma all_chars_no_dq (p : ascii -> bool) (s : string) :
  p "034"%char = false -> all_chars p s = true -> no_dq s = true.
Proof.
  intros Hq. induction s as [|c s IH]; [reflexivity|].
  cbn [all_chars no_dq]. intros Hs. apply andb_prop in Hs. destruct Hs as [Hc Hs].
  rewrite IH by exact Hs. rewrite Bool.andb_true_r.
  destruct (Ascii.eqb c "034") eqn:E; [|reflexivity].
  apply Ascii.eqb_eq in E. subst c. congruence.
Qed.

Lemma all_chars_nul_free (p : ascii -> bool) (s : string) :
  p zero = false -> all_chars p s = true -> nul_free s = true.
Proof.
  intros Hz. induction s as [|c s IH]; [reflexivity|].
  cbn [all_chars nul_free]. intros Hs. apply andb_prop in Hs. destruct Hs as [Hc Hs].
  rewrite IH by exact Hs. rewrite Bool.andb_true_r.
  destruct (Ascii.eqb c zero) eqn:E; [|reflexivity].
  apply Ascii.eqb_eq in E. subst c. congruence.
Qed.

Lemma all_chars_no_backslash (s : string) :
  all_chars key_char s = true -> Sh.no_backslash s = true.
Proof.
  induction s as [|c s IH]; [reflexivity|].
  cbn [all_chars Sh.no_backslash]. intros Hs. apply andb_prop in Hs. destruct Hs as [Hc Hs].
  rewrite IH by exact Hs. rewrite Bool.andb_true_r.
  destruct (Ascii.eqb c "\") eqn:E; [|reflexivity].
  apply Ascii.eqb_eq in E. subst c. discriminate Hc.
Qed.

(** What is left of [key_ok] for each of the three readers of the key. *)
Lemma key_ok_facts (key : string) :
  key_ok key = true ->
  no_dq key = true /\ nul_free key = true /\ Sh.echo_portable key = true.
Proof.
  unfold key_ok, Sh.echo_portable. intros Hk. apply andb_prop in Hk. destruct Hk as [Hc Hd].
  split; [apply (all_chars_no_dq key_char); [reflexivity | exact Hc]|].
  split; [apply (all_chars_nul_free key_char); [reflexivity | exact Hc]|].
  rewrite Hd, (all_chars_no_backslash key Hc). reflexivity.
Qed.

Lemma split_ssh_line (opts : Options) (R : string) :
  session_ok opts ->
  strlen (ssh_config opts) <= 8185 ->
  no_dq R = true ->
  split_args (ssh_line opts R) false None
  = "ssh" :: (session_args opts ++ [(user opts ++ "@" ++ host opts)%string; R])%list.
Proof.
  intros (Hdest0 & _ & Hcfg0 & _ & Hport) Hlen HR.
  pose proof (all_chars_plain _ Hdest0) as Hdest.
  pose proof (all_chars_no_dq path_char _ eq_refl Hcfg0) as Hcfg.
  unfold ssh_line, session_args.
  rewrite (config_str_whole opts Hlen), (port_str_whole opts Hport).
  assert (Htail : forall rest,
             split_args ((user opts ++ "@" ++ host opts) ++ " " ++ dq ++ R ++ dq ++ rest)
               false None
             = (user opts ++ "@" ++ host opts) :: split_args rest false (Some R)).
  { intros rest. rewrite split_plain_none; [|exact Hdest|].
    - cbn [append split_args Ascii.eqb Bool.eqb orb andb negb token dq].
      rewrite split_quoted by exact HR. reflexivity.
    - destruct (user opts); discriminate. }
  assert (Hline : user opts ++ "@" ++ host opts ++ " " ++ dq ++ R ++ dq
                  = (user opts ++ "@" ++ host opts) ++ " " ++ dq ++ R ++ dq ++ EmptyString).
  { rewrite !sapp_assoc. cbn [append]. rewrite ?sapp_nil_r. reflexivity. }
  rewrite Hline. clear Hline.
  set (dest := user opts ++ "@" ++ host opts) in *.
  set (tail := dest ++ " " ++ dq ++ R ++ dq ++ EmptyString) in *.
  assert (Hport' : split_args
                     ((if custom_port opts then "-p " ++ dec (port opts) ++ " "
                       else EmptyString) ++ tail) false None
                   = ((if custom_port opts then ["-p"; dec (port opts)] else [])
                        ++ [dest; R])%list).
  { destruct (custom_port opts).
    - cbn [append split_args Ascii.eqb Bool.eqb orb andb negb token].
      rewrite sapp_assoc. destruct (dec_plain (port opts)) as [Hp Hne].
      rewrite split_plain_none by assumption.
      cbn [append split_args Ascii.eqb Bool.eqb orb andb negb token app].
      subst tail. rewrite Htail. reflexivity.
    - cbn [append app]. subst tail. rewrite Htail. reflexivity. }
  destruct (nonempty (ssh_config opts)).
  - cbn [append split_args Ascii.eqb Bool.eqb orb andb negb token dq].
    rewrite !sapp_assoc. cbn [append].
    rewrite split_quoted by exact Hcfg.
    cbn [append split_args Ascii.eqb Bool.eqb orb andb negb token app].
    do 3 f_equal. exact Hport'.
  - cbn [append split_args Ascii.eqb Bool.eqb orb andb negb token app].
    f_equal. exact Hport'.
Qed.

Lemma not_an_option (a : string) :
  first_is "-" a = false ->
  (streq a "-F" || streq a "-p" || streq a "-o" || streq a "-i") = false.
Proof.
  destruct a as [|c a]; [reflexivity|]. cbn [first_is]. intros Hc.
  unfold streq. cbn [String.eqb]. rewrite Hc. reflexivity.
Qed.

Lemma ssh_args_session (opts : Options) (dest R : string) :
  first_is "-" dest = false ->
  ssh_args (session_args opts ++ [dest; R]) = Some (dest, R).
Proof.
  intros Hd.
  assert (Hend : ssh_args [dest; R] = Some (dest, R)).
  { cbn [ssh_args]. rewrite (not_an_option dest Hd), Hd. reflexivity. }
  unfold session_args.
  destruct (nonempty (ssh_config opts)); destruct (custom_port opts);
    cbn [app ssh_args]; exact Hend.
Qed.

End Tokens.

Section IdealRemote.

Import Ideal.

Variable w : World.
Variable opts : Options.
Hypothesis Hssh : has_ssh w = true.
Hypothesis Hup : remote_up w = true.
Hypothesis Hsession : session_ok opts.
Hypothesis Hcfg : strlen (ssh_config opts) <= 8185.

Lemma ideal_ssh_line (R : string) :
  no_dq R = true -> ssh (ssh_line opts R) w = Some (run_remote R w).
Proof.
  intros HR. unfold ssh. rewrite (split_ssh_line opts R Hsession Hcfg HR).
  change (streq "ssh" "ssh") with true. cbv iota. rewrite Hssh, Hup. cbn [andb].
  destruct Hsession as (_ & Hd & _).
  rewrite (ssh_args_session opts _ R Hd). reflexivity.
Qed.

Lemma ssh_line_not_where (R : string) : streq (ssh_line opts R) where_cmd = false.
Proof. reflexivity. Qed.

Lemma ideal_system_line (R : string) :
  no_dq R = true ->
  os_system (ssh_line opts R) w = (fst (fst (run_remote R w)), snd (run_remote R w)).
Proof.
  intros HR. cbn [os_system ideal_os]. unfold ideal_system.
  change "where ssh >nul 2>&1" with where_cmd. rewrite ssh_line_not_where.
  rewrite (ideal_ssh_line R HR). destruct (run_remote R w) as [[r out] w']. reflexivity.
Qed.

Lemma ideal_popen_line (R : string) :
  no_dq R = true ->
  os_popen (ssh_line opts R) w = (Some (snd (fst (run_remote R w))), snd (run_remote R w)).
Proof.
  intros HR. cbn [os_popen ideal_os]. unfold ideal_popen.
  rewrite (ideal_ssh_line R HR). destruct (run_remote R w) as [[r out] w']. reflexivity.
Qed.

End IdealRemote.

Section RemoteCommands.

Import Ideal.

Lemma run_remote_mkdir (w : World) :
  run_remote mkdir_remote w = (0, EmptyString, with_dir w 448).
Proof. reflexivity. Qed.

Lemma run_remote_cat (w : World) :
  run_remote cat_remote w
  = match remote_keys w with
    | Some k => (0, k, w)
    | None => (1, EmptyString, w)
    end.
Proof. reflexivity. Qed.

Lemma run_remote_echo (key : string) (w : World) :
  Sh.echo_portable key = true ->
  run_remote (echo_remote (quote_escape key)) w
  = match remote_dir w with
    | Some _ => (0, EmptyString, with_keys w (keys_text w ++ key ++ nl) 384)
    | None => (1, EmptyString, w)
    end.
Proof.
  intros Hport. unfold run_remote, echo_remote.
  cbn [append streq String.eqb Ascii.eqb Bool.eqb andb].
  match goal with
  | |- context [String.prefix "echo " (String "e" (String "c" (String "h" (String "o"
                  (String " " ?s)))))] =>
      replace (String.prefix "echo " (String "e" (String "c" (String "h" (String "o"
                  (String " " s)))))) with true
        by (symmetry; apply (prefix_app "echo " s));
      replace (drop 5 (String "e" (String "c" (String "h" (String "o" (String " " s))))))
        with s by reflexivity
  end.
  cbn [Sh.word Ascii.eqb Bool.eqb].
  change "' >> ~/.ssh/authorized_keys && chmod 600 ~/.ssh/authorized_keys"
    with (String "'" append_tail).
  rewrite word_quote_escape.
  - unfold streq. rewrite String.eqb_refl, Hport. reflexivity.
  - right. exists " "%char. eexists. split; reflexivity.
Qed.

End RemoteCommands.

(** ** The directory set-up on the modelled remote *)

Section MkdirOnRemote.

Import Ideal.

Lemma run_remote_world (c : string) (w : World) :
  snd (run_remote c w) = w \/ snd (run_remote c w) = with_dir w 448
  \/ exists k, snd (run_remote c w) = with_keys w k 384.
Proof.
  unfold run_remote.
  repeat match goal with
         | |- context [if ?b then _ else _] => destruct b
         | |- context [match ?x with _ => _ end] => destruct x
         end; cbn [snd]; eauto.
Qed.

Lemma ideal_system_world (cmd : string) (w : World) :
  snd (os_system cmd w) = w \/ snd (os_system cmd w) = with_dir w 448
  \/ exists k, snd (os_system cmd w) = with_keys w k 384.
Proof.
  cbn [os_system ideal_os]. unfold ideal_system, ssh.
  destruct (streq cmd "where ssh >nul 2>&1"); [now left|].
  destruct (Win.split_args cmd false None) as [|a args]; [now left|].
  destruct (streq a "ssh"); [|now left].
  destruct (has_ssh w && remote_up w); [|now left].
  destruct (Win.ssh_args args) as [[dest rc]|]; [|now left].
  pose proof (run_remote_world rc w) as Hw.
  destruct (run_remote rc w) as [[r out] w']. exact Hw.
Qed.

Lemma ideal_popen_world (cmd : string) (w : World) :
  snd (os_popen cmd w) = w \/ snd (os_popen cmd w) = with_dir w 448
  \/ exists k, snd (os_popen cmd w) = with_keys w k 384.
Proof.
  cbn [os_popen ideal_os]. unfold ideal_popen, ssh.
  destruct (Win.split_args cmd false None) as [|a args]; [now left|].
  destruct (streq a "ssh"); [|now left].
  destruct (has_ssh w && remote_up w); [|now left].
  destruct (Win.ssh_args args) as [[dest rc]|]; [|now left].
  pose proof (run_remote_world rc w) as Hw.
  destruct (run_remote rc w) as [[r out] w']. exact Hw.
Qed.

(** No command takes the client or the remote away, and none undoes the
    directory set-up. *)
Lemma ideal_system_keeps (cmd : string) (w : World) :
  has_ssh (snd (os_system cmd w)) = has_ssh w
  /\ remote_up (snd (os_system cmd w)) = remote_up w
  /\ (remote_dir w = Some 448 -> remote_dir (snd (os_system cmd w)) = Some 448).
Proof.
  destruct (ideal_system_world cmd w) as [-> | [-> | [k ->]]];
    cbn [has_ssh remote_up remote_dir with_dir with_keys]; auto.
Qed.

Lemma ideal_popen_keeps (cmd : string) (w : World) :
  remote_dir w = Some 448 -> remote_dir (snd (os_popen cmd w)) = Some 448.
Proof.
  destruct (ideal_popen_world cmd w) as [-> | [-> | [k ->]]];
    cbn [remote_dir with_dir with_keys]; auto.
Qed.

(** An ssh command returns 0 only with a client and a remote that answers. *)
Lemma ideal_system_zero (cmd : string) (w : World) :
  streq cmd where_cmd = false -> fst (os_system cmd w) = 0 ->
  has_ssh w = true /\ remote_up w = true.
Proof.
  cbn [os_system ideal_os]. unfold ideal_system, ssh.
  change "where ssh >nul 2>&1" with where_cmd. intros ->.
  destruct (Win.split_args cmd false None) as [|a args]; [discriminate|].
  destruct (streq a "ssh"); [|discriminate].
  destruct (has_ssh w && remote_up w) eqn:E; [|discriminate].
  intros _. apply andb_prop in E. exact E.
Qed.

Lemma run_ssh_line_not_where (opts : Options) (rc : string) :
  streq (run_ssh_line opts rc) where_cmd = false.
Proof. reflexivity. Qed.

(** The key-copy step on the modelled remote: the directory set-up runs
    first and returns 0, and the directory has mode 700 when the step
    ends. *)
Lemma ideal_copy_step (opts : Options) (key : string) (w : World)
      (rc : Z) (w' : World) (tc : list event) :
  session_ok opts -> fits opts ->
  has_ssh w = true -> remote_up w = true ->
  copy_run opts key w rc w' tc ->
  (exists tail, tc = Out creating_msg :: Call AtMkdir (mkdir_cmd opts) 0 :: tail)
  /\ remote_dir w' = Some 448.
Proof.
  intros Hsess Hfits Hssh Hup Hrun.
  assert (Hcfg : strlen (ssh_config opts) <= 8185).
  { destruct Hfits as (_ & _ & Hc). unfold MAX_PATH_LEN in Hc. lia. }
  assert (Hm : os_system (mkdir_cmd opts) w = (0, with_dir w 448)).
  { rewrite (mkdir_cmd_whole opts Hfits).
    rewrite (ideal_system_line w opts Hssh Hup Hsess Hcfg mkdir_remote eq_refl).
    rewrite run_remote_mkdir. reflexivity. }
  destruct Hrun as [rm w1 r w2 F E1 E2 | rm w1 out w2 F E1 E2 K
                   | rm w1 fp w2 r w3 F E1 E2 K E3];
    rewrite Hm in E1; injection E1 as <- <-.
  - split; [eexists; reflexivity|].
    replace w2 with (snd (os_system (append_cmd opts key) (with_dir w 448)))
      by (rewrite E2; reflexivity).
    now apply ideal_system_keeps.
  - split; [eexists; reflexivity|].
    replace w2 with (snd (os_popen (check_cmd opts) (with_dir w 448)))
      by (rewrite E2; reflexivity).
    now apply ideal_popen_keeps.
  - split; [eexists; reflexivity|].
    replace w3 with (snd (os_system (append_cmd opts key) w2))
      by (rewrite E3; reflexivity).
    apply ideal_system_keeps.
    replace w2 with (snd (os_popen (check_cmd opts) (with_dir w 448)))
      by (rewrite E2; reflexivity).
    now apply ideal_popen_keeps.
Qed.

(** C9, as the code has it, on the modelled remote.  For a well-formed
    session, in every run in which the connection test succeeded (the runs
    that reach the key-copy step), and so in every run that reports the key
    as already present: the directory set-up command, the uncut command
    line ending in ["mkdir -p ~/.ssh && chmod 700 ~/.ssh"], is run and
    returns 0, neither the check for the key nor its appending comes before
    it, and when the run ends the remote directory exists with mode 700. *)
Theorem mkdir_precedes_key_check (prog : string) (args : list string) (w : World)
        (opts : Options) :
  result_of (parse_args prog args w) = PRet 0 opts ->
  session_ok opts ->
  let r := main prog args w in
  (exists cmd, In (Call AtTestConn cmd 0) (trace_of r)) \/ already_present (trace_of r) ->
  (exists pre post,
      trace_of r = (pre ++ Call AtMkdir (ssh_line opts mkdir_remote) 0 :: post)%list
      /\ Forall (fun e => is_check_or_append e = false) pre)
  /\ remote_dir (world_of r) = Some 448.
Proof.
  intros Hparse Hsess r. subst r. unfold already_present.
  pose proof (parse_args_fits prog args w 0 opts Hparse) as Hfits.
  destruct (main prog args w) as [[r w'] t] eqn:Hm.
  apply main_runs_aux in Hm. cbn [result_of world_of trace_of fst snd].
  intros Hreach.
  assert (Hstep : forall o w1 w2 key rc w3 tc,
             parse_args prog args w = (PRet 0 o, w, []) ->
             os_system (run_ssh_line o "exit 0") w1 = (0, w2) ->
             copy_run o key w2 rc w3 tc ->
             o = opts
             /\ (exists tail, tc = Out creating_msg :: Call AtMkdir (mkdir_cmd opts) 0 :: tail)
             /\ remote_dir w3 = Some 448).
  { intros o w1 w2 key rc w3 tc Hp Hc Hrun.
    rewrite Hp in Hparse. cbn [result_of fst] in Hparse. injection Hparse as ->.
    split; [reflexivity|].
    destruct (ideal_system_zero (run_ssh_line opts "exit 0") w1
                (run_ssh_line_not_where opts "exit 0")) as [Hssh Hup].
    { rewrite Hc. reflexivity. }
    destruct (ideal_system_keeps (run_ssh_line opts "exit 0") w1) as (Ks & Ku & _).
    rewrite Hc in Ks, Ku. cbn [snd] in Ks, Ku.
    apply (ideal_copy_step opts key w2 rc w3 tc Hsess Hfits); congruence. }
  destruct Hm.
  1-6: exfalso; destruct Hreach as [(c & Hin)|Hin];
    try match goal with Hi : context [if ?b then _ else _] |- _ => destruct b end;
    in_cases; clash.
  - destruct (Hstep _ _ _ _ _ _ _ ltac:(eassumption) ltac:(eassumption) ltac:(eassumption))
      as (-> & (tail & Htc) & Hdir).
    split; [|exact Hdir].
    exact (copy_step_split opts _ file 0 tc tail _ Hfits Htc).
  - destruct (Hstep _ _ _ _ _ _ _ ltac:(eassumption) ltac:(eassumption) ltac:(eassumption))
      as (-> & (tail & Htc) & Hdir).
    split; [|exact Hdir].
    rewrite <- (List.app_nil_r tc).
    exact (copy_step_split opts _ file 0 tc tail [] Hfits Htc).
  - destruct (Hstep _ _ _ _ _ _ _ ltac:(eassumption) ltac:(eassumption) ltac:(eassumption))
      as (-> & (tail & Htc) & Hdir).
    split.
    + exact (copy_step_split opts _ file 0 tc tail _ Hfits Htc).
    + match goal with E : os_system ?line w3 = (_, ?w4) |- remote_dir ?w4 = _ =>
        replace w4 with (snd (os_system line w3)) by (rewrite E; reflexivity)
      end.
      now apply ideal_system_keeps.
Qed.

End MkdirOnRemote.

Lemma mkdir_precedes_key_check_witness :
  let w := Demo.w_present in
  let r := main Demo.prog ["alice@box"] w in
  result_of (parse_args Demo.prog ["alice@box"] w) = PRet 0 Demo.alice_box
  /\ session_ok Demo.alice_box
  /\ ((exists cmd, In (Call AtTestConn cmd 0) (trace_of r)) \/ already_present (trace_of r))
  /\ (exists pre post,
         trace_of r
         = (pre ++ Call AtMkdir (ssh_line Demo.alice_box mkdir_remote) 0 :: post)%list
         /\ Forall (fun e => is_check_or_append e = false) pre)
  /\ Ideal.remote_dir w = Some 493
  /\ Ideal.remote_dir (world_of r) = Some 448.
Proof.
  intros w r.
  assert (Hsess : session_ok Demo.alice_box).
  { repeat split; try reflexivity. vm_compute. discriminate. }
  assert (Hreach : (exists cmd, In (Call AtTestConn cmd 0) (trace_of r))
                   \/ already_present (trace_of r)).
  { right. unfold already_present. vm_compute. auto 20. }
  split; [reflexivity|]. split; [exact Hsess|]. split; [exact Hreach|].
  destruct (mkdir_precedes_key_check Demo.prog ["alice@box"] w Demo.alice_box
              eq_refl Hsess Hreach) as [Hsplit Hdir].
  split; [exact Hsplit|]. split; [reflexivity | exact Hdir].
Defined.

(** C9 as stated fails when the directory is already there with mode 700:
    the run reports the key as already present, has run the directory
    set-up, and leaves the remote, and the whole world, as it was. *)
Lemma already_present_run_leaves_remote_counterexample :
  let w := Demo.remote_with (Demo.key_text ++ nl) in
  let r := main Demo.prog ["alice@box"] w in
  Ideal.remote_dir w = Some 448
  /\ result_of r = 0
  /\ already_present (trace_of r)
  /\ In (Call AtMkdir (mkdir_cmd Demo.alice_box) 0) (trace_of r)
  /\ world_of r = w.
Proof.
  intros w r. split; [reflexivity|]. split; [reflexivity|].
  split; [unfold already_present; vm_compute; auto 20|].
  split; [vm_compute; auto 20 | reflexivity].
Qed.

Section TwoRuns.

Import Ideal.

Lemma no_dq_app (a b : string) : no_dq (a ++ b) = no_dq a && no_dq b.
Proof.
  induction a as [|c a IH]; [reflexivity|].
  cbn [append no_dq]. rewrite IH. now rewrite Bool.andb_assoc.
Qed.

Lemma no_dq_quote_escape (s : string) : no_dq s = true -> no_dq (quote_escape s) = true.
Proof.
  induction s as [|c s IH]; [reflexivity|].
  cbn [no_dq quote_escape]. intros Hs. apply andb_prop in Hs. destruct Hs as [Hc Hs].
  destruct (Ascii.eqb c "'").
  - cbn. now apply IH.
  - cbn [no_dq]. rewrite Hc. now apply IH.
Qed.

Lemma no_dq_echo (key : string) :
  no_dq key = true -> no_dq (echo_remote (quote_escape key)) = true.
Proof.
  intros Hk. unfold echo_remote. rewrite !no_dq_app, (no_dq_quote_escape key Hk).
  reflexivity.
Qed.

Lemma nul_free_app (a b : string) : nul_free (a ++ b) = nul_free a && nul_free b.
Proof.
  induction a as [|c a IH]; [reflexivity|].
  cbn [append nul_free]. rewrite IH. now rewrite Bool.andb_assoc.
Qed.

Lemma cstr_nul_free (s : string) : nul_free s = true -> cstr s = s.
Proof.
  induction s as [|c s IH]; [reflexivity|].
  cbn [nul_free cstr]. intros Hs. apply andb_prop in Hs. destruct Hs as [Hc Hs].
  apply negb_true_iff in Hc. rewrite Hc, IH by exact Hs. reflexivity.
Qed.

(** A key that is in the part of the file that one run reads is found. *)
Lemma key_in_appended (old key : string) :
  nul_free old = true -> nul_free key = true ->
  strlen old + strlen key + 1 <= MAX_KEY_SIZE - 1 ->
  key_in (old ++ key ++ nl) key = true.
Proof.
  intros Ho Hk Hlen. unfold key_in.
  rewrite take_all by (rewrite !strlen_app; change (strlen nl) with 1; lia).
  rewrite cstr_nul_free by (rewrite !nul_free_app, Ho, Hk; reflexivity).
  destruct (strstr_occurs old key nl) as [i ->]. reflexivity.
Qed.

Lemma ssh_line_len (opts : Options) (R : string) :
  strlen (ssh_line opts R)
  = strlen (config_str_of opts) + strlen (port_str_of opts)
    + strlen (user opts) + strlen (host opts) + strlen R + 8.
Proof.
  unfold ssh_line. rewrite !strlen_app.
  change (strlen "ssh ") with 4. change (strlen "@") with 1.
  change (strlen " ") with 1. change (strlen dq) with 1. lia.
Qed.

Lemma echo_remote_len (e : string) : strlen (echo_remote e) = strlen e + 69.
Proof.
  unfold echo_remote. rewrite !strlen_app.
  change (strlen "echo '") with 6.
  change (strlen "' >> ~/.ssh/authorized_keys && chmod 600 ~/.ssh/authorized_keys")
    with 63. lia.
Qed.

Section OneRun.

Variable opts : Options.
Variable key : string.
Variable w : World.
Hypothesis Hdep : deployable opts key w.

Lemma deployable_config : strlen (ssh_config opts) <= 8185.
Proof.
  destruct Hdep as (_ & _ & _ & _ & _ & Hfit).
  rewrite ssh_line_len in Hfit. unfold MAX_CMD_LEN in Hfit.
  pose proof (strlen_nonneg (port_str_of opts)).
  pose proof (strlen_nonneg (user opts)). pose proof (strlen_nonneg (host opts)).
  pose proof (strlen_nonneg (echo_remote (quote_escape key))).
  unfold config_str_of in Hfit.
  destruct (nonempty (ssh_config opts)) eqn:E.
  - unfold snprintf in Hfit. rewrite strlen_take in Hfit by (unfold MAX_CMD_LEN; lia).
    rewrite !strlen_app in Hfit. change (strlen "-F ") with 3 in Hfit.
    change (strlen dq) with 1 in Hfit. change (strlen " ") with 1 in Hfit.
    unfold MAX_CMD_LEN in Hfit. lia.
  - destruct (ssh_config opts); [rewrite strlen_nil; lia | discriminate E].
Qed.

Lemma deployable_whole (R : string) :
  strlen R <= strlen (echo_remote (quote_escape key)) ->
  snprintf MAX_CMD_LEN (ssh_line opts R) = ssh_line opts R.
Proof.
  intros HR. destruct Hdep as (_ & _ & _ & _ & _ & Hfit).
  unfold snprintf. apply take_all. rewrite ssh_line_len in *. lia.
Qed.

Lemma deployable_mkdir_cmd : mkdir_cmd opts = ssh_line opts mkdir_remote.
Proof.
  apply deployable_whole. rewrite echo_remote_len.
  pose proof (strlen_nonneg (quote_escape key)). change (strlen mkdir_remote) with 35. lia.
Qed.

Lemma deployable_check_cmd : check_cmd opts = ssh_line opts cat_remote.
Proof.
  apply deployable_whole. rewrite echo_remote_len.
  pose proof (strlen_nonneg (quote_escape key)). change (strlen cat_remote) with 38. lia.
Qed.

Lemma deployable_append_cmd :
  append_cmd opts key = ssh_line opts (echo_remote (quote_escape key)).
Proof.
  destruct Hdep as (_ & _ & _ & _ & _ & Hfit).
  unfold append_cmd.
  assert (E : escape_key key = quote_escape key).
  { unfold escape_key. apply escape_loop_exact.
    rewrite ssh_line_len, echo_remote_len in Hfit.
    pose proof (strlen_nonneg (config_str_of opts)).
    pose proof (strlen_nonneg (port_str_of opts)).
    pose proof (strlen_nonneg (user opts)). pose proof (strlen_nonneg (host opts)).
    unfold MAX_CMD_LEN, MAX_KEY_SIZE in *. lia. }
  rewrite E. apply deployable_whole. lia.
Qed.

(** One run of [copy_key_to_server] on the modelled remote. *)
Lemma ideal_copy :
  copy_key_to_server opts key w
  = if force opts then
      (0, with_keys (with_dir w 448) (keys_text w ++ key ++ nl) 384, forced_trace opts key)
    else if key_in (keys_text w) key then
      (0, with_dir w 448, present_trace opts (keys_text w))
    else
      (0, with_keys (with_dir w 448) (keys_text w ++ key ++ nl) 384,
       appended_trace opts key (keys_text w)).
Proof.
  pose proof deployable_config as Hcfg.
  destruct Hdep as (Hssh & Hup & Hsess & Hkey & Ho & Hfit).
  destruct (key_ok_facts key Hkey) as (Hq & Hk & Hecho).
  assert (Hm : os_system (mkdir_cmd opts) w = (0, with_dir w 448)).
  { rewrite deployable_mkdir_cmd.
    rewrite (ideal_system_line w opts Hssh Hup Hsess Hcfg mkdir_remote eq_refl).
    rewrite run_remote_mkdir. reflexivity. }
  assert (Ha : forall w', has_ssh w' = true -> remote_up w' = true ->
                          remote_dir w' = Some 448 ->
               os_system (append_cmd opts key) w'
               = (0, with_keys w' (keys_text w' ++ key ++ nl) 384)).
  { intros w' Hs' Hu' Hd'. rewrite deployable_append_cmd.
    rewrite (ideal_system_line w' opts Hs' Hu' Hsess Hcfg _ (no_dq_echo key Hq)).
    rewrite (run_remote_echo key w' Hecho), Hd'. reflexivity. }
  assert (Hc : os_popen (check_cmd opts) (with_dir w 448)
               = (Some (keys_text w), with_dir w 448)).
  { rewrite deployable_check_cmd.
    rewrite (ideal_popen_line (with_dir w 448) opts Hssh Hup Hsess Hcfg cat_remote eq_refl).
    rewrite run_remote_cat. unfold keys_text. cbn [remote_keys with_dir].
    destruct (remote_keys w); reflexivity. }
  unfold copy_key_to_server, bind, printf, system, popen_read, ret.
  rewrite Hm. destruct (force opts).
  - rewrite (Ha (with_dir w 448) Hssh Hup eq_refl). reflexivity.
  - rewrite Hc. destruct (key_in (keys_text w) key).
    + reflexivity.
    + rewrite (Ha (with_dir w 448) Hssh Hup eq_refl). reflexivity.
Qed.

End OneRun.

Lemma deployable_with_dir (opts : Options) (key : string) (w : World) (m : Z) :
  deployable opts key w -> deployable opts key (with_dir w m).
Proof. intros H. exact H. Qed.

Lemma deployable_with_keys (opts : Options) (key : string) (w : World) (m : Z) :
  deployable opts key w ->
  deployable opts key (with_keys w (keys_text w ++ key ++ nl) m).
Proof.
  intros (Hssh & Hup & Hsess & Hkey & Ho & Hfit).
  destruct (key_ok_facts key Hkey) as (_ & Hk & _).
  refine (conj Hssh (conj Hup (conj Hsess (conj Hkey (conj _ Hfit))))).
  change (keys_text (with_keys w (keys_text w ++ key ++ nl) m))
    with (keys_text w ++ key ++ nl).
  rewrite !nul_free_app, Ho, Hk. reflexivity.
Qed.

(** ** The escaping step and the append command *)

(** C1, as the code has it.  For a key whose escaped text has at most 65534
    characters (the size of [escaped_key] less the terminator and the spare
    byte the loop keeps), the escaping step writes every single quote as the
    four characters ['\''] and every other character as it is.  When the
    whole append command fits [cmd], the command that
    [copy_key_to_server] leaves there is the uncut ssh line whose remote
    command is [echo], the escaped key between single quotes, and the
    redirection, and the shell reads that quoted word back as exactly the
    key.  On the modelled remote, for a well-formed session and a key of
    characters that pass unchanged, when [~/.ssh] exists, the command adds
    to the file one line that is exactly the key. *)
Theorem escape_key_round_trip (opts : Options) (key : string) (w : World) :
  (strlen (quote_escape key) <= MAX_KEY_SIZE - 2 -> escape_key key = quote_escape key)
  /\ (strlen (ssh_line opts (echo_remote (quote_escape key))) <= MAX_CMD_LEN - 1 ->
      let quoted := "'" ++ escape_key key ++ "'" in
      append_cmd opts key = ssh_line opts ("echo " ++ quoted ++ append_tail)
      /\ Sh.word false (quoted ++ append_tail) = Some (key, append_tail)
      /\ (has_ssh w = true -> remote_up w = true ->
          session_ok opts -> key_ok key = true -> remote_dir w <> None ->
          os_system (append_cmd opts key) w
          = (0, with_keys w (keys_text w ++ key ++ nl) 384))).
Proof.
  split.
  { intros Hlen. unfold escape_key. apply escape_loop_exact.
    unfold MAX_KEY_SIZE in *. lia. }
  intros Hfit quoted. subst quoted.
  assert (E : escape_key key = quote_escape key).
  { unfold escape_key. apply escape_loop_exact.
    rewrite ssh_line_len, echo_remote_len in Hfit.
    pose proof (strlen_nonneg (config_str_of opts)).
    pose proof (strlen_nonneg (port_str_of opts)).
    pose proof (strlen_nonneg (user opts)). pose proof (strlen_nonneg (host opts)).
    unfold MAX_CMD_LEN, MAX_KEY_SIZE in *. lia. }
  assert (Hcmd : append_cmd opts key = ssh_line opts (echo_remote (quote_escape key))).
  { unfold append_cmd. rewrite E. unfold snprintf. apply take_all. exact Hfit. }
  assert (Hshape : forall e, "echo " ++ ("'" ++ e ++ "'") ++ append_tail = echo_remote e).
  { intros e. unfold echo_remote. cbn [append]. rewrite sapp_assoc. reflexivity. }
  split; [|split].
  - rewrite Hshape, E. exact Hcmd.
  - rewrite E. cbn [append Sh.word Ascii.eqb Bool.eqb]. rewrite sapp_assoc.
    apply word_quote_escape. right. exists " "%char. eexists. split; reflexivity.
  - intros Hssh Hup Hsess Hkey Hdir.
    destruct (key_ok_facts key Hkey) as (Hq & Hk & Hecho).
    assert (Hdep : deployable opts key (with_keys w EmptyString 0)).
    { repeat split; try assumption; apply Hsess. }
    pose proof (deployable_config opts key _ Hdep) as Hcfg.
    rewrite Hcmd.
    rewrite (ideal_system_line w opts Hssh Hup Hsess Hcfg _ (no_dq_echo key Hq)).
    rewrite (run_remote_echo key w Hecho).
    destruct (remote_dir w); [reflexivity | congruence].
Qed.

(** C2, as the code has it, on the modelled remote.  For a deployable
    session, key and world: with [force] off and a remote file that, with
    the new line, fits the 65535 bytes that one run reads of it, the second
    of two runs fetches the file, finds the key in it, issues no append
    command, prints that the key already exists and returns 0, so that the
    two runs together append the key at most once; with [force] on, neither
    run fetches the file, each issues the append command, and the file ends
    with two lines holding the key. *)
Theorem two_runs (opts : Options) (key : string) (w : World) :
  deployable opts key w ->
  let r1 := copy_key_to_server opts key w in
  let r2 := copy_key_to_server opts key (world_of r1) in
  (force opts = false ->
   strlen (keys_text w) + strlen key + 1 <= MAX_KEY_SIZE - 1 ->
   result_of r2 = 0
   /\ trace_of r2 = present_trace opts (keys_text (world_of r1))
   /\ keys_text (world_of r2) = keys_text (world_of r1)
   /\ (keys_text (world_of r1) = keys_text w
       \/ keys_text (world_of r1) = keys_text w ++ key ++ nl))
  /\ (force opts = true ->
      result_of r1 = 0 /\ result_of r2 = 0
      /\ trace_of r1 = forced_trace opts key
      /\ trace_of r2 = forced_trace opts key
      /\ keys_text (world_of r2) = (keys_text w ++ key ++ nl) ++ key ++ nl).
Proof.
  intros Hdep r1 r2. subst r1 r2.
  rewrite (ideal_copy opts key w Hdep).
  pose proof Hdep as (Hssh & Hup & Hsess & Hkey & Ho & Hfit).
  destruct (key_ok_facts key Hkey) as (Hq & Hk & _).
  split.
  - intros Hf Hwin. rewrite Hf.
    destruct (key_in (keys_text w) key) eqn:K; cbn [world_of fst snd].
    + rewrite (ideal_copy opts key _ (deployable_with_dir opts key w 448 Hdep)).
      rewrite Hf. change (keys_text (with_dir w 448)) with (keys_text w). rewrite K.
      cbn [result_of world_of trace_of fst snd]. auto.
    + pose proof (ideal_copy opts key _
                    (deployable_with_keys opts key _ 384
                       (deployable_with_dir opts key w 448 Hdep))) as E.
      change (keys_text (with_dir w 448)) with (keys_text w) in E.
      rewrite E, Hf.
      change (keys_text (with_keys (with_dir w 448) (keys_text w ++ key ++ nl) 384))
        with (keys_text w ++ key ++ nl).
      rewrite (key_in_appended (keys_text w) key Ho Hk Hwin).
      cbn [result_of world_of trace_of fst snd].
      repeat split; auto.
  - intros Hf. rewrite Hf. cbn [world_of fst snd].
    pose proof (ideal_copy opts key _
                  (deployable_with_keys opts key _ 384
                     (deployable_with_dir opts key w 448 Hdep))) as E.
    change (keys_text (with_dir w 448)) with (keys_text w) in E.
    rewrite E, Hf. cbn [result_of world_of trace_of fst snd].
    repeat split; reflexivity.
Qed.

End TwoRuns.

Lemma escape_key_round_trip_witness :
  let opts := Demo.alice_box in
  let key := "it's" in
  let w := Demo.remote_with EmptyString in
  strlen (quote_escape key) <= MAX_KEY_SIZE - 2
  /\ strlen (ssh_line opts (echo_remote (quote_escape key))) <= MAX_CMD_LEN - 1
  /\ Ideal.has_ssh w = true /\ Ideal.remote_up w = true
  /\ session_ok opts /\ key_ok key = true /\ Ideal.remote_dir w <> None
  /\ escape_key key = "it'\''s"
  /\ append_cmd opts key
     = ssh_line opts ("echo " ++ ("'" ++ escape_key key ++ "'") ++ Ideal.append_tail)
  /\ Sh.word false (("'" ++ escape_key key ++ "'") ++ Ideal.append_tail)
     = Some (key, Ideal.append_tail)
  /\ os_system (append_cmd opts key) w
     = (0, Ideal.with_keys w (Ideal.keys_text w ++ key ++ nl) 384).
Proof.
  intros opts key w.
  assert (L : strlen (quote_escape key) <= MAX_KEY_SIZE - 2) by (vm_compute; discriminate).
  assert (F : strlen (ssh_line opts (echo_remote (quote_escape key))) <= MAX_CMD_LEN - 1)
    by (vm_compute; discriminate).
  assert (S : session_ok opts).
  { repeat split; try reflexivity. vm_compute. discriminate. }
  assert (N : Ideal.remote_dir w <> None) by discriminate.
  split; [exact L|]. split; [exact F|]. split; [reflexivity|]. split; [reflexivity|].
  split; [exact S|]. split; [reflexivity|]. split; [exact N|].
  destruct (escape_key_round_trip opts key w) as (E & R).
  split; [exact (E L)|].
  destruct (R F) as (C & W & A).
  split; [exact C|]. split; [exact W | exact (A eq_refl eq_refl S eq_refl N)].
Defined.

Lemma two_runs_witness :
  let opts := Demo.alice_box in
  let key := Demo.key_text in
  let w := Demo.w_fresh in
  let r1 := copy_key_to_server opts key w in
  let r2 := copy_key_to_server opts key (world_of r1) in
  deployable opts key w
  /\ force opts = false
  /\ strlen (Ideal.keys_text w) + strlen key + 1 <= MAX_KEY_SIZE - 1
  /\ result_of r2 = 0
  /\ trace_of r2 = present_trace opts (Ideal.keys_text (world_of r1))
  /\ Ideal.keys_text (world_of r2) = Ideal.keys_text (world_of r1)
  /\ (Ideal.keys_text (world_of r1) = Ideal.keys_text w
      \/ Ideal.keys_text (world_of r1) = Ideal.keys_text w ++ key ++ nl).
Proof.
  intros opts key w r1 r2.
  assert (D : deployable opts key w).
  { repeat split; try reflexivity; vm_compute; discriminate. }
  split; [exact D|]. split; [reflexivity|]. split; [vm_compute; discriminate|].
  exact (proj1 (two_runs opts key w D) eq_refl ltac:(vm_compute; discriminate)).
Defined.

Section FullFile.

Import Ideal.

Lemma nul_free_replicate (n : nat) (c : ascii) :
  Ascii.eqb c zero = false -> nul_free (replicate n c) = true.
Proof.
  intros Hc. induction n as [|n IH]; [reflexivity|].
  cbn [replicate nul_free]. rewrite Hc, IH. reflexivity.
Qed.

Lemma strstr_replicate_none (n : nat) (c d : ascii) (k : string) :
  c <> d -> strstr (replicate n c) (String d k) = None.
Proof.
  intros Hcd. induction n as [|n IH]; [reflexivity|].
  cbn [replicate strstr String.prefix].
  destruct (ascii_dec d c) as [E|_]; [congruence|].
  rewrite IH. reflexivity.
Qed.

Variable n : nat.
Hypothesis Hn : Z.of_nat n = 65535.

(** What one run reads of a file of 65535 bytes followed by more is the
    65535 bytes. *)
Lemma key_in_full_file (more : string) :
  key_in (replicate n "x" ++ more) Demo.key_text = false.
Proof.
  unfold key_in.
  assert (L : strlen (replicate n "x") = 65535) by (now rewrite strlen_replicate).
  change (MAX_KEY_SIZE - 1) with 65535. rewrite <- L at 1.
  rewrite take_app_exact.
  rewrite cstr_nul_free by (apply nul_free_replicate; reflexivity).
  unfold Demo.key_text. rewrite strstr_replicate_none by discriminate.
  reflexivity.
Qed.

Lemma second_run_misses_key :
  let opts := Demo.alice_box in
  let key := Demo.key_text in
  let w := Demo.remote_with (replicate n "x") in
  let r1 := copy_key_to_server opts key w in
  let r2 := copy_key_to_server opts key (world_of r1) in
  force opts = false
  /\ trace_of r1 = appended_trace opts key (keys_text w)
  /\ trace_of r2 = appended_trace opts key (keys_text w ++ key ++ nl)
  /\ ~ already_present (trace_of r2)
  /\ key_appended (trace_of r2)
  /\ keys_text (world_of r2) = (keys_text w ++ key ++ nl) ++ key ++ nl.
Proof.
  intros opts key w r1 r2.
  assert (D : deployable opts key w).
  { refine (conj eq_refl (conj eq_refl (conj _ (conj eq_refl (conj _ _))))).
    - repeat split; try reflexivity. vm_compute. discriminate.
    - apply nul_free_replicate. reflexivity.
    - vm_compute. discriminate. }
  assert (K1 : key_in (keys_text w) key = false).
  { rewrite <- (sapp_nil_r (keys_text w)). apply key_in_full_file. }
  assert (K2 : key_in (keys_text w ++ key ++ nl) key = false).
  { apply key_in_full_file. }
  pose proof (ideal_copy opts key w D) as E1.
  rewrite K1 in E1. change (force opts) with false in E1. cbv iota in E1.
  pose proof (ideal_copy opts key _
                (deployable_with_keys opts key _ 384
                   (deployable_with_dir opts key w 448 D))) as E2.
  change (keys_text (with_dir w 448)) with (keys_text w) in E2.
  change (force opts) with false in E2. cbv iota in E2.
  change (keys_text (with_keys (with_dir w 448) (keys_text w ++ key ++ nl) 384))
    with (keys_text w ++ key ++ nl) in E2.
  rewrite K2 in E2.
  subst r2 r1. rewrite E1. cbn [world_of fst snd trace_of]. rewrite E2.
  cbn [world_of fst snd trace_of].
  split; [reflexivity|]. split; [reflexivity|]. split; [reflexivity|].
  split; [|split; [|reflexivity]].
  - unfold already_present, appended_trace. cbn [In].
    intros [Hin|[Hin|[Hin|[Hin|[Hin|[]]]]]]; discriminate Hin.
  - exists (append_cmd opts key). unfold appended_trace. cbn [In]. auto 10.
Qed.

End FullFile.

(** C2 as stated fails on a remote file that fills the 65535 bytes that
    one run reads of it: the first run appends the key after them, the
    second run does not see it there and appends it again. *)
Lemma two_runs_full_file_counterexample :
  let opts := Demo.alice_box in
  let key := Demo.key_text in
  let w := Demo.w_full in
  let r1 := copy_key_to_server opts key w in
  let r2 := copy_key_to_server opts key (world_of r1) in
  force opts = false
  /\ trace_of r1 = appended_trace opts key (Ideal.keys_text w)
  /\ trace_of r2 = appended_trace opts key (Ideal.keys_text w ++ key ++ nl)
  /\ ~ already_present (trace_of r2)
  /\ key_appended (trace_of r2)
  /\ Ideal.keys_text (world_of r2) = (Ideal.keys_text w ++ key ++ nl) ++ key ++ nl.
Proof.
  exact (second_run_misses_key (Z.to_nat 65535) (Z2Nat.id 65535 ltac:(lia))).
Qed.

(** With [force], two runs on a fresh remote leave two lines. *)
Lemma forced_runs_leave_two_lines :
  let opts := set_force Demo.alice_box true in
  let r1 := copy_key_to_server opts Demo.key_text Demo.w_fresh in
  let r2 := copy_key_to_server opts Demo.key_text (world_of r1) in
  result_of r1 = 0 /\ result_of r2 = 0
  /\ Ideal.remote_keys (world_of r2)
     = Some ("ssh-rsa AAAA me@pc" ++ nl ++ "ssh-rsa AAAA me@pc" ++ nl).
Proof. vm_compute. repeat split. Qed.

(** * Further properties of the code *)

(** ** [trim_string] and [read_public_key] *)

Section Trim.

Lemma skip_blanks_all_blank (a s : string) :
  all_blank a = true -> skip_blanks (a ++ s) = skip_blanks s.
Proof.
  induction a as [|c a IH]; [reflexivity|].
  cbn [all_blank append skip_blanks]. intros Ha. apply andb_prop in Ha.
  destruct Ha as [Hc Ha]. rewrite Hc. now apply IH.
Qed.

Lemma skip_blanks_head (s : string) (c : ascii) (s' : string) :
  skip_blanks s = String c s' -> is_blank c = false.
Proof.
  induction s as [|d s IH]; [discriminate|].
  cbn [skip_blanks]. destruct (is_blank d) eqn:E; [exact IH|].
  intros [= <- _]. exact E.
Qed.

Lemma rstrip_all_blank (b : string) : all_blank b = true -> rstrip b = EmptyString.
Proof.
  induction b as [|c b IH]; [reflexivity|].
  cbn [all_blank rstrip]. intros Hb. apply andb_prop in Hb. destruct Hb as [Hc Hb].
  rewrite (IH Hb), Hc. reflexivity.
Qed.

Lemma rstrip_app_blank (m b : string) :
  all_blank b = true -> rstrip (m ++ b) = rstrip m.
Proof.
  intros Hb. induction m as [|c m IH].
  - cbn [append rstrip]. now apply rstrip_all_blank.
  - cbn [append rstrip]. rewrite IH. reflexivity.
Qed.

Lemma rstrip_fixed (m : string) :
  m = EmptyString \/ (exists d, last_char m = Some d /\ is_blank d = false) ->
  rstrip m = m.
Proof.
  induction m as [|c m IH]; [reflexivity|].
  intros [E | (d & Hd & Hb)]; [discriminate|].
  cbn [rstrip]. destruct m as [|e m].
  - cbn in Hd. injection Hd as ->. cbn [rstrip]. rewrite Hb. reflexivity.
  - rewrite IH by (right; exists d; split; assumption).
    reflexivity.
Qed.

Lemma rstrip_idem (s : string) : rstrip (rstrip s) = rstrip s.
Proof.
  induction s as [|c s IH]; [reflexivity|].
  cbn [rstrip]. destruct (rstrip s) as [|e t] eqn:E.
  - destruct (is_blank c) eqn:B; [reflexivity|]. cbn [rstrip]. rewrite B. reflexivity.
  - cbn [rstrip] in IH |- *. rewrite IH. reflexivity.
Qed.

(** X1.  [trim_string] removes the blanks (space, tab, newline, carriage
    return) around a text that starts and ends with a character that is not
    blank, and nothing else: blanks inside the text stay. *)
Theorem trim_string_strips (a core b : string) :
  all_blank a = true -> all_blank b = true -> trimmed core ->
  trim_string (a ++ core ++ b) = core.
Proof.
  intros Ha Hb [(c & m & -> & Hc) Hlast].
  unfold trim_string. rewrite (skip_blanks_all_blank a _ Ha).
  cbn [append skip_blanks]. rewrite Hc. f_equal.
  rewrite (rstrip_app_blank m b Hb). apply rstrip_fixed.
  destruct m as [|e m]; [now left|]. right. exact Hlast.
Qed.

(** X2.  Trimming twice is trimming once. *)
Theorem trim_string_idempotent (s : string) :
  trim_string (trim_string s) = trim_string s.
Proof.
  unfold trim_string. destruct (skip_blanks s) as [|c t] eqn:E; [reflexivity|].
  cbn [skip_blanks]. rewrite (skip_blanks_head s c t E).
  now rewrite rstrip_idem.
Qed.

Lemma trim_all_blank (s : string) : all_blank s = true -> trim_string s = EmptyString.
Proof.
  intros Hs. unfold trim_string.
  rewrite <- (sapp_nil_r s), (skip_blanks_all_blank s EmptyString Hs). reflexivity.
Qed.

Lemma is_blank_not_nul (c : ascii) : is_blank c = true -> Ascii.eqb c zero = false.
Proof.
  destruct (Ascii.eqb c zero) eqn:E; [|reflexivity].
  apply Ascii.eqb_eq in E. subst c. discriminate.
Qed.

Lemma all_blank_take (n : Z) (s : string) : all_blank s = true -> all_blank (take n s) = true.
Proof.
  revert n. induction s as [|c s IH]; intros n; [reflexivity|].
  cbn [all_blank take]. intros Hs. apply andb_prop in Hs. destruct Hs as [Hc Hs].
  destruct (n <=? 0); [reflexivity|]. cbn [all_blank]. rewrite Hc. now apply IH.
Qed.

Lemma all_blank_cstr (s : string) : all_blank s = true -> all_blank (cstr s) = true.
Proof.
  induction s as [|c s IH]; [reflexivity|].
  cbn [all_blank cstr]. intros Hs. apply andb_prop in Hs. destruct Hs as [Hc Hs].
  rewrite (is_blank_not_nul c Hc). cbn [all_blank]. rewrite Hc. now apply IH.
Qed.

Lemma strlen_cstr_le (s : string) : strlen (cstr s) <= strlen s.
Proof.
  induction s as [|c s IH]; [reflexivity|].
  cbn [cstr]. pose proof (strlen_nonneg s). destruct (Ascii.eqb c zero).
  - rewrite strlen_nil, strlen_cons. lia.
  - rewrite !strlen_cons. lia.
Qed.

Lemma strlen_skip_blanks_le (s : string) : strlen (skip_blanks s) <= strlen s.
Proof.
  induction s as [|c s IH]; [reflexivity|].
  cbn [skip_blanks]. destruct (is_blank c); [rewrite strlen_cons; lia | lia].
Qed.

Lemma strlen_rstrip_le (s : string) : strlen (rstrip s) <= strlen s.
Proof.
  induction s as [|c s IH]; [reflexivity|].
  cbn [rstrip]. pose proof (strlen_nonneg s). destruct (rstrip s) as [|e t].
  - destruct (is_blank c); rewrite ?strlen_cons, ?strlen_nil; rewrite ?strlen_nil; lia.
  - rewrite !strlen_cons in *. lia.
Qed.

Lemma strlen_trim_le (s : string) : strlen (trim_string s) <= strlen s.
Proof.
  unfold trim_string. pose proof (strlen_skip_blanks_le s) as L.
  destruct (skip_blanks s) as [|c t].
  - rewrite strlen_nil. apply strlen_nonneg.
  - pose proof (strlen_rstrip_le t). rewrite strlen_cons in *. lia.
Qed.

Lemma nul_free_cstr (s : string) : nul_free (cstr s) = true.
Proof.
  induction s as [|c s IH]; [reflexivity|].
  cbn [cstr]. destruct (Ascii.eqb c zero) eqn:E; [reflexivity|].
  cbn [nul_free]. rewrite E, IH. reflexivity.
Qed.

Lemma nul_free_skip_blanks (s : string) : nul_free s = true -> nul_free (skip_blanks s) = true.
Proof.
  induction s as [|c s IH]; [reflexivity|].
  cbn [skip_blanks]. destruct (is_blank c); [|auto].
  cbn [nul_free]. intros Hs. apply andb_prop in Hs. now apply IH.
Qed.

Lemma nul_free_rstrip (s : string) : nul_free s = true -> nul_free (rstrip s) = true.
Proof.
  induction s as [|c s IH]; [reflexivity|].
  cbn [nul_free rstrip]. intros Hs. apply andb_prop in Hs. destruct Hs as [Hc Hs].
  specialize (IH Hs). destruct (rstrip s) as [|e t].
  - destruct (is_blank c); [reflexivity|]. cbn [nul_free]. now rewrite Hc.
  - cbn [nul_free] in *. now rewrite Hc, IH.
Qed.

Lemma nul_free_trim (s : string) : nul_free s = true -> nul_free (trim_string s) = true.
Proof.
  intros Hs. unfold trim_string. pose proof (nul_free_skip_blanks s Hs) as N.
  destruct (skip_blanks s) as [|c t]; [reflexivity|].
  cbn [nul_free] in *. apply andb_prop in N. destruct N as [Hc Ht].
  now rewrite Hc, nul_free_rstrip.
Qed.

End Trim.

Section ReadKey.

Context {W : Type} `{OS W}.

(** X3.  A key file that is not empty and holds only blanks is accepted:
    [read_public_key] returns 0, and the key it delivers is the empty
    string. *)
Theorem read_public_key_blank_file (key_path file : string) (w : W) :
  os_read key_path w = Some file ->
  file <> EmptyString ->
  all_blank file = true ->
  result_of (read_public_key key_path MAX_KEY_SIZE w) = (0, EmptyString).
Proof.
  intros Hr Hne Hb. rewrite read_public_key_eq, Hr. cbn [result_of fst].
  destruct file as [|c f]; [congruence|]. f_equal.
  unfold key_of_file. apply trim_all_blank, all_blank_cstr, all_blank_take. exact Hb.
Qed.

(** X4.  Whatever the file holds, the key that [read_public_key] delivers
    has at most 65535 characters, so it fits [key_content], and it holds no
    NUL. *)
Theorem read_public_key_fits (key_path : string) (w : W) :
  strlen (snd (result_of (read_public_key key_path MAX_KEY_SIZE w))) <= MAX_KEY_SIZE - 1
  /\ nul_free (snd (result_of (read_public_key key_path MAX_KEY_SIZE w))) = true.
Proof.
  rewrite read_public_key_eq. cbn [result_of fst].
  destruct (os_read key_path w) as [[|c f]|]; cbn [snd];
    try (split; [vm_compute; discriminate | reflexivity]).
  unfold key_of_file. split.
  - pose proof (strlen_trim_le (cstr (take (MAX_KEY_SIZE - 1) (String c f)))).
    pose proof (strlen_cstr_le (take (MAX_KEY_SIZE - 1) (String c f))).
    pose proof (strlen_take_le (MAX_KEY_SIZE - 1) (String c f)).
    unfold MAX_KEY_SIZE in *. lia.
  - apply nul_free_trim, nul_free_cstr.
Qed.

End ReadKey.

Lemma trim_string_strips_witness :
  all_blank "  " = true /\ all_blank nl = true /\ trimmed "ssh-rsa AAAA me@pc"
  /\ trim_string ("  " ++ "ssh-rsa AAAA me@pc" ++ nl) = "ssh-rsa AAAA me@pc".
Proof.
  assert (T : trimmed "ssh-rsa AAAA me@pc").
  { split; [do 2 eexists; split; reflexivity | eexists; split; reflexivity]. }
  split; [reflexivity|]. split; [reflexivity|]. split; [exact T|].
  exact (trim_string_strips "  " "ssh-rsa AAAA me@pc" nl eq_refl eq_refl T).
Defined.

Lemma read_public_key_blank_file_witness :
  let w := Ideal.mkWorld [] [("k.pub", nl)] true true None None 0 in
  os_read "k.pub" w = Some nl
  /\ nl <> EmptyString
  /\ all_blank nl = true
  /\ result_of (read_public_key "k.pub" MAX_KEY_SIZE w) = (0, EmptyString).
Proof.
  intros w. split; [reflexivity|]. split; [discriminate|]. split; [reflexivity|].
  exact (read_public_key_blank_file "k.pub" nl w eq_refl ltac:(discriminate) eq_refl).
Defined.

(** ** The escaping loop, for every key *)

Section EscapeAll.

Lemma thinned_nil_l (s : string) : thinned EmptyString s.
Proof. induction s; constructor; assumption. Qed.

Lemma escape_loop_escapes (s : string) (remaining : Z) :
  exists k, escape_loop s remaining = quote_escape k /\ thinned k s.
Proof.
  revert remaining. induction s as [|c s IH]; intros r.
  - exists EmptyString. split; [reflexivity | constructor].
  - cbn [escape_loop].
    destruct (r >? 1).
    + destruct (Ascii.eqb c "'") eqn:E.
      * destruct (r >=? 5).
        -- destruct (IH (r - 4)) as (k & -> & Hk). exists (String c k).
           cbn [quote_escape]. rewrite E. split; [reflexivity | now constructor].
        -- destruct (IH r) as (k & -> & Hk). exists k.
           split; [reflexivity | now constructor].
      * destruct (IH (r - 1)) as (k & -> & Hk). exists (String c k).
        cbn [quote_escape]. rewrite E. split; [reflexivity | now constructor].
    + exists EmptyString. split; [reflexivity | apply thinned_nil_l].
Qed.

Lemma quote_escape_inj (a b : string) : quote_escape a = quote_escape b -> a = b.
Proof.
  revert b. induction a as [|c a IH]; intros [|d b]; cbn [quote_escape].
  - reflexivity.
  - destruct (Ascii.eqb d "'"); discriminate.
  - destruct (Ascii.eqb c "'"); discriminate.
  - destruct (Ascii.eqb c "'") eqn:Ec; destruct (Ascii.eqb d "'") eqn:Ed.
    + apply Ascii.eqb_eq in Ec, Ed. subst c d.
      cbn [append]. intros E. injection E as E. f_equal. now apply IH.
    + apply Ascii.eqb_eq in Ec. subst c. cbn [append]. intros E.
      injection E as E _. subst d. discriminate Ed.
    + apply Ascii.eqb_eq in Ed. subst d. cbn [append]. intros E.
      injection E as E _. subst c. discriminate Ec.
    + intros E. injection E as -> E. f_equal. now apply IH.
Qed.

(** X5.  For every key, what the escaping loop writes has at most 65534
    characters: with the terminator it stays inside [escaped_key]. *)
Theorem escape_key_fits (key : string) : strlen (escape_key key) <= MAX_KEY_SIZE - 2.
Proof.
  unfold escape_key. pose proof (escape_loop_bound key (MAX_KEY_SIZE - 1)) as B.
  unfold MAX_KEY_SIZE in *. lia.
Qed.

(** X6.  For every key, also one that the buffer cuts, what the escaping
    loop leaves in [escaped_key] is the whole escaping of a text: the key
    with some characters left out, and the key itself when its escaped text
    has at most 65534 characters.  A quote is written as its four
    characters or not at all, so the buffer never ends inside an escape
    sequence. *)
Theorem escape_key_escapes_thinned_key (key : string) :
  exists k, escape_key key = quote_escape k
            /\ thinned k key
            /\ (strlen (quote_escape key) <= MAX_KEY_SIZE - 2 -> k = key).
Proof.
  unfold escape_key. destruct (escape_loop_escapes key (MAX_KEY_SIZE - 1)) as (k & E & Hk).
  exists k. split; [exact E|]. split; [exact Hk|].
  intros Hlen. apply quote_escape_inj. rewrite <- E.
  apply escape_loop_exact. unfold MAX_KEY_SIZE in *. lia.
Qed.

End EscapeAll.

Lemma escape_key_escapes_thinned_key_witness :
  strlen (quote_escape "it's") <= MAX_KEY_SIZE - 2
  /\ exists k, escape_key "it's" = quote_escape k /\ thinned k "it's" /\ k = "it's".
Proof.
  assert (L : strlen (quote_escape "it's") <= MAX_KEY_SIZE - 2) by (vm_compute; discriminate).
  split; [exact L|].
  destruct (escape_key_escapes_thinned_key "it's") as (k & E & T & I).
  exists k. split; [exact E|]. split; [exact T | exact (I L)].
Defined.

(** ** [parse_target] and [parse_args], for every input *)

Section ParseMore.

Context {W : Type} `{OS W}.

Lemma parse_target_effect (target : string) (opts : Options) (w : W) :
  let r := parse_target target opts w in
  let o := snd (result_of r) in
  fst (result_of r) = 0 /\ world_of r = w /\ trace_of r = []
  /\ strlen (user o) <= 255 /\ strlen (host o) <= 255
  /\ port o = port opts /\ identity_file o = identity_file opts
  /\ key_file o = key_file opts /\ force o = force opts
  /\ dry_run o = dry_run opts /\ quiet o = quiet opts
  /\ ssh_options o = ssh_options opts /\ ssh_config o = ssh_config opts.
Proof.
  intros r o. subst o r. unfold parse_target.
  assert (Hh : forall s, strlen (take (HOST_SIZE - 1) s) <= 255)
    by (intros s; apply strlen_take_le; unfold HOST_SIZE; lia).
  destruct (strchr target "@") as [i|].
  - cbn [ret result_of world_of trace_of fst snd user host port identity_file key_file
           force dry_run quiet ssh_options ssh_config set_user set_host].
    repeat split; try apply Hh.
    unfold USER_SIZE. destruct (Z.geb_spec i 256).
    + apply strlen_take_le. lia.
    + destruct (Z.le_gt_cases 0 i).
      * pose proof (strlen_take_le i target). lia.
      * rewrite take_nonpos by lia. rewrite strlen_nil. lia.
  - unfold bind, getenv, ret.
    destruct (os_getenv "USERNAME" w);
      cbn [result_of world_of trace_of fst snd user host port identity_file key_file
             force dry_run quiet ssh_options ssh_config set_user set_host app];
      repeat split; try apply Hh.
    vm_compute. discriminate.
Qed.

(** X7.  [parse_target] returns 0, prints nothing, leaves the world as it
    is and touches no field but [user] and [host], which it fills with at
    most 255 characters each, whatever the token. *)
Theorem parse_target_frame (target : string) (opts : Options) (w : W) :
  let r := parse_target target opts w in
  let o := snd (result_of r) in
  fst (result_of r) = 0 /\ world_of r = w /\ trace_of r = []
  /\ strlen (user o) <= 255 /\ strlen (host o) <= 255
  /\ port o = port opts /\ identity_file o = identity_file opts
  /\ key_file o = key_file opts /\ force o = force opts
  /\ dry_run o = dry_run opts /\ quiet o = quiet opts
  /\ ssh_options o = ssh_options opts /\ ssh_config o = ssh_config opts.
Proof. exact (parse_target_effect target opts w). Qed.

Lemma parse_target_fields_fit (a : string) (opts : Options) (w : W) :
  fields_fit opts -> fields_fit (snd (result_of (parse_target a opts w))).
Proof.
  intros (Hu & Hh & Hi & Ho & Hc & Hk).
  destruct (parse_target_effect a opts w)
    as (_ & _ & _ & Hu' & Hh' & _ & Ei & Ek & _ & _ & _ & Eo & Ec).
  unfold fields_fit, USER_SIZE, HOST_SIZE. rewrite Ei, Ek, Eo, Ec.
  repeat split; try assumption; lia.
Qed.

Lemma parse_args_from_fields_fit (prog : string) (n : nat) :
  forall (args : list string) (opts : Options) (tf : bool) (w : W),
    (length args <= n)%nat ->
    fields_fit opts ->
    match result_of (parse_args_from prog args opts tf w) with
    | PRet _ o => fields_fit o
    | PExit _ => True
    end.
Proof.
  induction n as [|n IH]; intros args opts tf w Hlen Hfit.
  - destruct args; [|cbn in Hlen; lia].
    cbn [parse_args_from].
    destruct (negb tf && negb (nonempty (host opts))); exact Hfit.
  - destruct args as [|a rest].
    { apply IH; [cbn; lia | exact Hfit]. }
    cbn [length] in Hlen. cbn [parse_args_from].
    assert (Hrest : (length rest <= n)%nat) by lia.
    assert (Hopt : forall (f : string -> Options),
               (forall v, fields_fit (f v)) ->
               match result_of (match rest with
                                | v :: rest' => parse_args_from prog rest' (f v) tf
                                | [] => parse_args_from prog rest opts tf
                                end w) with
               | PRet _ o => fields_fit o
               | PExit _ => True
               end).
    { intros f Hf. destruct rest as [|v rest'].
      - apply IH; [exact Hrest | exact Hfit].
      - apply IH; [cbn in Hrest; lia | apply Hf]. }
    pose proof Hfit as (Hu & Hh & Hi & Ho & Hc & Hk).
    assert (Ht : forall n s, 0 <= n -> strlen (take n s) <= n)
      by (intros; now apply strlen_take_le).
    destruct (streq a "-h" || streq a "--help"); [exact I|].
    destruct (streq a "-i" || streq a "--identity_file").
    { apply Hopt. intros v. repeat split; try assumption.
      apply Ht. unfold MAX_PATH_LEN. lia. }
    destruct (streq a "-p" || streq a "--port").
    { apply Hopt. intros v. repeat split; assumption. }
    destruct (streq a "-f" || streq a "--force").
    { apply IH; [exact Hrest | repeat split; assumption]. }
    destruct (streq a "-n" || streq a "--dry_run").
    { apply IH; [exact Hrest | repeat split; assumption]. }
    destruct (streq a "-q" || streq a "--quiet").
    { apply IH; [exact Hrest | repeat split; assumption]. }
    destruct (streq a "-o" || streq a "--ssh_options").
    { apply Hopt. intros v. repeat split; try assumption.
      apply Ht. unfold SSH_OPTIONS_SIZE. lia. }
    destruct (streq a "-F" || streq a "--ssh_config").
    { apply Hopt. intros v. repeat split; try assumption.
      apply Ht. unfold MAX_PATH_LEN. lia. }
    destruct (negb (first_is "-" a) && negb tf).
    + unfold bind.
      pose proof (parse_target_fields_fit a opts w Hfit) as Hfit'.
      destruct (parse_target_pure a opts w) as [o' E]. rewrite E in *.
      cbn [snd result_of fst] in *.
      specialize (IH rest o' true w Hrest Hfit').
      destruct (parse_args_from prog rest o' true w) as [[p w1] t1].
      exact IH.
    + exact Hfit.
Qed.

(** X8.  Whatever the arguments, the options that [parse_args] leaves
    have every string within its array (user and host 255 characters,
    identity file and configuration file 4095, ssh options 1023), and
    [key_file] is empty: no argument sets it. *)
Theorem parse_args_fields_fit (prog : string) (args : list string) (w : W) :
  match result_of (parse_args prog args w) with
  | PRet _ o => fields_fit o
  | PExit _ => True
  end.
Proof.
  apply (parse_args_from_fields_fit prog (length args)); [lia|].
  unfold fields_fit, opts_init. cbn. repeat split; discriminate.
Qed.

Lemma parse_target_same_target (a : string) (o1 o2 : Options) (w : W) :
  user (snd (result_of (parse_target a o1 w))) = user (snd (result_of (parse_target a o2 w)))
  /\ host (snd (result_of (parse_target a o1 w))) = host (snd (result_of (parse_target a o2 w))).
Proof.
  unfold parse_target. destruct (strchr a "@").
  - split; reflexivity.
  - unfold bind, getenv, ret. destruct (os_getenv "USERNAME" w); split; reflexivity.
Qed.

(** What a run of the argument loop that returns 0 has seen: with the
    target already found, options only; otherwise one target, or options
    only and a host that was there before. *)
Lemma parse_args_from_positional (prog : string) (n : nat) :
  forall (args : list string) (opts : Options) (tf : bool) (w : W) (o : Options),
    (length args <= n)%nat ->
    result_of (parse_args_from prog args opts tf w) = PRet 0 o ->
    (positional args = [] /\ (tf = true \/ nonempty (host opts) = true)
     /\ user o = user opts /\ host o = host opts)
    \/ (tf = false
        /\ exists a, positional args = [a]
                     /\ user o = user (snd (result_of (parse_target a opts w)))
                     /\ host o = host (snd (result_of (parse_target a opts w)))).
Proof.
  induction n as [|n IH]; intros args opts tf w o Hlen.
  - destruct args; [|cbn in Hlen; lia].
    cbn [parse_args_from positional]. destruct tf.
    + cbn. intros E. injection E as <-. left. auto.
    + destruct (nonempty (host opts)) eqn:Hh.
      * cbn. intros E. injection E as <-. left. auto.
      * cbn. discriminate.
  - destruct args as [|a rest].
    { apply IH. cbn. lia. }
    cbn [length] in Hlen. cbn [parse_args_from positional]. unfold takes_value.
    assert (Hrest : (length rest <= n)%nat) by lia.
    (* an option that leaves user and host as they are *)
    assert (Hstep : forall rest' opts',
               (length rest' <= n)%nat ->
               user opts' = user opts -> host opts' = host opts ->
               result_of (parse_args_from prog rest' opts' tf w) = PRet 0 o ->
               (positional rest' = [] /\ (tf = true \/ nonempty (host opts) = true)
                /\ user o = user opts /\ host o = host opts)
               \/ (tf = false
                   /\ exists x, positional rest' = [x]
                                /\ user o = user (snd (result_of (parse_target x opts w)))
                                /\ host o = host (snd (result_of (parse_target x opts w))))).
    { intros rest' opts' Hl Hu Hh Hr.
      destruct (IH rest' opts' tf w o Hl Hr) as [(Hp & Ht & Eu & Eh)|(Ht & x & Hp & Eu & Eh)].
      - left. rewrite <- Hu, <- Hh. auto.
      - right. split; [exact Ht|]. exists x. split; [exact Hp|].
        destruct (parse_target_same_target x opts opts' w) as [Su Sh].
        rewrite Su, Sh. auto. }
    assert (Hopt : forall (f : string -> Options),
               (forall v, user (f v) = user opts /\ host (f v) = host opts) ->
               result_of (match rest with
                          | v :: rest' => parse_args_from prog rest' (f v) tf
                          | [] => parse_args_from prog rest opts tf
                          end w) = PRet 0 o ->
               (match rest with _ :: rest' => positional rest' | [] => [] end = []
                /\ (tf = true \/ nonempty (host opts) = true)
                /\ user o = user opts /\ host o = host opts)
               \/ (tf = false
                   /\ exists x, match rest with _ :: rest' => positional rest' | [] => [] end = [x]
                                /\ user o = user (snd (result_of (parse_target x opts w)))
                                /\ host o = host (snd (result_of (parse_target x opts w))))).
    { intros f Hf. destruct rest as [|v rest'].
      - intros Hr. exact (Hstep [] opts Hrest eq_refl eq_refl Hr).
      - destruct (Hf v) as [Hu Hh]. apply Hstep; [cbn in Hrest; lia | exact Hu | exact Hh]. }
    destruct (streq a "-h" || streq a "--help") eqn:Ehelp; [discriminate|].
    destruct (streq a "-i" || streq a "--identity_file") eqn:Ei.
    { cbn [orb]. apply Hopt. intros v. split; reflexivity. }
    cbn [orb].
    destruct (streq a "-p" || streq a "--port") eqn:Ep.
    { cbn [orb]. apply Hopt. intros v. split; reflexivity. }
    cbn [orb].
    destruct (streq a "-f" || streq a "--force") eqn:Ef.
    { assert (Hd : first_is "-" a = true
                   /\ (streq a "-o" || streq a "--ssh_options" || streq a "-F"
                       || streq a "--ssh_config") = false).
      { apply orb_prop in Ef. destruct Ef as [E|E]; apply String.eqb_eq in E; subst a;
          split; reflexivity. }
      destruct Hd as [Hd Ho]. rewrite Ho, Hd. apply Hstep; [exact Hrest | reflexivity | reflexivity]. }
    destruct (streq a "-n" || streq a "--dry_run") eqn:En.
    { assert (Hd : first_is "-" a = true
                   /\ (streq a "-o" || streq a "--ssh_options" || streq a "-F"
                       || streq a "--ssh_config") = false).
      { apply orb_prop in En. destruct En as [E|E]; apply String.eqb_eq in E; subst a;
          split; reflexivity. }
      destruct Hd as [Hd Ho]. rewrite Ho, Hd. apply Hstep; [exact Hrest | reflexivity | reflexivity]. }
    destruct (streq a "-q" || streq a "--quiet") eqn:Eq.
    { assert (Hd : first_is "-" a = true
                   /\ (streq a "-o" || streq a "--ssh_options" || streq a "-F"
                       || streq a "--ssh_config") = false).
      { apply orb_prop in Eq. destruct Eq as [E|E]; apply String.eqb_eq in E; subst a;
          split; reflexivity. }
      destruct Hd as [Hd Ho]. rewrite Ho, Hd. apply Hstep; [exact Hrest | reflexivity | reflexivity]. }
    destruct (streq a "-o" || streq a "--ssh_options") eqn:Eo.
    { cbn [orb]. apply Hopt. intros v. split; reflexivity. }
    cbn [orb].
    destruct (streq a "-F" || streq a "--ssh_config") eqn:EF.
    { cbn [orb]. apply Hopt. intros v. split; reflexivity. }
    cbn [orb].
    destruct (first_is "-" a) eqn:Ed; cbn [negb andb]; [discriminate|].
    destruct tf; cbn [negb]; [discriminate|].
    destruct (parse_target_pure a opts w) as [o' Ho'].
    unfold bind at 1. rewrite Ho'. cbn [snd fst].
    destruct (parse_args_from prog rest o' true w) as [[p w2] t2] eqn:Er.
    cbn [result_of fst]. intros ->.
    destruct (IH rest o' true w o Hrest) as [(Hp & _ & Eu & Eh)|(Ht & _)];
      [rewrite Er; reflexivity | | discriminate Ht].
    right. split; [reflexivity|]. exists a. rewrite Hp. split; [reflexivity|].
    rewrite Ho'. cbn [result_of fst snd]. auto.
Qed.

(** X9.  [parse_args] returns 0 only when exactly one argument is a
    target, that is, neither a word that starts with ['-'] nor the value
    of an option that takes one; the user and the host it returns are the
    ones [parse_target] reads from that argument.  An invocation made of
    options and their values alone is never accepted. *)
Theorem parse_args_needs_target (prog : string) (args : list string) (w : W)
        (o : Options) :
  result_of (parse_args prog args w) = PRet 0 o ->
  exists a, positional args = [a]
            /\ user o = user (snd (result_of (parse_target a opts_init w)))
            /\ host o = host (snd (result_of (parse_target a opts_init w))).
Proof.
  intros Hr.
  destruct (parse_args_from_positional prog (length args) args opts_init false w o
              ltac:(lia) Hr) as [(_ & [E|E] & _)|(_ & E)];
    [discriminate E | discriminate E | exact E].
Qed.

Lemma not_a_flag (a : string) :
  first_is "-" a = false ->
  forall f, first_is "-" f = true -> streq a f = false.
Proof.
  intros Ha f Hf. unfold streq. destruct (String.eqb a f) eqn:E; [|reflexivity].
  apply String.eqb_eq in E. subst f. congruence.
Qed.

(** X10.  A target that ends in ['@'] is accepted with an empty host: the
    test for a missing host only asks whether a target was seen. *)
Theorem parse_args_accepts_empty_host (prog u : string) (w : W) :
  strchr u "@" = None ->
  first_is "-" (u ++ "@") = false ->
  exists o, parse_args prog [u ++ "@"] w = (PRet 0 o, w, [])
            /\ host o = EmptyString /\ user o = take 255 u.
Proof.
  intros Hu Hd. unfold parse_args. cbn [parse_args_from].
  rewrite !(not_a_flag _ Hd) by reflexivity. cbn [orb]. rewrite Hd. cbn [negb andb].
  unfold bind, parse_target. rewrite (strchr_app u EmptyString "@" Hu).
  cbn [ret snd]. cbn [parse_args_from negb andb nonempty].
  eexists. split; [reflexivity|]. cbn [host user set_host set_user]. split.
  - replace (u ++ "@") with ((u ++ "@") ++ EmptyString) by apply sapp_nil_r.
    rewrite (drop_app_exact (u ++ "@") EmptyString)
      by (rewrite strlen_app; reflexivity).
    reflexivity.
  - unfold USER_SIZE. destruct (Z.geb_spec (strlen u) 256).
    + apply take_app_le. lia.
    + rewrite take_app_exact. symmetry. apply take_all. lia.
Qed.

End ParseMore.

Lemma parse_args_needs_target_witness :
  let args := ["-p"; "2222"; "alice@box"] in
  let o := set_host (set_user (set_port opts_init 2222) "alice") "box" in
  result_of (parse_args Demo.prog args Demo.w_fresh) = PRet 0 o
  /\ positional args = ["alice@box"]
  /\ exists a, positional args = [a]
               /\ user o = user (snd (result_of (parse_target a opts_init Demo.w_fresh)))
               /\ host o = host (snd (result_of (parse_target a opts_init Demo.w_fresh))).
Proof.
  intros args o. split; [reflexivity|]. split; [reflexivity|].
  exact (parse_args_needs_target Demo.prog args Demo.w_fresh o eq_refl).
Defined.

Lemma parse_args_accepts_empty_host_witness :
  strchr "alice" "@" = None
  /\ first_is "-" ("alice" ++ "@") = false
  /\ exists o, parse_args Demo.prog ["alice" ++ "@"] Demo.w_fresh = (PRet 0 o, Demo.w_fresh, [])
               /\ host o = EmptyString /\ user o = take 255 "alice".
Proof.
  split; [reflexivity|]. split; [reflexivity|].
  exact (parse_args_accepts_empty_host Demo.prog "alice" Demo.w_fresh eq_refl eq_refl).
Defined.

(** ** The key path and the private key derived from it *)

Section KeyPathMore.

Context {W : Type} `{OS W}.

(** X11.  An explicit key file wins over the identity file: a non-empty
    [key_file] of at most 4095 characters that does not start with ['~'] is
    the path returned, whatever [identity_file] holds. *)
Theorem key_file_takes_precedence (opts : Options) (w : W) :
  key_file opts <> EmptyString ->
  strlen (key_file opts) <= 4095 ->
  first_is "~" (key_file opts) = false ->
  get_public_key_path opts MAX_PATH_LEN w = ((0, key_file opts), w, []).
Proof.
  intros Hne Hlen Ht. rewrite get_public_key_path_eq. do 3 f_equal.
  unfold key_path_of. rewrite (nonempty_true _ Hne).
  change (usub MAX_PATH_LEN 1) with 4095.
  rewrite (take_all 4095 _ Hlen), Ht. reflexivity.
Qed.

Lemma first_is_take_app (c : ascii) (n : Z) (h r : string) :
  0 < n -> first_is c h = false -> first_is c r = false ->
  first_is c (take n (h ++ r)) = false.
Proof.
  intros Hn Hh Hr. destruct h as [|d h]; cbn [append].
  - destruct r as [|e r]; [reflexivity|]. cbn [take].
    destruct (Z.leb_spec n 0); [lia | exact Hr].
  - cbn [take]. destruct (Z.leb_spec n 0); [lia | exact Hh].
Qed.

(** X12.  With neither key file nor identity file, the path is
    [\.ssh\id_rsa.pub] under the value of [USERPROFILE] (cut to 4095
    characters), or under ["."] when the variable is not set; the whole is
    cut to 4095 characters.  (A home directory that starts with ['~'] is
    left aside.) *)
Theorem default_key_path (opts : Options) (w : W) :
  key_file opts = EmptyString ->
  identity_file opts = EmptyString ->
  let home := match os_getenv "USERPROFILE" w with
              | Some v => take 4095 v
              | None => "."
              end in
  first_is "~" home = false ->
  get_public_key_path opts MAX_PATH_LEN w
  = ((0, take 4095 (home ++ "\.ssh\id_rsa.pub")), w, []).
Proof.
  intros Hk Hi home Hh. rewrite get_public_key_path_eq. do 3 f_equal.
  unfold key_path_of. rewrite Hk, Hi. cbn [nonempty].
  change (MAX_PATH_LEN - 1) with 4095.
  assert (E : match option_map (take 4095) (os_getenv "USERPROFILE" w) with
              | Some h => h | None => "." end = home).
  { subst home. destruct (os_getenv "USERPROFILE" w); reflexivity. }
  rewrite E.
  rewrite (first_is_take_app "~" 4095 home "\.ssh\id_rsa.pub" ltac:(lia) Hh eq_refl).
  reflexivity.
Qed.

(** X13.  [get_public_key_path] always returns 0, prints nothing, leaves
    the world as it is, and the path it writes has at most 4095 characters:
    it stays inside [key_path]. *)
Theorem get_public_key_path_total (opts : Options) (w : W) :
  let r := get_public_key_path opts MAX_PATH_LEN w in
  fst (result_of r) = 0 /\ world_of r = w /\ trace_of r = []
  /\ strlen (snd (result_of r)) <= MAX_PATH_LEN - 1.
Proof.
  intros r. subst r. rewrite get_public_key_path_eq.
  cbn [result_of world_of trace_of fst snd].
  repeat split. apply key_path_of_fits.
Qed.

Lemma prefix_pub_app (s t : string) :
  s <> EmptyString ->
  String.prefix ".pub" s = false ->
  first_is "." t = true ->
  String.prefix ".pub" (s ++ t) = false.
Proof.
  intros Hs Hp Ht. destruct t as [|d t]; [discriminate|].
  cbn [first_is] in Ht. apply Ascii.eqb_eq in Ht. subst d.
  destruct s as [|c1 [|c2 [|c3 [|c4 s4]]]]; [congruence|..];
    cbn [append String.prefix] in *;
    repeat match goal with
      | |- context [ascii_dec ?a ?b] => destruct (ascii_dec a b); try subst
      | Hx : context [ascii_dec ?a ?b] |- _ => destruct (ascii_dec a b); try subst
      end;
    try reflexivity; try congruence; try discriminate.
  destruct s4; discriminate Hp.
Qed.

Lemma strstr_first_pub (a b : string) :
  strstr a ".pub" = None -> strstr (a ++ ".pub" ++ b) ".pub" = Some (strlen a).
Proof.
  induction a as [|c a IH]; intros Hno.
  - cbn [append]. change (String "." (String "p" (String "u" (String "b" b))))
      with (".pub" ++ b).
    destruct (".pub" ++ b) eqn:E; [discriminate E|].
    cbn [strstr]. rewrite <- E, prefix_app. reflexivity.
  - cbn [strstr] in Hno.
    destruct (String.prefix ".pub" (String c a)) eqn:P; [discriminate|].
    destruct (strstr a ".pub") eqn:S; [discriminate|].
    change ((String c a) ++ ".pub" ++ b) with (String c (a ++ ".pub" ++ b)).
    cbn [strstr].
    change (String c (a ++ ".pub" ++ b)) with ((String c a) ++ (".pub" ++ b)).
    rewrite (prefix_pub_app (String c a) (".pub" ++ b)) by (try discriminate; auto).
    rewrite IH by reflexivity. cbn [option_map]. rewrite strlen_cons. f_equal. lia.
Qed.

(** X14.  The private-key path that [main] and [test_connection] derive
    from a key path is the text before its first [".pub"], whatever
    follows: for [a.pub] it is [a], and for [a.pub] followed by more it is
    [a] as well. *)
Theorem cut_at_pub_first (a b : string) :
  strstr a ".pub" = None -> cut_at_pub (a ++ ".pub" ++ b) = a.
Proof.
  intros Hno. unfold cut_at_pub. rewrite (strstr_first_pub a b Hno).
  apply take_app_exact.
Qed.

(** X15.  From an identity file without [".pub"] in it (at most 4091
    characters, no leading ['~'], no explicit key file), [test_connection]
    comes back to the identity file itself: it is the key handed to
    [ssh -i], and the status of that one command is what is returned. *)
Theorem test_connection_uses_identity (opts : Options) (w : W) :
  key_file opts = EmptyString ->
  identity_file opts <> EmptyString ->
  strlen (identity_file opts) <= 4091 ->
  strstr (identity_file opts) ".pub" = None ->
  first_is "~" (identity_file opts) = false ->
  let cmd := test_key_line opts (identity_file opts) in
  test_connection opts w
  = (fst (os_system cmd w), snd (os_system cmd w),
     [Out ("Testing connection with key..." ++ nl); Call AtTestKey cmd (fst (os_system cmd w))]).
Proof.
  intros Hk Hne Hlen Hno Ht cmd.
  assert (E : key_path_in opts w = identity_file opts ++ ".pub").
  { unfold key_path_in, key_path_of. rewrite Hk. cbn [nonempty].
    rewrite (nonempty_true _ Hne). cbv zeta.
    change (usub MAX_PATH_LEN 1) with 4095.
    rewrite (take_all 4095 (identity_file opts)) by lia. rewrite Hno.
    pose proof (strlen_nonneg (identity_file opts)). unfold MAX_PATH_LEN.
    rewrite (usub_small 4096) by (unfold size_max; lia).
    rewrite usub_small by (unfold size_max; lia).
    rewrite (take_all _ ".pub") by (change (strlen ".pub") with 4; lia).
    destruct (identity_file opts) as [|c i]; [congruence|].
    cbn [first_is append] in *. rewrite Ht. reflexivity. }
  unfold test_connection, bind. rewrite get_public_key_path_eq.
  change (key_path_of _ opts MAX_PATH_LEN) with (key_path_in opts w).
  cbn [snd]. rewrite E.
  replace (identity_file opts ++ ".pub") with (identity_file opts ++ ".pub" ++ EmptyString)
    by reflexivity.
  unfold cut_at_pub. rewrite (strstr_first_pub _ EmptyString Hno).
  rewrite take_app_exact.
  unfold printf, system. fold cmd. destruct (os_system cmd w) as [r w']. reflexivity.
Qed.

End KeyPathMore.

Lemma key_file_takes_precedence_witness :
  let opts := mkOptions "alice" "box" 22 "C:\keys\id_ed25519" "D:\other.pub"
                        false false false EmptyString EmptyString in
  key_file opts <> EmptyString
  /\ strlen (key_file opts) <= 4095
  /\ first_is "~" (key_file opts) = false
  /\ get_public_key_path opts MAX_PATH_LEN Demo.w_fresh = ((0, "D:\other.pub"), Demo.w_fresh, []).
Proof.
  intros opts. split; [discriminate|]. split; [vm_compute; discriminate|].
  split; [reflexivity|].
  exact (key_file_takes_precedence opts Demo.w_fresh ltac:(discriminate)
           ltac:(vm_compute; discriminate) eq_refl).
Defined.

Lemma default_key_path_witness :
  key_file Demo.alice_box = EmptyString
  /\ identity_file Demo.alice_box = EmptyString
  /\ first_is "~" "C:\Users\me" = false
  /\ get_public_key_path Demo.alice_box MAX_PATH_LEN Demo.w_fresh
     = ((0, "C:\Users\me\.ssh\id_rsa.pub"), Demo.w_fresh, []).
Proof.
  split; [reflexivity|]. split; [reflexivity|]. split; [reflexivity|].
  exact (default_key_path Demo.alice_box Demo.w_fresh eq_refl eq_refl eq_refl).
Defined.

Lemma cut_at_pub_first_witness :
  strstr "C:\keys" ".pub" = None
  /\ cut_at_pub ("C:\keys" ++ ".pub" ++ "\id_rsa.pub") = "C:\keys".
Proof.
  split; [reflexivity|].
  exact (cut_at_pub_first "C:\keys" "\id_rsa.pub" eq_refl).
Defined.

Lemma test_connection_uses_identity_witness :
  let opts := set_identity_file Demo.alice_box "C:\keys\id_ed25519" in
  key_file opts = EmptyString
  /\ identity_file opts <> EmptyString
  /\ strlen (identity_file opts) <= 4091
  /\ strstr (identity_file opts) ".pub" = None
  /\ first_is "~" (identity_file opts) = false
  /\ test_connection opts Demo.w_fresh
     = (0, Demo.w_fresh,
        [Out ("Testing connection with key..." ++ nl);
         Call AtTestKey (test_key_line opts "C:\keys\id_ed25519") 0]).
Proof.
  intros opts. split; [reflexivity|]. split; [discriminate|].
  split; [vm_compute; discriminate|]. split; [reflexivity|]. split; [reflexivity|].
  exact (test_connection_uses_identity opts Demo.w_fresh eq_refl ltac:(discriminate)
           ltac:(vm_compute; discriminate) eq_refl eq_refl).
Defined.

(** ** [copy_key_to_server], for every environment *)

Section CopyMore.

Context {W : Type} `{OS W}.

(** X16.  A run of [copy_key_to_server] ends in one of two ways: it
    prints that the key already exists, returns 0 and has run no append
    command; or it has run the append command once and returns the status
    of that command.  The status of the directory set-up plays no part. *)
Theorem copy_key_to_server_outcomes (opts : Options) (key : string) (w : W) :
  let r := copy_key_to_server opts key w in
  (In (Out present_msg) (trace_of r) /\ result_of r = 0
   /\ filter is_append (trace_of r) = [])
  \/ (filter is_append (trace_of r)
        = [Call AtAppend (append_cmd opts key) (result_of r)]
      /\ ~ In (Out present_msg) (trace_of r)).
Proof.
  intros r. subst r. destruct (copy_key_to_server_runs opts key w).
  - right. split; [reflexivity|].
    cbn [In]. intros [E|[E|[E|[E|[]]]]]; discriminate E.
  - left. split; [cbn [In]; auto 10|]. split; reflexivity.
  - right. split; [reflexivity|].
    cbn [In]. intros [E|[E|[E|[E|[E|[]]]]]]; discriminate E.
Qed.

(** X17.  The remote file is fetched exactly when [force] is off: with
    [force] the trace has no pipe, without it the trace has one, on the
    [cat] command. *)
Theorem copy_key_to_server_pipe (opts : Options) (key : string) (w : W) :
  let t := trace_of (copy_key_to_server opts key w) in
  if force opts then filter is_pipe t = []
  else exists out, filter is_pipe t = [Pipe (check_cmd opts) out].
Proof.
  intros t. subst t. destruct (copy_key_to_server_runs opts key w) as [? ? ? ? F|? ? ? ? F|? ? ? ? ? ? F];
    rewrite F; [reflexivity | eexists; reflexivity | eexists; reflexivity].
Qed.

(** X18.  When the pipe cannot be opened, the check is skipped and the
    key is appended. *)
Theorem copy_key_to_server_pipe_fails (opts : Options) (key : string) (w : W) :
  force opts = false ->
  fst (os_popen (check_cmd opts) (snd (os_system (mkdir_cmd opts) w))) = None ->
  let r := copy_key_to_server opts key w in
  In (Call AtAppend (append_cmd opts key) (result_of r)) (trace_of r)
  /\ ~ In (Out present_msg) (trace_of r).
Proof.
  intros Hf Hp r. subst r.
  destruct (copy_key_to_server_runs opts key w) as [? ? ? ? F|? ? ? ? F E1 E2|? ? ? ? ? ? F].
  - congruence.
  - rewrite E1 in Hp. cbn [snd] in Hp. rewrite E2 in Hp. discriminate Hp.
  - split; [cbn [In]; auto 10|].
    cbn [In]. intros [E|[E|[E|[E|[E|[]]]]]]; discriminate E.
Qed.

Lemma take_app_ge (n : Z) (x y : string) :
  strlen x <= n -> take n (x ++ y) = x ++ take (n - strlen x) y.
Proof.
  revert n. induction x as [|c x IH]; intros n Hn.
  - cbn [append]. rewrite strlen_nil. f_equal. lia.
  - rewrite strlen_cons in Hn. pose proof (strlen_nonneg x).
    cbn [append take]. destruct (Z.leb_spec n 0); [lia|].
    rewrite IH by lia.
    assert (E : n - 1 - strlen x = n - strlen (String c x))
      by (rewrite strlen_cons; lia).
    rewrite E. reflexivity.
Qed.

Lemma cstr_app (x y : string) : nul_free x = true -> cstr (x ++ y) = x ++ cstr y.
Proof.
  induction x as [|c x IH]; [reflexivity|].
  cbn [nul_free append cstr]. intros Hx. apply andb_prop in Hx. destruct Hx as [Hc Hx].
  apply negb_true_iff in Hc. rewrite Hc, IH by exact Hx. reflexivity.
Qed.

Lemma key_in_substring (a key b : string) :
  nul_free (a ++ key) = true ->
  strlen a + strlen key <= MAX_KEY_SIZE - 1 ->
  key_in (a ++ key ++ b) key = true.
Proof.
  intros Hn Hlen. unfold key_in.
  replace (a ++ key ++ b) with ((a ++ key) ++ b) by apply sapp_assoc.
  rewrite take_app_ge by (rewrite strlen_app; lia).
  rewrite cstr_app by exact Hn. rewrite sapp_assoc.
  destruct (strstr_occurs a key (cstr (take (MAX_KEY_SIZE - 1 - strlen (a ++ key)) b)))
    as [i ->].
  reflexivity.
Qed.

(** X19.  The check is containment, not comparison of lines: when the
    fetched content holds the key text anywhere in its first 65535 bytes,
    with no NUL up to its end, also inside a longer line, the run reports
    the key as already present, returns 0 and appends nothing. *)
Theorem copy_key_to_server_substring (opts : Options) (key a b : string) (w : W) :
  force opts = false ->
  fst (os_popen (check_cmd opts) (snd (os_system (mkdir_cmd opts) w)))
    = Some (a ++ key ++ b) ->
  nul_free (a ++ key) = true ->
  strlen a + strlen key <= MAX_KEY_SIZE - 1 ->
  let r := copy_key_to_server opts key w in
  result_of r = 0 /\ In (Out present_msg) (trace_of r)
  /\ filter is_append (trace_of r) = [].
Proof.
  intros Hf Hp Hn Hlen r. subst r.
  pose proof (key_in_substring a key b Hn Hlen) as K.
  destruct (copy_key_to_server_runs opts key w)
    as [? ? ? ? F|? ? ? ? F E1 E2|? ? ? ? ? ? F E1 E2 Hno].
  - congruence.
  - split; [reflexivity|]. split; [cbn [In]; auto 10 | reflexivity].
  - rewrite E1 in Hp. cbn [snd] in Hp. rewrite E2 in Hp. cbn [fst] in Hp.
    rewrite (Hno _ Hp) in K. discriminate K.
Qed.

(** X20.  An empty key is in every fetched content: without [force], and
    when the pipe can be opened, a run with the empty key always reports
    that the key already exists, returns 0 and appends nothing. *)
Theorem copy_key_to_server_empty_key (opts : Options) (out : string) (w : W) :
  force opts = false ->
  fst (os_popen (check_cmd opts) (snd (os_system (mkdir_cmd opts) w))) = Some out ->
  let r := copy_key_to_server opts EmptyString w in
  result_of r = 0 /\ In (Out present_msg) (trace_of r)
  /\ filter is_append (trace_of r) = [].
Proof.
  intros Hf Hp r. subst r.
  assert (K : forall o, key_in o EmptyString = true).
  { intros o. unfold key_in.
    destruct (cstr (take (MAX_KEY_SIZE - 1) o)); reflexivity. }
  destruct (copy_key_to_server_runs opts EmptyString w)
    as [? ? ? ? F|? ? ? ? F E1 E2|? ? ? ? ? ? F E1 E2 Hno].
  - congruence.
  - split; [reflexivity|]. split; [cbn [In]; auto 10 | reflexivity].
  - rewrite E1 in Hp. cbn [snd] in Hp. rewrite E2 in Hp. cbn [fst] in Hp.
    specialize (K out). rewrite (Hno _ Hp) in K. discriminate K.
Qed.

End CopyMore.

Lemma copy_key_to_server_pipe_fails_witness :
  let w := Scripted.Down in
  force Demo.alice_box = false
  /\ fst (os_popen (check_cmd Demo.alice_box)
            (snd (os_system (mkdir_cmd Demo.alice_box) w))) = None
  /\ In (Call AtAppend (append_cmd Demo.alice_box Demo.key_text)
           (result_of (copy_key_to_server Demo.alice_box Demo.key_text w)))
        (trace_of (copy_key_to_server Demo.alice_box Demo.key_text w))
  /\ ~ In (Out present_msg) (trace_of (copy_key_to_server Demo.alice_box Demo.key_text w)).
Proof.
  intros w. split; [reflexivity|]. split; [reflexivity|].
  exact (copy_key_to_server_pipe_fails Demo.alice_box Demo.key_text w eq_refl eq_refl).
Defined.

Lemma copy_key_to_server_substring_witness :
  let w := Demo.remote_with ("x" ++ Demo.key_text ++ "-old" ++ nl) in
  let r := copy_key_to_server Demo.alice_box Demo.key_text w in
  force Demo.alice_box = false
  /\ fst (os_popen (check_cmd Demo.alice_box)
            (snd (os_system (mkdir_cmd Demo.alice_box) w)))
     = Some ("x" ++ Demo.key_text ++ "-old" ++ nl)
  /\ nul_free ("x" ++ Demo.key_text) = true
  /\ strlen "x" + strlen Demo.key_text <= MAX_KEY_SIZE - 1
  /\ result_of r = 0 /\ In (Out present_msg) (trace_of r)
  /\ filter is_append (trace_of r) = [].
Proof.
  intros w r. split; [reflexivity|]. split; [reflexivity|]. split; [reflexivity|].
  split; [vm_compute; discriminate|].
  exact (copy_key_to_server_substring Demo.alice_box Demo.key_text "x" ("-old" ++ nl) w
           eq_refl eq_refl eq_refl ltac:(vm_compute; discriminate)).
Defined.

Lemma copy_key_to_server_empty_key_witness :
  let w := Demo.w_fresh in
  let r := copy_key_to_server Demo.alice_box EmptyString w in
  force Demo.alice_box = false
  /\ fst (os_popen (check_cmd Demo.alice_box)
            (snd (os_system (mkdir_cmd Demo.alice_box) w))) = Some EmptyString
  /\ result_of r = 0 /\ In (Out present_msg) (trace_of r)
  /\ filter is_append (trace_of r) = [].
Proof.
  intros w r. split; [reflexivity|]. split; [reflexivity|].
  exact (copy_key_to_server_empty_key Demo.alice_box EmptyString w eq_refl eq_refl).
Defined.

(** ** What a successful append leaves on the modelled remote *)

(** X21.  On the modelled remote, for a deployable session, key and
    world: a run that appends (with [force], or when the key is not found
    in the file) returns 0 and leaves the file with one more line that is
    exactly the key, the directory with mode 700 and the file with mode
    600. *)
Theorem append_writes_key_line (opts : Options) (key : string) (w : Ideal.World) :
  deployable opts key w ->
  force opts = true \/ key_in (Ideal.keys_text w) key = false ->
  let r := copy_key_to_server opts key w in
  result_of r = 0
  /\ Ideal.remote_keys (world_of r) = Some (Ideal.keys_text w ++ key ++ nl)
  /\ Ideal.remote_dir (world_of r) = Some 448
  /\ Ideal.remote_keys_mode (world_of r) = 384.
Proof.
  intros D Hc r. subst r. rewrite (ideal_copy opts key w D).
  destruct (force opts).
  - repeat split.
  - destruct Hc as [Hc|Hc]; [discriminate|]. rewrite Hc. repeat split.
Qed.

Lemma append_writes_key_line_witness :
  let r := copy_key_to_server Demo.alice_box "it's" Demo.w_fresh in
  deployable Demo.alice_box "it's" Demo.w_fresh
  /\ (force Demo.alice_box = true \/ key_in (Ideal.keys_text Demo.w_fresh) "it's" = false)
  /\ result_of r = 0
  /\ Ideal.remote_keys (world_of r) = Some ("it's" ++ nl)
  /\ Ideal.remote_dir (world_of r) = Some 448
  /\ Ideal.remote_keys_mode (world_of r) = 384.
Proof.
  intros r.
  assert (D : deployable Demo.alice_box "it's" Demo.w_fresh).
  { repeat split; try reflexivity; vm_compute; discriminate. }
  split; [exact D|]. split; [right; reflexivity|].
  exact (append_writes_key_line Demo.alice_box "it's" Demo.w_fresh D (or_intror eq_refl)).
Defined.

(** ** [main], for every environment *)

Section MainMore.

Context {W : Type} `{OS W}.

Lemma copy_run_in (opts : Options) (key : string) (w : W) (r : Z) (w' : W)
      (tc : list event) (e : event) :
  copy_run opts key w r w' tc -> In e tc ->
  e = Out creating_msg \/ e = Out adding_msg \/ e = Out present_msg
  \/ (exists rm, e = Call AtMkdir (mkdir_cmd opts) rm)
  \/ (exists fp, e = Pipe (check_cmd opts) fp)
  \/ e = Call AtAppend (append_cmd opts key) r.
Proof.
  intros Hc Hin. destruct Hc; cbn [In] in Hin;
    repeat (destruct Hin as [<-|Hin]; [eauto 10|]); destruct Hin.
Qed.



Lemma key_of_file_blank (file : string) :
  all_blank file = true -> key_of_file file = EmptyString.
Proof.
  intros Hb. unfold key_of_file. apply trim_all_blank.
  apply all_blank_cstr. apply all_blank_take. exact Hb.
Qed.

Ltac copy_cases :=
  repeat match goal with
    | Hc : copy_run _ _ _ _ _ ?tc, Hin : In _ ?tc |- _ =>
        apply (copy_run_in _ _ _ _ _ _ _ Hc) in Hin;
        destruct Hin as [Hin|[Hin|[Hin|[[? Hin]|[[? Hin]|Hin]]]]]
    end.

Ltac split_if :=
  try match goal with
    | Hin : In _ ?t |- _ =>
        match t with context [if os_stat ?p ?w then _ else _] => destruct (os_stat p w) end
    end.

Ltac same_parse Hparse :=
  match goal with
  | Hp : parse_args _ _ _ = _ |- _ =>
      rewrite Hp in Hparse; cbn [result_of fst] in Hparse;
      first [discriminate Hparse | injection Hparse as ->]
  end.

(** X22.  [main] returns 1 exactly when it has written to the error
    stream: every failure is reported there, and nothing is written there
    by a run that returns 0. *)
Theorem failure_iff_stderr (prog : string) (args : list string) (w : W) :
  let r := main prog args w in
  result_of r = 1 <-> exists s, In (Err s) (trace_of r).
Proof.
  intros r. subst r.
  destruct (main prog args w) as [[r w'] t] eqn:Hm.
  apply main_runs_aux in Hm. cbn [result_of trace_of fst snd].
  destruct Hm;
    (split; [intros Hr; try discriminate Hr; eexists; find_in
            | intros [s Hin]; try reflexivity; exfalso;
              in_cases; copy_cases; subst; try discriminate]).
  all: destruct (_ =? 0); discriminate.
Qed.

(** X23.  A remote call is made only after the local checks: when the
    trace of [main] has a remote call, the arguments parsed with [dry_run]
    off, the search for the client returned 0, and the key file was read
    and gave at least one byte. *)
Theorem remote_call_preconditions (prog : string) (args : list string) (w : W)
        (e : event) :
  let t := trace_of (main prog args w) in
  In e t -> is_remote e = true ->
  exists opts p file,
    result_of (parse_args prog args w) = PRet 0 opts /\ dry_run opts = false
    /\ In (Call AtWhere where_cmd 0) t
    /\ In (Read p (Some file)) t /\ file <> EmptyString.
Proof.
  intros t. subst t.
  destruct (main prog args w) as [[r w'] t] eqn:Hm.
  apply main_runs_aux in Hm. cbn [result_of trace_of fst snd].
  intros Hin Hrem.
  destruct Hm;
    try (exfalso; split_if; in_cases; subst; discriminate Hrem);
    match goal with Hp : parse_args _ _ _ = _ |- _ => rewrite Hp end;
    exists opts, key_path, file;
    (split; [reflexivity|]); (split; [assumption|]);
    (split; [left; reflexivity|]);
    (split; [right; apply in_or_app; right; left; reflexivity | assumption]).
Qed.

(** X24.  A failed connection test ends the run: [main] returns 1 and the
    test is the only remote call of the run. *)
Theorem failed_connection_stops (prog : string) (args : list string) (w : W)
        (cmd : string) (r : Z) :
  let t := trace_of (main prog args w) in
  In (Call AtTestConn cmd r) t -> r <> 0 ->
  result_of (main prog args w) = 1
  /\ forall e, In e t -> is_remote e = true -> e = Call AtTestConn cmd r.
Proof.
  intros t. subst t.
  destruct (main prog args w) as [[r0 w'] t] eqn:Hm.
  apply main_runs_aux in Hm. cbn [result_of trace_of fst snd].
  intros Hin Hr.
  destruct Hm;
    try (exfalso; split_if; in_cases; copy_cases; subst; try discriminate;
         match goal with E : Call _ _ _ = Call _ _ _ |- _ =>
           injection E; intros; subst; congruence end).
  split; [reflexivity|]. intros e He Hrem.
  in_cases; subst; try discriminate.
  all: match goal with E : Call _ _ _ = Call _ _ _ |- _ =>
         injection E; intros; subst; try reflexivity end.
  all: try discriminate.
Qed.

(** X25.  The connection test with the key is advisory: it is made only
    by a run that is not quiet, has printed that the key was copied and
    returns 0 whatever the status of the test, and the result of the test
    is printed on the standard output. *)
Theorem key_test_is_advisory (prog : string) (args : list string) (w : W)
        (cmd : string) (rk : Z) :
  let t := trace_of (main prog args w) in
  In (Call AtTestKey cmd rk) t ->
  result_of (main prog args w) = 0
  /\ In (Out copied_msg) t
  /\ In (Out (if rk =? 0 then key_works_msg else key_failed_msg)) t
  /\ exists opts, result_of (parse_args prog args w) = PRet 0 opts /\ quiet opts = false.
Proof.
  intros t. subst t.
  destruct (main prog args w) as [[r0 w'] t] eqn:Hm.
  apply main_runs_aux in Hm. cbn [result_of trace_of fst snd].
  intros Hin.
  destruct Hm;
    try (exfalso; split_if; in_cases; copy_cases; subst; discriminate).
  assert (E : rk0 = rk).
  { in_cases; copy_cases; subst; try discriminate.
    match goal with E : Call _ _ _ = Call _ _ _ |- _ => injection E; intros; subst end.
    reflexivity. }
  subst rk0. split; [reflexivity|].
  split; [find_in|]. split; [find_in|].
  match goal with Hp : parse_args _ _ _ = _ |- _ => rewrite Hp end.
  exists opts. split; [reflexivity | assumption].
Qed.


(** X27.  A help flag as first argument wins over everything after it:
    [main] prints the help text, touches nothing and returns 0, whatever
    the other arguments are. *)
Theorem help_flag_first (prog a : string) (rest : list string) (w : W) :
  a = "-h" \/ a = "--help" ->
  main prog (a :: rest) w = (0, w, map Out (help_text prog)).
Proof. intros [->| ->]; reflexivity. Qed.

(** X28.  A key file of blanks only is not refused: when the arguments
    parse without [dry_run] and [force], the client is found, the key file
    is not empty and holds blanks only, the connection test succeeds and the
    pipe opens, [main] reports the key as already present, appends nothing
    and returns 0. *)
Theorem blank_key_file_reported_present (prog : string) (args : list string) (w : W)
        (opts : Options) (file out : string) :
  result_of (parse_args prog args w) = PRet 0 opts ->
  dry_run opts = false -> force opts = false ->
  fst (os_system where_cmd w) = 0 ->
  let w1 := snd (os_system where_cmd w) in
  os_read (key_path_in opts w1) w1 = Some file ->
  file <> EmptyString -> all_blank file = true ->
  fst (os_system (run_ssh_line opts "exit 0") w1) = 0 ->
  let w2 := snd (os_system (run_ssh_line opts "exit 0") w1) in
  fst (os_popen (check_cmd opts) (snd (os_system (mkdir_cmd opts) w2))) = Some out ->
  let t := trace_of (main prog args w) in
  result_of (main prog args w) = 0
  /\ In (Out present_msg) t
  /\ filter is_append t = [].
Proof.
  intros Hparse Hdry Hforce Hwhere w1 Hread Hne Hblank Hconn w2 Hpipe t.
  subst t w2 w1.
  destruct (main prog args w) as [[r0 w'] t] eqn:Hm.
  apply main_runs_aux in Hm. cbn [result_of trace_of fst snd].
  assert (K : forall o, key_in o EmptyString = true).
  { intros o. unfold key_in. destruct (cstr (take (MAX_KEY_SIZE - 1) o)); reflexivity. }
  destruct Hm; same_parse Hparse; try congruence;
    match goal with E : os_system where_cmd w = _ |- _ =>
      rewrite E in Hwhere, Hread, Hconn, Hpipe; cbn [fst snd] in Hwhere, Hread, Hconn, Hpipe
    end; try congruence;
    try match goal with U : unreadable _ |- _ =>
      subst key_path; rewrite Hread in U; destruct U; congruence end;
    subst key_path;
    match goal with E : os_read _ _ = Some _ |- _ =>
      rewrite Hread in E; injection E as <- end;
    match goal with E : os_system (run_ssh_line _ _) _ = _ |- _ =>
      rewrite E in Hconn, Hpipe; cbn [fst snd] in Hconn, Hpipe end;
    try congruence;
    rewrite (key_of_file_blank _ Hblank) in *;
    match goal with Hc : copy_run _ _ _ _ _ _ |- _ =>
      destruct Hc as [? ? ? ? F|? ? ? ? F E1 E2|? ? ? ? ? ? F E1 E2 Hno] end;
    try congruence;
    try (rewrite E1 in Hpipe; cbn [snd] in Hpipe; rewrite E2 in Hpipe; cbn [fst] in Hpipe;
         specialize (K out); rewrite (Hno _ Hpipe) in K; discriminate K).
  all: split; [reflexivity|]; split; [find_in|].
  all: unfold header, testing; destruct (quiet opts); try congruence;
       destruct (custom_port opts); cbn [app filter is_append];
       try destruct (_ =? 0); reflexivity.
Qed.

(** X29.  Only one target is taken: a second argument that does not
    start with [-] is reported as an unknown option and the parse fails,
    whatever follows. *)
Theorem parse_args_second_target (prog a b : string) (rest : list string) (w : W) :
  first_is "-" a = false -> first_is "-" b = false ->
  exists opts,
    parse_args prog (a :: b :: rest) w
    = (PRet (-1) opts, w, Err (unknown_option_msg b) :: map Out (help_text prog)).
Proof.
  intros Ha Hb. unfold parse_args.
  cbn [parse_args_from].
  rewrite !(not_a_flag _ Ha) by reflexivity. cbn [orb]. rewrite Ha. cbn [negb andb].
  destruct (parse_target_pure a opts_init w) as [o Ho].
  unfold bind at 1. rewrite Ho. cbn [snd parse_args_from].
  rewrite !(not_a_flag _ Hb) by reflexivity. cbn [orb]. rewrite Hb. cbn [negb andb].
  eexists. reflexivity.
Qed.

End MainMore.

Lemma remote_call_preconditions_witness :
  let t := trace_of (main Demo.prog ["alice@box"] Demo.w_fresh) in
  let e := Call AtTestConn (run_ssh_line Demo.alice_box "exit 0") 0 in
  In e t /\ is_remote e = true
  /\ exists opts p file,
      result_of (parse_args Demo.prog ["alice@box"] Demo.w_fresh) = PRet 0 opts
      /\ dry_run opts = false
      /\ In (Call AtWhere where_cmd 0) t
      /\ In (Read p (Some file)) t /\ file <> EmptyString.
Proof.
  intros t e.
  assert (Hin : In e t) by (vm_compute; auto 20).
  split; [exact Hin|]. split; [reflexivity|].
  exact (remote_call_preconditions Demo.prog ["alice@box"] Demo.w_fresh e Hin eq_refl).
Defined.

Lemma failed_connection_stops_witness :
  let t := trace_of (main Demo.prog ["alice@box"] w_remote_down) in
  let cmd := run_ssh_line Demo.alice_box "exit 0" in
  In (Call AtTestConn cmd 255) t /\ 255 <> 0
  /\ result_of (main Demo.prog ["alice@box"] w_remote_down) = 1
  /\ forall e, In e t -> is_remote e = true -> e = Call AtTestConn cmd 255.
Proof.
  intros t cmd.
  assert (Hin : In (Call AtTestConn cmd 255) t) by (vm_compute; auto 20).
  split; [exact Hin|]. split; [discriminate|].
  exact (failed_connection_stops Demo.prog ["alice@box"] w_remote_down cmd 255 Hin
           ltac:(discriminate)).
Defined.

Lemma key_test_is_advisory_witness :
  let t := trace_of (main Demo.prog ["alice@box"] Demo.w_fresh) in
  let cmd := test_key_line Demo.alice_box Demo.priv_path in
  In (Call AtTestKey cmd 0) t
  /\ result_of (main Demo.prog ["alice@box"] Demo.w_fresh) = 0
  /\ In (Out copied_msg) t
  /\ In (Out key_works_msg) t
  /\ exists opts,
      result_of (parse_args Demo.prog ["alice@box"] Demo.w_fresh) = PRet 0 opts
      /\ quiet opts = false.
Proof.
  intros t cmd.
  assert (Hin : In (Call AtTestKey cmd 0) t) by (vm_compute; auto 20).
  split; [exact Hin|].
  exact (key_test_is_advisory Demo.prog ["alice@box"] Demo.w_fresh cmd 0 Hin).
Defined.


Lemma help_flag_first_witness :
  ("-h" = "-h" \/ "-h" = "--help")
  /\ main Demo.prog ["-h"; "--no-such-option"] Demo.w_no_ssh
     = (0, Demo.w_no_ssh, map Out (help_text Demo.prog)).
Proof.
  split; [left; reflexivity|].
  exact (help_flag_first Demo.prog "-h" ["--no-such-option"] Demo.w_no_ssh
           (or_introl eq_refl)).
Defined.

Lemma blank_key_file_reported_present_witness :
  let w := w_blank_key in
  let args := ["alice@box"] in
  let opts := Demo.alice_box in
  let w1 := snd (os_system where_cmd w) in
  let w2 := snd (os_system (run_ssh_line opts "exit 0") w1) in
  result_of (parse_args Demo.prog args w) = PRet 0 opts
  /\ dry_run opts = false /\ force opts = false
  /\ fst (os_system where_cmd w) = 0
  /\ os_read (key_path_in opts w1) w1 = Some nl
  /\ nl <> EmptyString /\ all_blank nl = true
  /\ fst (os_system (run_ssh_line opts "exit 0") w1) = 0
  /\ fst (os_popen (check_cmd opts) (snd (os_system (mkdir_cmd opts) w2)))
     = Some EmptyString
  /\ result_of (main Demo.prog args w) = 0
  /\ In (Out present_msg) (trace_of (main Demo.prog args w))
  /\ filter is_append (trace_of (main Demo.prog args w)) = [].
Proof.
  intros w args opts w1 w2.
  split; [reflexivity|]. split; [reflexivity|]. split; [reflexivity|].
  split; [reflexivity|]. split; [reflexivity|]. split; [discriminate|].
  split; [reflexivity|]. split; [reflexivity|]. split; [reflexivity|].
  exact (blank_key_file_reported_present Demo.prog args w opts nl EmptyString
           eq_refl eq_refl eq_refl eq_refl eq_refl ltac:(discriminate) eq_refl
           eq_refl eq_refl).
Defined.

Lemma parse_args_second_target_witness :
  first_is "-" "alice@box" = false /\ first_is "-" "bob@box" = false
  /\ exists opts,
      parse_args Demo.prog ["alice@box"; "bob@box"; "-f"] Demo.w_fresh
      = (PRet (-1) opts, Demo.w_fresh,
         Err (unknown_option_msg "bob@box") :: map Out (help_text Demo.prog)).
Proof.
  split; [reflexivity|]. split; [reflexivity|].
  exact (parse_args_second_target Demo.prog "alice@box" "bob@box" ["-f"] Demo.w_fresh
           eq_refl eq_refl).
Defined.

(** ** What the key-copy step reads of the options *)

Section CopyFrame.

Context {W : Type} `{OS W}.

(** X30.  [copy_key_to_server] reads five fields of the options: user,
    host, port, configuration file and [force].  Two sets of options that
    agree on them give the same run; so the extra ssh options, the
    identity file and [quiet] play no part in the commands that set up the
    directory, fetch the file and append the key. *)
Theorem copy_key_to_server_reads (o1 o2 : Options) (key : string) (w : W) :
  user o1 = user o2 -> host o1 = host o2 -> port o1 = port o2 ->
  ssh_config o1 = ssh_config o2 -> force o1 = force o2 ->
  copy_key_to_server o1 key w = copy_key_to_server o2 key w.
Proof.
  intros Hu Hh Hp Hc Hf.
  assert (L : forall rc, ssh_line o1 rc = ssh_line o2 rc).
  { intros rc. unfold ssh_line, config_str_of, port_str_of.
    rewrite Hu, Hh, Hp, Hc. reflexivity. }
  unfold copy_key_to_server, mkdir_cmd, check_cmd, append_cmd.
  rewrite Hf. rewrite !L. reflexivity.
Qed.

End CopyFrame.

Lemma copy_key_to_server_reads_witness :
  let o1 := Demo.alice_box in
  let o2 := set_ssh_options (set_identity_file Demo.alice_box_quiet "C:\keys\other")
                            "ProxyJump=gate" in
  user o1 = user o2 /\ host o1 = host o2 /\ port o1 = port o2
  /\ ssh_config o1 = ssh_config o2 /\ force o1 = force o2
  /\ copy_key_to_server o1 Demo.key_text Demo.w_fresh
     = copy_key_to_server o2 Demo.key_text Demo.w_fresh.
Proof.
  intros o1 o2. repeat (split; [reflexivity|]).
  exact (copy_key_to_server_reads o1 o2 Demo.key_text Demo.w_fresh
           eq_refl eq_refl eq_refl eq_refl eq_refl).
Defined.
